(** * The multi-snake simulation of [script.js]

    A shallow embedding of the simulation engine of the game: the
    occupancy test, the food allocator, the autonomous planner, the
    creation of the snakes, the tick ([gameLoop]) and the three event
    listeners that write to the simulation state (keydown, the user
    control checkbox and the start button).  Drawing is left out: it
    only reads the state.  The file holds two versions of the script;
    the embedding follows the second, the one with the user-controlled
    snake.  Of the first version the tick is embedded besides
    ([gameLoop_v1]); its other functions are those of the second
    version without the user control.

    The JavaScript globals ([snakes], [food], [foodColor],
    [gameInterval], [window.userSnakeId], [userBlockedCounter]) and the
    one DOM property the engine reads ([userControlCheck.checked]) are
    the fields of one record that every operation takes and returns.
    A snake object is identified by its index in the [snakes] array:
    the array is only ever rebuilt by [createSnakes], so within a run
    the index is the object identity that [snake === ignoreTailSnake]
    compares. *)

From Stdlib Require Import ZArith HexString.
From stdpp Require Import base list strings.

Open Scope Z_scope.

(** ** Data *)

(** A grid cell, also used for directions ([{ x: 1, y: 0 }] ...). *)
Record Cell : Type := mkCell { cell_x : Z; cell_y : Z }.

#[global] Instance Cell_eq_dec : EqDecision Cell.
Proof. solve_decision. Defined.

(** [class Snake]: the constructor's five fields. *)
Record Snake : Type := mkSnake {
  snakeId : nat;
  color : string;
  body : list Cell;          (* head first, tail last *)
  direction : Cell;
  userControlled : bool
}.

(** The [food] object. *)
Record Food : Type := mkFood { food_x : Z; food_y : Z; food_color : string }.

Record State : Type := mkState {
  snakes : list Snake;
  food : Food;
  foodColor : string;
  gameInterval : bool;            (* is the interval timer running *)
  userSnakeId : option nat;       (* window.userSnakeId, None = undefined *)
  userBlockedCounter : Z;
  userControlCheck : bool         (* the checkbox's [checked] *)
}.

Definition USER_BLOCKED_THRESHOLD : Z := 3.

(** The state the script sets up when it is loaded. *)
Definition initialState (checked : bool) : State :=
  {| snakes := [];
     food := mkFood 0 0 "yellow";
     foodColor := "yellow";
     gameInterval := false;
     userSnakeId := None;
     userBlockedCounter := 0;
     userControlCheck := checked |}.

Definition with_body (b : list Cell) (s : Snake) : Snake :=
  {| snakeId := snakeId s; color := color s; body := b;
     direction := direction s; userControlled := userControlled s |}.

Definition with_direction (d : Cell) (s : Snake) : Snake :=
  {| snakeId := snakeId s; color := color s; body := body s;
     direction := d; userControlled := userControlled s |}.

Definition with_userControlled (u : bool) (s : Snake) : Snake :=
  {| snakeId := snakeId s; color := color s; body := body s;
     direction := direction s; userControlled := u |}.

Definition with_snakes (l : list Snake) (st : State) : State :=
  {| snakes := l; food := food st; foodColor := foodColor st;
     gameInterval := gameInterval st; userSnakeId := userSnakeId st;
     userBlockedCounter := userBlockedCounter st;
     userControlCheck := userControlCheck st |}.

Definition with_food (f : Food) (st : State) : State :=
  {| snakes := snakes st; food := f; foodColor := foodColor st;
     gameInterval := gameInterval st; userSnakeId := userSnakeId st;
     userBlockedCounter := userBlockedCounter st;
     userControlCheck := userControlCheck st |}.

Definition with_counter (c : Z) (st : State) : State :=
  {| snakes := snakes st; food := food st; foodColor := foodColor st;
     gameInterval := gameInterval st; userSnakeId := userSnakeId st;
     userBlockedCounter := c;
     userControlCheck := userControlCheck st |}.

Definition with_interval (b : bool) (st : State) : State :=
  {| snakes := snakes st; food := food st; foodColor := foodColor st;
     gameInterval := b; userSnakeId := userSnakeId st;
     userBlockedCounter := userBlockedCounter st;
     userControlCheck := userControlCheck st |}.

Definition with_userSnakeId (u : option nat) (st : State) : State :=
  {| snakes := snakes st; food := food st; foodColor := foodColor st;
     gameInterval := gameInterval st; userSnakeId := u;
     userBlockedCounter := userBlockedCounter st;
     userControlCheck := userControlCheck st |}.

Definition with_foodColor (c : string) (st : State) : State :=
  {| snakes := snakes st; food := food st; foodColor := c;
     gameInterval := gameInterval st; userSnakeId := userSnakeId st;
     userBlockedCounter := userBlockedCounter st;
     userControlCheck := userControlCheck st |}.

Definition with_check (b : bool) (st : State) : State :=
  {| snakes := snakes st; food := food st; foodColor := foodColor st;
     gameInterval := gameInterval st; userSnakeId := userSnakeId st;
     userBlockedCounter := userBlockedCounter st;
     userControlCheck := b |}.

(** An assignment to a field of the snake object at index [i]. *)
Definition updSnake (i : nat) (f : Snake -> Snake) (st : State) : State :=
  with_snakes (alter f i (snakes st)) st.

(** [snake.body.unshift(c)] and [snake.body.pop()]. *)
Definition unshift (c : Cell) (s : Snake) : Snake := with_body (c :: body s) s.
Definition pop (s : Snake) : Snake := with_body (removelast (body s)) s.

(** ** Results and randomness *)

(** What running a piece of the script on a finite supply of random
    numbers gives: a value, the [TypeError] JavaScript throws on
    [undefined.x], or [Pending] when a rejection-sampling loop has used
    up the supply without leaving. *)
Inductive outcome (A : Type) : Type :=
| Done (a : A)
| TypeError
| Pending.
Arguments Done {A} a.
Arguments TypeError {A}.
Arguments Pending {A}.

#[global] Instance outcome_bind : MBind outcome := fun A B k m =>
  match m with
  | Done a => k a
  | TypeError => TypeError
  | Pending => Pending
  end.

(** One value of [Math.random()]: the rational [rnum mod rden / rden],
    which lies in [0, 1) whatever the two fields are. *)
Record Rand : Type := mkRand { rnum : N; rden : positive }.

(** [Math.floor(Math.random() * n)] for the value [r].  The product is
    taken exactly; the script rounds it to a double before the floor,
    which for some values gives the next whole number up.  Both lie in
    [0, n), and what is proved below holds for every supply of values:
    nothing depends on which value gives which number. *)
Definition randomFloor (n : Z) (r : Rand) : Z :=
  (Z.of_N (rnum r mod Npos (rden r)) * n) / Zpos (rden r).

(** ** Proof steps *)

(** Case analysis on the condition of the first [if] of the goal. *)
Ltac split_if :=
  match goal with |- context [if ?b then _ else _] => destruct b end.

Ltac split_if_eqn H :=
  match goal with |- context [if ?b then _ else _] => destruct b eqn:H end.

(** A run of the model on a concrete board. *)
Ltac by_run := vm_compute; reflexivity.

(** A cell is not in a list of cells written out. *)
Ltac cell_not_in H :=
  apply list_elem_of_In in H; simpl in H; intuition discriminate.

(** A cell is in a list of cells written out. *)
Ltac cell_in := apply list_elem_of_In; simpl; tauto.

(** ** Small boards, for the runs at the end *)

(** The value [k/4] of [Math.random()], [k/3] and [k/7]. *)
Definition quarter (k : N) : Rand := mkRand k 4.
Definition third (k : N) : Rand := mkRand k 3.
Definition seventh (k : N) : Rand := mkRand k 7.

Definition snakeAt (i : nat) (c : string) (b : list Cell) (d : Cell) (u : bool) : Snake :=
  {| snakeId := i; color := c; body := b; direction := d; userControlled := u |}.

Definition board (l : list Snake) (f : Cell) (run : bool) (uid : option nat)
    (counter : Z) (check : bool) : State :=
  {| snakes := l; food := mkFood (cell_x f) (cell_y f) "yellow";
     foodColor := "yellow"; gameInterval := run; userSnakeId := uid;
     userBlockedCounter := counter; userControlCheck := check |}.

(** Two autonomous snakes on a 4 x 4 board, the food between them. *)
Definition twoSnakes : State :=
  board [snakeAt 0 "red" [mkCell 0 0] (mkCell (-1) 0) false;
         snakeAt 1 "blue" [mkCell 2 0] (mkCell 1 0) false]
        (mkCell 1 0) true None 0 false.

(** The first snake has eaten, the second has not had its turn. *)
Definition twoSnakes_mid : State :=
  board [snakeAt 0 "red" [mkCell 1 0; mkCell 0 0] (mkCell 1 0) false;
         snakeAt 1 "blue" [mkCell 2 0] (mkCell 1 0) false]
        (mkCell 3 3) true None 0 false.

(** A snake of one block at (1, 1), the food at (2, 2): right and down
    are equally near, right is returned. *)
Definition crossroads : State :=
  board [snakeAt 0 "red" [mkCell 1 1] (mkCell 0 (-1)) false]
        (mkCell 2 2) true None 0 false.

(** A user-controlled snake in a corridor of four cells: it eats twice
    on its way to the left wall and is then shut in by its own body. *)
Definition corridor (b : list Cell) (f : Cell) (run : bool) (counter : Z) : State :=
  board [snakeAt 0 "red" b (mkCell (-1) 0) true] f run (Some 0%nat) counter true.

Definition shutIn : list Cell := [mkCell 0 0; mkCell 1 0; mkCell 2 0].

(** A user-controlled snake facing the left wall of a 4 x 4 board:
    it does not move, and it has a legal move. *)
Definition humanCorner : State :=
  board [snakeAt 0 "red" [mkCell 0 0] (mkCell (-1) 0) true]
        (mkCell 2 2) true (Some 0%nat) 0 true.

(** An autonomous snake of two blocks at the left end of a corridor of
    three cells, reached by eating at (0, 0): it has no safe
    direction. *)
Definition trapped : State :=
  board [snakeAt 0 "red" [mkCell 0 0; mkCell 1 0] (mkCell (-1) 0) false]
        (mkCell 2 0) true None 0 false.

(** A corridor of four cells in which nobody moves: the
    user-controlled snake faces the left wall with the cell to its
    right free, and the autonomous snake, two blocks long after eating
    at (3, 0), is at the right wall. *)
Definition standstill : State :=
  board [snakeAt 0 "red" [mkCell 0 0] (mkCell (-1) 0) true;
         snakeAt 1 "blue" [mkCell 3 0; mkCell 2 0] (mkCell 1 0) false]
        (mkCell 1 0) true (Some 0%nat) 0 true.

(** A lane of seven cells: the user-controlled snake at its left end,
    facing the wall, and three autonomous snakes queueing to its right
    towards the food. *)
Definition lane (b1 b2 b3 : list Cell) (f : Cell) (counter : Z) : State :=
  board [snakeAt 0 "red" [mkCell 0 0] (mkCell (-1) 0) true;
         snakeAt 1 "blue" b1 (mkCell 1 0) false;
         snakeAt 2 "green" b2 (mkCell 1 0) false;
         snakeAt 3 "orange" b3 (mkCell 1 0) false]
        f true (Some 0%nat) counter true.

(** ** Occupancy and food *)

Section Engine.

(** [gridWidth] and [gridHeight]: the canvas width and height, which
    the page sets, over the cell size; whole numbers, the sides of the
    canvas being multiples of the cell size.  The engine only compares
    cell coordinates with them and scales random numbers by them. *)
Variables gridWidth gridHeight : Z.

(** The inner loop of [isCellOccupied] over [snake.body]: with
    [ignoreTail] the last index ([j === snake.body.length - 1]) is
    skipped. *)
Fixpoint scanBody (x y : Z) (ignoreTail : bool) (b : list Cell) : bool :=
  match b with
  | [] => false
  | segment :: rest =>
      if ignoreTail && bool_decide (rest = []) then scanBody x y ignoreTail rest
      else if (cell_x segment =? x) && (cell_y segment =? y) then true
      else scanBody x y ignoreTail rest
  end.

(** The outer loop, [k] being the index of the first snake of [l]. *)
Fixpoint scanSnakes (x y : Z) (ignoreTailSnake : option nat) (k : nat)
    (l : list Snake) : bool :=
  match l with
  | [] => false
  | snake :: l' =>
      if scanBody x y (bool_decide (ignoreTailSnake = Some k)) (body snake)
      then true
      else scanSnakes x y ignoreTailSnake (S k) l'
  end.

Definition isCellOccupied (st : State) (x y : Z) (ignoreTailSnake : option nat) : bool :=
  scanSnakes x y ignoreTailSnake 0 (snakes st).

(** The validity test of the two placement loops: no segment of any
    snake is on (x, y). *)
Definition cellFree (l : list Snake) (x y : Z) : bool :=
  forallb (fun snake =>
    forallb (fun segment => negb ((cell_x segment =? x) && (cell_y segment =? y)))
            (body snake)) l.

(** The [while (!valid)] loop, written out twice in the script (in
    [generateFood] and for the starting cell in [createSnakes]): each
    round draws x, then y, and leaves when the cell is free. *)
Fixpoint sampleFreeCell (l : list Snake) (rs : list Rand) : outcome (Cell * list Rand) :=
  match rs with
  | rx :: ry :: rs' =>
      let x := randomFloor gridWidth rx in
      let y := randomFloor gridHeight ry in
      if cellFree l x y then Done (mkCell x y, rs') else sampleFreeCell l rs'
  | _ => Pending
  end.

Definition generateFood (st : State) (rs : list Rand) : outcome (State * list Rand) :=
  '(c, rs') ← sampleFreeCell (snakes st) rs;
  Done (with_food (mkFood (cell_x c) (cell_y c) (foodColor st)) st, rs').

(** ** The autonomous planner *)

Definition possibleDirections : list Cell :=
  [mkCell 1 0; mkCell (-1) 0; mkCell 0 1; mkCell 0 (-1)].

(** [Array.prototype.sort] with a comparator is a stable sort; the
    result is the one of inserting the elements from the right, each in
    front of the first element it does not compare greater than. *)
Fixpoint insertBy {A : Type} (cmp : A -> A -> Z) (a : A) (l : list A) : list A :=
  match l with
  | [] => [a]
  | b :: l' => if cmp a b <=? 0 then a :: b :: l' else b :: insertBy cmp a l'
  end.

Definition sortBy {A : Type} (cmp : A -> A -> Z) (l : list A) : list A :=
  foldr (insertBy cmp) [] l.

(** The distance the comparator of [getNextDirection] computes. *)
Definition dist (st : State) (head dir : Cell) : Z :=
  Z.abs (cell_x head + cell_x dir - food_x (food st))
  + Z.abs (cell_y head + cell_y dir - food_y (food st)).

Definition isReverse (dir currentDir : Cell) : bool :=
  (cell_x dir =? - cell_x currentDir) && (cell_y dir =? - cell_y currentDir).

(** The candidates left after the reversal filter. *)
Definition candidates (snake : Snake) : list Cell :=
  if (1 <? length (body snake))%nat
  then filter (fun dir => negb (isReverse dir (direction snake)) = true) possibleDirections
  else possibleDirections.

(** The directions the [for] loop pushes on [safeDirections]. *)
Definition safeDirections (st : State) (i : nat) (snake : Snake) (head : Cell) : list Cell :=
  filter (fun dir =>
    let newX := cell_x head + cell_x dir in
    let newY := cell_y head + cell_y dir in
    negb ((newX <? 0) || (newX >=? gridWidth) || (newY <? 0) || (newY >=? gridHeight)
          || isCellOccupied st newX newY (Some i)) = true)
    (candidates snake).

(** [getNextDirection(snake)], [snake] being [snakes[i]]; [None] is
    JavaScript's [null]. *)
Definition getNextDirection (st : State) (i : nat) (snake : Snake) : outcome (option Cell) :=
  match body snake with
  | [] => TypeError
  | head :: _ =>
      match safeDirections st i snake head with
      | [] => Done None
      | safe =>
          Done (hd_error (sortBy (fun a b => dist st head a - dist st head b) safe))
      end
  end.

(** ** The tick *)

Definition isFood (st : State) (c : Cell) : bool :=
  (cell_x c =? food_x (food st)) && (cell_y c =? food_y (food st)).

(** Committing a move of [snakes[i]] to [newHead]: the [if]/[else] on
    the food cell that both branches of [gameLoop] contain. *)
Definition commitMove (i : nat) (newHead : Cell) (st : State) (rs : list Rand)
    : outcome (State * list Rand) :=
  if isFood st newHead then
    generateFood (updSnake i (unshift newHead) st) rs
  else
    Done (updSnake i pop (updSnake i (unshift newHead) st), rs).

(** The body of the [for (let snake of snakes)] loop for [snakes[i]],
    on the state, the [anyMoved] flag and the random supply. *)
Definition stepSnake (i : nat) (acc : State * bool * list Rand)
    : outcome (State * bool * list Rand) :=
  let '(st, anyMoved, rs) := acc in
  match snakes st !! i with
  | None => Done acc
  | Some snake =>
      match body snake with
      | [] => TypeError
      | head :: _ =>
          if userControlled snake then
            let intendedDir := direction snake in
            let newHead := mkCell (cell_x head + cell_x intendedDir)
                                  (cell_y head + cell_y intendedDir) in
            if (cell_x newHead <? 0) || (cell_x newHead >=? gridWidth)
               || (cell_y newHead <? 0) || (cell_y newHead >=? gridHeight)
               || isCellOccupied st (cell_x newHead) (cell_y newHead) (Some i)
            then Done acc
            else
              '(st', rs') ← commitMove i newHead st rs;
              Done (st', true, rs')
          else
            nextDir ← getNextDirection st i snake;
            match nextDir with
            | Some nextDir =>
                let newHead := mkCell (cell_x head + cell_x nextDir)
                                      (cell_y head + cell_y nextDir) in
                '(st', rs') ← commitMove i newHead st rs;
                Done (updSnake i (with_direction nextDir) st', true, rs')
            | None => Done acc
            end
      end
  end.

Fixpoint forSnakes (idxs : list nat) (acc : State * bool * list Rand)
    : outcome (State * bool * list Rand) :=
  match idxs with
  | [] => Done acc
  | i :: idxs' => acc' ← stepSnake i acc; forSnakes idxs' acc'
  end.

(** The whole [for] loop of [gameLoop]. *)
Definition moveSnakes (st : State) (rs : list Rand) : outcome (State * bool * list Rand) :=
  forSnakes (seq 0 (length (snakes st))) (st, false, rs).

(** [snakes.find((s) => s.userControlled)], with the index found. *)
Definition findUserSnake (st : State) : option (nat * Snake) :=
  list_find (fun s => userControlled s = true) (snakes st).

(** The [safeMoves] of the game-over test. *)
Definition safeMoves (st : State) (i : nat) (head : Cell) : list Cell :=
  filter (fun dir =>
    let newX := cell_x head + cell_x dir in
    let newY := cell_y head + cell_y dir in
    (newX >=? 0) && (newX <? gridWidth) && (newY >=? 0) && (newY <? gridHeight)
    && negb (isCellOccupied st newX newY (Some i)) = true)
    possibleDirections.

(** The game-over part of [gameLoop], after the loop. *)
Definition gameOverCheck (st : State) (anyMoved : bool) : outcome State :=
  if userControlCheck st then
    match findUserSnake st with
    | Some (i, userSnake) =>
        match body userSnake with
        | [] => TypeError
        | head :: _ =>
            match safeMoves st i head with
            | [] =>
                let st' := with_counter (userBlockedCounter st + 1) st in
                if userBlockedCounter st' >=? USER_BLOCKED_THRESHOLD
                then Done (with_interval false st')
                else Done st'
            | _ => Done (with_counter 0 st)
            end
        end
    | None => Done st
    end
  else
    if negb anyMoved then Done (with_interval false st) else Done st.

Definition gameLoop (st : State) (rs : list Rand) : outcome (State * list Rand) :=
  '(st1, anyMoved, rs') ← moveSnakes st rs;
  st2 ← gameOverCheck st1 anyMoved;
  Done (st2, rs').

(** ** The listeners *)

(** The [switch (e.key)] of the keydown listener; [None] is the
    [default: return]. *)
Definition keyDirection (key : string) : option Cell :=
  if existsb (String.eqb key) ["ArrowUp"; "w"; "W"] then Some (mkCell 0 (-1))
  else if existsb (String.eqb key) ["ArrowDown"; "s"; "S"] then Some (mkCell 0 1)
  else if existsb (String.eqb key) ["ArrowLeft"; "a"; "A"] then Some (mkCell (-1) 0)
  else if existsb (String.eqb key) ["ArrowRight"; "d"; "D"] then Some (mkCell 1 0)
  else None.

(** The listener after the [switch]: the direction [newDir] is set on
    the user-controlled snake unless it is a reversal of a snake of two
    blocks or more. *)
Definition setDirection (newDir : Cell) (st : State) : State :=
  match findUserSnake st with
  | None => st
  | Some (i, userSnake) =>
      if (1 <? length (body userSnake))%nat
         && (cell_x (direction userSnake) =? - cell_x newDir)
         && (cell_y (direction userSnake) =? - cell_y newDir)
      then st
      else updSnake i (with_direction newDir) st
  end.

Definition keydown (key : string) (st : State) : State :=
  match findUserSnake st with
  | None => st
  | Some _ =>
      match keyDirection key with
      | None => st
      | Some newDir => setDirection newDir st
      end
  end.

(** [snakes.find((s) => s.id === window.userSnakeId)]. *)
Definition findDesignated (st : State) : option (nat * Snake) :=
  list_find (fun s => Some (snakeId s) = userSnakeId st) (snakes st).

(** The [change] listener of the checkbox, [checked] being its new
    value. *)
Definition change (checked : bool) (st : State) : State :=
  let st := with_check checked st in
  if checked then
    match findDesignated st with
    | Some (i, _) => updSnake i (with_userControlled true) st
    | None =>
        match snakes st with
        | first :: _ =>
            with_userSnakeId (Some (snakeId first))
              (updSnake 0 (with_userControlled true) st)
        | [] => st
        end
    end
  else
    match findDesignated st with
    | Some (i, _) => updSnake i (with_userControlled false) st
    | None => st
    end.

(** ** Creating the snakes and starting *)

Definition presetColors : list string :=
  ["red"; "blue"; "green"; "orange"; "purple"; "cyan"; "magenta"; "brown";
   "pink"; "lime"; "teal"; "navy"; "maroon"; "olive"; "coral"; "turquoise";
   "violet"].

(** [n.toString(16)] for a number that is not negative. *)
Definition toString16 (n : Z) : string :=
  match n with
  | Zpos p => HexString.Raw.of_pos p ""
  | _ => "0"
  end.

(** The [do ... while] loop that draws a colour no snake has yet. *)
Fixpoint randomColor (l : list Snake) (rs : list Rand) : outcome (string * list Rand) :=
  match rs with
  | r :: rs' =>
      let c := ("#" +:+ toString16 (randomFloor 16777215 r))%string in
      if existsb (fun s => String.eqb (color s) c) l then randomColor l rs'
      else Done (c, rs')
  | [] => Pending
  end.

(** One round of the [for] loop of [createSnakes], for the index [i]. *)
Definition createSnake (i : nat) (st : State) (rs : list Rand) : outcome (State * list Rand) :=
  '(c, rs1) ← match presetColors !! i with
              | Some c => Done (c, rs)
              | None => randomColor (snakes st) rs
              end;
  let snake := mkSnake i c [] (mkCell 0 0) false in
  let designate := bool_decide (i = 0%nat) && userControlCheck st in
  let snake := if designate then with_userControlled true snake else snake in
  let st := if designate then with_userSnakeId (Some (snakeId snake)) st else st in
  '(pos, rs2) ← sampleFreeCell (snakes st) rs1;
  let snake := with_body (body snake ++ [pos]) snake in
  match rs2 with
  | r :: rs3 =>
      let d := nth (Z.to_nat (randomFloor 4 r)) possibleDirections (mkCell 0 0) in
      Done (with_snakes (snakes st ++ [with_direction d snake]) st, rs3)
  | [] => Pending
  end.

(** [n] rounds of the loop from the index [i] on. *)
Fixpoint createSnakes_loop (n : nat) (i : nat) (st : State) (rs : list Rand)
    : outcome (State * list Rand) :=
  match n with
  | O => Done (st, rs)
  | S n' => '(st', rs') ← createSnake i st rs; createSnakes_loop n' (S i) st' rs'
  end.

(** [createSnakes(count)]: the loop runs while [i < count], that is
    [count] times, and not at all for a count below 1. *)
Definition createSnakes (count : Z) (st : State) (rs : list Rand) : outcome (State * list Rand) :=
  createSnakes_loop (Z.to_nat count) 0 (with_counter 0 (with_snakes [] st)) rs.

Definition foodCandidates : list string :=
  ["yellow"; "black"; "white"; "gray"; "silver"; "gold"; "teal"; "navy"].

(** The click listener of the start button.  [parsed] is what
    [parseInt] made of the text of the count field, [None] for [NaN];
    [parsed || 1] replaces [NaN] and 0 by 1. *)
Definition startClick (parsed : option Z) (st : State) (rs : list Rand)
    : outcome (State * list Rand) :=
  let count := match parsed with
               | Some n => if n =? 0 then 1 else n
               | None => 1
               end in
  '(st1, rs1) ← createSnakes count st rs;
  let snakeColors := map color (snakes st1) in
  let chosenFoodColor :=
    match find (fun c => negb (existsb (String.eqb c) snakeColors)) foodCandidates with
    | Some c => c
    | None => "yellow"
    end in
  '(st2, rs2) ← generateFood (with_foodColor chosenFoodColor st1) rs1;
  Done (with_interval true st2, rs2).

(** ** Vocabulary of the properties *)

(** All the cells the snakes of [l] lie on, snake after snake. *)
Definition segments (l : list Snake) : list Cell := l ≫= body.

Definition foodCell (st : State) : Cell :=
  mkCell (food_x (food st)) (food_y (food st)).

(** The invariant of the states at rest: the segments are pairwise on
    different cells, the food is on none of them, and every snake has
    a head. *)
Definition Inv (st : State) : Prop :=
  NoDup (segments (snakes st))
  ∧ (foodCell st ∉ segments (snakes st))
  ∧ (Forall (fun s => body s ≠ []) (snakes st)).

(** The fields a move leaves alone: of the state, and of a snake. *)
Definition sameControl (st st' : State) : Prop :=
  foodColor st' = foodColor st
  ∧ gameInterval st' = gameInterval st
  ∧ userSnakeId st' = userSnakeId st
  ∧ userBlockedCounter st' = userBlockedCounter st
  ∧ userControlCheck st' = userControlCheck st.

Definition sameIdentity (s s' : Snake) : Prop :=
  snakeId s' = snakeId s ∧ color s' = color s
  ∧ userControlled s' = userControlled s.

(** No two segments are on one cell: a cell found at index [a] of the
    body of [snakes[i]] and at index [b] of the body of [snakes[j]] is
    found at one place only. *)
Definition distinctSegments (l : list Snake) : Prop :=
  ∀ i j a b si sj c,
    l !! i = Some si → l !! j = Some sj →
    body si !! a = Some c → body sj !! b = Some c →
    i = j ∧ a = b.

(** The Manhattan distance of two cells, the cell a step in direction
    [dir] leads to, and the exact reverse of a direction. *)
Definition manhattan (p q : Cell) : Z :=
  Z.abs (cell_x p - cell_x q) + Z.abs (cell_y p - cell_y q).

Definition prospective (head dir : Cell) : Cell :=
  mkCell (cell_x head + cell_x dir) (cell_y head + cell_y dir).

Definition reverse (dir : Cell) : Cell := mkCell (- cell_x dir) (- cell_y dir).

(** A step of one cell along an axis. *)
Definition unitStep (dir : Cell) : Prop :=
  Z.abs (cell_x dir) + Z.abs (cell_y dir) = 1.

(** The cell [c] is open to the snake of index [i]: no block of
    another snake is on it, and of the snake's own blocks at most the
    last, which a move vacates. *)
Definition openTo (st : State) (i : nat) (c : Cell) : Prop :=
  ∀ j s, snakes st !! j = Some s →
    c ∉ (if decide (j = i) then removelast (body s) else body s).

(** A legal move of the snake of index [i], whose head is on [head]: a
    step of one cell to a cell of the board that is open to the
    snake. *)
Definition legalMove (st : State) (i : nat) (head dir : Cell) : Prop :=
  unitStep dir ∧ 0 <= cell_x head + cell_x dir < gridWidth
  ∧ 0 <= cell_y head + cell_y dir < gridHeight
  ∧ openTo st i (prospective head dir).

(** On the board of [st] the user-controlled snake has no legal move,
    or has one.  Both are read off the board: the cells, the walls and
    the flags of the snakes, not the game-over test of the tick. *)
Definition humanBlockedAt (st : State) : Prop :=
  ∃ i u head rest, snakes st !! i = Some u ∧ userControlled u = true
                   ∧ body u = head :: rest
                   ∧ ∀ dir, ¬ legalMove st i head dir.

Definition humanFreeAt (st : State) : Prop :=
  ∃ i u head rest dir, snakes st !! i = Some u ∧ userControlled u = true
                       ∧ body u = head :: rest
                       ∧ legalMove st i head dir.

(** What the game-over test of a tick computes on the state [st] the
    loop over the snakes has left: an empty list of safe moves for the
    snake its [find] returns, or a list that is not empty. *)
Definition testFindsNone (st : State) : Prop :=
  ∃ i u head rest, findUserSnake st = Some (i, u) ∧ body u = head :: rest
                   ∧ safeMoves st i head = [].

Definition testFindsSome (st : State) : Prop :=
  ∃ i u head rest, findUserSnake st = Some (i, u) ∧ body u = head :: rest
                   ∧ safeMoves st i head ≠ [].

(** A legal move of an autonomous snake: a legal move that is not the
    reverse of the direction of a snake of two blocks or more. *)
Definition plannerMove (st : State) (i : nat) (s : Snake) (head dir : Cell) : Prop :=
  legalMove st i head dir
  ∧ ((1 < length (body s))%nat → dir ≠ reverse (direction s)).

(** No snake of the board has a legal move. *)
Definition allBlocked (st : State) : Prop :=
  ∀ i s head rest dir,
    snakes st !! i = Some s → body s = head :: rest → ¬ plannerMove st i s head dir.

(** Zero snakes moved from [st] to [st']: every body is as it was. *)
Definition nobodyMoved (st st' : State) : Prop :=
  ∀ k s s', snakes st !! k = Some s → snakes st' !! k = Some s' → body s' = body s.

(** No human snake is active: no snake of the board is
    user-controlled. *)
Definition noHuman (st : State) : Prop :=
  ∀ k s, snakes st !! k = Some s → userControlled s = false.

(** A tick from [st] on the supply [rs]: [mid] after the moves, [st']
    after the game-over test. *)
Definition tick (st : State) (rs : list Rand) (mid st' : State) (rs' : list Rand) : Prop :=
  ∃ anyMoved, moveSnakes st rs = Done (mid, anyMoved, rs')
              ∧ gameLoop st rs = Done (st', rs').

(** The cells one round after the other of a placement loop would draw
    from the supply [rs]. *)
Fixpoint rounds (rs : list Rand) : list Cell :=
  match rs with
  | rx :: ry :: rs' =>
      mkCell (randomFloor gridWidth rx) (randomFloor gridHeight ry) :: rounds rs'
  | _ => []
  end.

(** ** Runs *)

(** What happens between two states at rest; the timer calls
    [gameLoop] only while it runs. *)
Inductive Event : Type :=
| Tick
| KeyDown (key : string)
| Change (checked : bool)
| Start (parsed : option Z).

Definition handle (ev : Event) (st : State) (rs : list Rand) : outcome (State * list Rand) :=
  match ev with
  | Tick => if gameInterval st then gameLoop st rs else Done (st, rs)
  | KeyDown key => Done (keydown key st, rs)
  | Change checked => Done (change checked st, rs)
  | Start parsed => startClick parsed st rs
  end.

(** The states the simulation can be in at rest: the state at load and
    every state an event leads to. *)
Inductive reachable : State -> Prop :=
| reachable_init checked : reachable (initialState checked)
| reachable_step st ev rs st' rs' :
    reachable st -> handle ev st rs = Done (st', rs') -> reachable st'.

(** The reading C2 gives of the occupancy test: that the test of the
    snake of index [i] in a tick, made on the state [mid] the turns of
    the snakes before it have left, answers as on the state [st] the
    tick started from. *)
Definition checksAgainstRestingLayout : Prop :=
  ∀ st rs i mid anyMoved rs' x y,
    reachable st → gameInterval st = true → (i < length (snakes st))%nat →
    forSnakes (seq 0 i) (st, false, rs) = Done (mid, anyMoved, rs') →
    isCellOccupied mid x y (Some i) = isCellOccupied st x y (Some i).

(** The reading C6 gives of the end without a human snake: that a tick
    of a running game in which no snake is user-controlled and zero
    snakes moved stops the timer. *)
Definition endsWhenNobodyMoved : Prop :=
  ∀ st rs st' rs',
    reachable st → gameInterval st = true → noHuman st →
    gameLoop st rs = Done (st', rs') → nobodyMoved st st' →
    gameInterval st' = false.

(** What every state at rest has besides [Inv]: the directions are
    among the four unit vectors; the identifier of a snake is its
    index; only the first snake can be user-controlled, and it is so
    exactly when the checkbox is on. *)
Definition modeInv (st : State) : Prop :=
  Forall (fun s => direction s ∈ possibleDirections) (snakes st)
  ∧ (∀ k s, snakes st !! k = Some s → snakeId s = k)
  ∧ (∀ k s, snakes st !! k = Some s → userControlled s = true →
       k = 0%nat ∧ userSnakeId st = Some 0%nat ∧ userControlCheck st = true)
  ∧ (userControlCheck st = true →
       ∀ s, snakes st !! 0%nat = Some s → userControlled s = true)
  ∧ (∀ u, userSnakeId st = Some u → u = 0%nat).

(** A cell of the board. *)
Definition inGrid (c : Cell) : Prop :=
  0 <= cell_x c < gridWidth ∧ 0 <= cell_y c < gridHeight.

(** ** Vocabulary of the further properties *)

(** [s'] is [s] after one move: the head is one step further in the
    direction [s'] has, on a cell of the board, and the old blocks
    follow, all of them when the snake has eaten, all but the last
    otherwise. *)
Definition advanced (s s' : Snake) : Prop :=
  ∃ head rest, body s = head :: rest
    ∧ inGrid (prospective head (direction s'))
    ∧ (body s' = prospective head (direction s') :: body s
       ∨ body s' = prospective head (direction s') :: removelast (body s)).

(** The cells and the food are on the board. *)
Definition onBoard (st : State) : Prop :=
  Forall inGrid (segments (snakes st)) ∧ inGrid (foodCell st).

(** The colour the loop of [createSnakes] gives the snake of index [k]:
    the preset colour of that index, or past the presets a drawn
    ["#"] colour. *)
Definition colourOf (k : nat) (c : string) : Prop :=
  match presetColors !! k with
  | Some p => c = p
  | None => ∃ r, c = ("#" +:+ toString16 (randomFloor 16777215 r))%string
  end.

(** A list of colours as the loop builds it. *)
Definition coloursOK (cs : list string) : Prop :=
  NoDup cs ∧ ∀ k c, cs !! k = Some c → colourOf k c.

(** What every state at rest has of colours: the food is yellow and
    the colours of the snakes are those of the loop of [createSnakes],
    no two the same. *)
Definition colourInv (st : State) : Prop :=
  foodColor st = "yellow" ∧ food_color (food st) = "yellow"
  ∧ coloursOK (map color (snakes st)).

(** The snakes as the loop of [createSnakes] leaves them: the
    identifier is the index, the body is one block, the direction one
    of the four, and only the first snake is user-controlled, when the
    checkbox is on. *)
Definition fresh (check : bool) (l : list Snake) : Prop :=
  ∀ k s, l !! k = Some s →
    snakeId s = k ∧ (∃ pos, body s = [pos]) ∧ direction s ∈ possibleDirections
    ∧ userControlled s = bool_decide (k = 0%nat) && check.

(** The body of the loop of the first version of [gameLoop], in which
    no snake is user-controlled: every snake asks the planner.  The
    fields the first version does not have are left as they are. *)
Definition stepSnake_v1 (i : nat) (acc : State * bool * list Rand)
    : outcome (State * bool * list Rand) :=
  let '(st, anyMoved, rs) := acc in
  match snakes st !! i with
  | None => Done acc
  | Some snake =>
      nextDir ← getNextDirection st i snake;
      match nextDir with
      | Some nextDir =>
          match body snake with
          | [] => TypeError
          | head :: _ =>
              let newHead := mkCell (cell_x head + cell_x nextDir)
                                    (cell_y head + cell_y nextDir) in
              '(st', rs') ← commitMove i newHead st rs;
              Done (updSnake i (with_direction nextDir) st', true, rs')
          end
      | None => Done acc
      end
  end.

Fixpoint forSnakes_v1 (idxs : list nat) (acc : State * bool * list Rand)
    : outcome (State * bool * list Rand) :=
  match idxs with
  | [] => Done acc
  | i :: idxs' => acc' ← stepSnake_v1 i acc; forSnakes_v1 idxs' acc'
  end.

(** The first version of [gameLoop]: the loop, then the end of the
    game when no snake has moved. *)
Definition gameLoop_v1 (st : State) (rs : list Rand) : outcome (State * list Rand) :=
  '(st1, anyMoved, rs') ← forSnakes_v1 (seq 0 (length (snakes st))) (st, false, rs);
  Done (if negb anyMoved then with_interval false st1 else st1, rs').

(** ** Occupancy *)

Lemma cell_eqb_spec (c : Cell) (x y : Z) :
  ((cell_x c =? x) && (cell_y c =? y)) = true ↔ c = mkCell x y.
Proof.
  destruct c as [cx cy]; simpl.
  rewrite andb_true_iff, !Z.eqb_eq. split.
  - intros [-> ->]; reflexivity.
  - intros [= -> ->]; auto.
Qed.

Lemma scanBody_spec (x y : Z) (ignoreTail : bool) (b : list Cell) :
  scanBody x y ignoreTail b = true
  ↔ mkCell x y ∈ (if ignoreTail then removelast b else b).
Proof.
  induction b as [|seg rest IH]; simpl.
  - destruct ignoreTail; split; try discriminate; inversion 1.
  - destruct ignoreTail; simpl.
    + case_bool_decide as Hrest.
      * subst rest. simpl. split; [discriminate | inversion 1].
      * destruct rest as [|seg' rest']; [done|].
        destruct ((cell_x seg =? x) && (cell_y seg =? y)) eqn:E.
        -- apply cell_eqb_spec in E. subst seg. split; [intros _; left | done].
        -- rewrite IH. rewrite elem_of_cons. split; [auto|].
           intros [Heq|Hin]; [|done].
           symmetry in Heq. apply cell_eqb_spec in Heq. congruence.
    + destruct ((cell_x seg =? x) && (cell_y seg =? y)) eqn:E.
      * apply cell_eqb_spec in E. subst seg. split; [intros _; left | done].
      * rewrite IH. rewrite elem_of_cons. split; [auto|].
        intros [Heq|Hin]; [|done].
        symmetry in Heq. apply cell_eqb_spec in Heq. congruence.
Qed.

(** Without a snake to ignore among those scanned, the scan is
    membership in the segments. *)
Lemma scanSnakes_plain (x y : Z) (ign : option nat) (l : list Snake) (k : nat) :
  (∀ j, (j < length l)%nat → ign ≠ Some (k + j)%nat) →
  scanSnakes x y ign k l = true ↔ mkCell x y ∈ segments l.
Proof.
  revert k. induction l as [|s l IH]; intros k Hign; simpl.
  - split; [discriminate | inversion 1].
  - change (segments (s :: l)) with (body s ++ segments l). rewrite elem_of_app.
    assert (Hk : bool_decide (ign = Some k) = false).
    { apply bool_decide_eq_false. specialize (Hign 0%nat).
      rewrite Nat.add_0_r in Hign. apply Hign. simpl. lia. }
    rewrite Hk.
    destruct (scanBody x y false (body s)) eqn:E.
    + apply scanBody_spec in E. simpl in E. split; auto.
    + rewrite IH.
      * split; [auto|]. intros [Hin|Hin]; [|done].
        apply (scanBody_spec x y false) in Hin. congruence.
      * intros j Hj. replace (S k + j)%nat with (k + S j)%nat by lia.
        apply Hign. simpl. lia.
Qed.

(** With the tail of [snakes[i]] ignored, the scan is membership in
    the body of that snake without its last cell, or in the segments of
    the other snakes. *)
Lemma scanSnakes_ignore (x y : Z) (l : list Snake) (i k : nat) (s : Snake) :
  l !! i = Some s →
  scanSnakes x y (Some (k + i)%nat) k l = true
  ↔ mkCell x y ∈ removelast (body s) ++ segments (delete i l).
Proof.
  revert i k. induction l as [|s0 l IH]; intros i k Hl; [done|].
  destruct i as [|i]; simpl in *.
  - injection Hl as ->. rewrite Nat.add_0_r, bool_decide_eq_true_2 by done.
    rewrite elem_of_app.
    destruct (scanBody x y true (body s)) eqn:E.
    + apply scanBody_spec in E. simpl in E. split; auto.
    + rewrite scanSnakes_plain by (intros; injection; lia).
      split; [auto|]. intros [Hin|Hin]; [|done].
      apply (scanBody_spec x y true) in Hin. congruence.
  - rewrite bool_decide_eq_false_2 by (injection; lia).
    replace (k + S i)%nat with (S k + i)%nat by lia.
    change (segments (s0 :: delete i l)) with (body s0 ++ segments (delete i l)).
    rewrite !elem_of_app.
    destruct (scanBody x y false (body s0)) eqn:E.
    + apply scanBody_spec in E. simpl in E. split; auto.
    + rewrite (IH i (S k) Hl), elem_of_app.
      split; [tauto|]. intros [Hin|[Hin|Hin]]; auto.
      apply (scanBody_spec x y false) in Hin. congruence.
Qed.

Lemma isCellOccupied_ignore (st : State) (c : Cell) (i : nat) (s : Snake) :
  snakes st !! i = Some s →
  isCellOccupied st (cell_x c) (cell_y c) (Some i) = true
  ↔ c ∈ removelast (body s) ++ segments (delete i (snakes st)).
Proof.
  intros Hl. unfold isCellOccupied.
  rewrite (scanSnakes_ignore _ _ _ i 0 s Hl). by destruct c.
Qed.

Lemma isCellOccupied_all (st : State) (c : Cell) :
  isCellOccupied st (cell_x c) (cell_y c) None = true ↔ c ∈ segments (snakes st).
Proof.
  unfold isCellOccupied. rewrite scanSnakes_plain by done. by destruct c.
Qed.

Lemma cellFree_spec (l : list Snake) (x y : Z) :
  cellFree l x y = true ↔ mkCell x y ∉ segments l.
Proof.
  unfold cellFree, segments. rewrite forallb_forall, list_elem_of_bind. split.
  - intros Hall (s & Hin & Hs).
    apply list_elem_of_In in Hs. specialize (Hall s Hs).
    rewrite forallb_forall in Hall.
    apply list_elem_of_In in Hin. specialize (Hall _ Hin).
    apply negb_true_iff in Hall.
    assert (Heq : (cell_x (mkCell x y) =? x) && (cell_y (mkCell x y) =? y) = true)
      by (by apply cell_eqb_spec).
    congruence.
  - intros Hno s Hs. apply forallb_forall. intros seg Hseg.
    apply negb_true_iff. destruct ((cell_x seg =? x) && (cell_y seg =? y)) eqn:E; [|done].
    apply cell_eqb_spec in E. subst seg. exfalso. apply Hno.
    exists s. split; by apply list_elem_of_In.
Qed.

(** ** Updating one snake *)

Lemma segments_lookup (l : list Snake) (i : nat) (s : Snake) :
  l !! i = Some s → segments l ≡ₚ body s ++ segments (delete i l).
Proof.
  intros Hl. unfold segments.
  etrans; [apply bind_Permutation, (delete_Permutation _ _ _ Hl)|]. done.
Qed.

Lemma delete_alter_same (f : Snake -> Snake) (l : list Snake) (i : nat) :
  delete i (alter f i l) = delete i l.
Proof.
  revert i. induction l as [|s l IH]; intros [|i]; simpl; try done.
  by rewrite IH.
Qed.

Lemma segments_alter (f : Snake -> Snake) (l : list Snake) (i : nat) (s : Snake) :
  l !! i = Some s →
  segments (alter f i l) ≡ₚ body (f s) ++ segments (delete i l).
Proof.
  intros Hl. rewrite <- (delete_alter_same f l i).
  apply segments_lookup. by rewrite list_lookup_alter_eq, Hl.
Qed.

(** An update that keeps the body keeps the segments. *)
Lemma segments_alter_body (f : Snake -> Snake) (l : list Snake) (i : nat) :
  (∀ s, body (f s) = body s) → segments (alter f i l) = segments l.
Proof.
  intros Hf. revert i. induction l as [|s l IH]; intros [|i]; simpl; try done.
  - change (body (f s) ++ segments l = body s ++ segments l). by rewrite Hf.
  - change (body s ++ segments (alter f i l) = body s ++ segments l). by rewrite IH.
Qed.

Lemma Forall_alter_body (f : Snake -> Snake) (l : list Snake) (i : nat) :
  (∀ s, body s ≠ [] → body (f s) ≠ []) →
  Forall (fun s => body s ≠ []) l →
  Forall (fun s => body s ≠ []) (alter f i l).
Proof.
  intros Hf Hall. revert i.
  induction Hall as [|s l Hs Hall IH]; intros [|i]; simpl; try done.
  - constructor; [by apply Hf | done].
  - constructor; [done | apply IH].
Qed.

Lemma removelast_unshift (h : Cell) (b : list Cell) :
  b ≠ [] → removelast (h :: b) = h :: removelast b.
Proof. by destruct b. Qed.

Lemma length_removelast_unshift (h : Cell) (b : list Cell) :
  length (removelast (h :: b)) = length b.
Proof.
  revert h. induction b as [|c b IH]; intros h; [done|].
  rewrite removelast_unshift by done. simpl. f_equal. apply IH.
Qed.

Lemma NoDup_drop_last (rb X : list Cell) (t : Cell) :
  NoDup ((rb ++ [t]) ++ X) → NoDup (rb ++ X).
Proof.
  rewrite !NoDup_app. intros ((Hrb & _ & _) & Hdis & HX).
  split; [done|]. split; [|done].
  intros c Hc. apply Hdis. apply elem_of_app. by left.
Qed.

(** ** The placement loop *)

Lemma pairs_ind (P : list Rand → Prop) :
  P [] → (∀ r, P [r]) → (∀ rx ry rs, P rs → P (rx :: ry :: rs)) →
  ∀ rs, P rs.
Proof.
  intros H0 H1 H2 rs.
  cut (P rs ∧ ∀ r, P (r :: rs)); [tauto|].
  induction rs as [|r rs [IH1 IH2]]; split; auto.
Qed.

Lemma sampleFreeCell_Done (l : list Snake) (rs : list Rand) (c : Cell) (rs' : list Rand) :
  sampleFreeCell l rs = Done (c, rs') → (c ∉ segments l) ∧ c ∈ rounds rs.
Proof.
  induction rs as [| |rx ry rs IH] using pairs_ind; simpl; try discriminate.
  destruct (cellFree l _ _) eqn:E.
  - intros [= <- <-]. apply cellFree_spec in E. split; [done | left].
  - intros H. destruct (IH H). split; [done | by right].
Qed.

Lemma sampleFreeCell_not_TypeError (l : list Snake) (rs : list Rand) :
  sampleFreeCell l rs ≠ TypeError.
Proof.
  induction rs as [| |rx ry rs IH] using pairs_ind; simpl; try discriminate.
  by destruct (cellFree l _ _).
Qed.

(** The loop leaves as soon as the supply holds a round on a free
    cell. *)
Lemma sampleFreeCell_total (l : list Snake) (rs : list Rand) :
  (∃ c, c ∈ rounds rs ∧ c ∉ segments l) →
  ∃ c rs', sampleFreeCell l rs = Done (c, rs').
Proof.
  induction rs as [| |rx ry rs IH] using pairs_ind; simpl.
  - intros (c & Hc & _). inversion Hc.
  - intros (c & Hc & _). inversion Hc.
  - intros (c & Hc & Hfree).
    destruct (cellFree l _ _) eqn:E; [eauto|].
    apply IH. exists c. split; [|done].
    apply elem_of_cons in Hc as [->|Hc]; [|done].
    apply cellFree_spec in Hfree. congruence.
Qed.

Lemma generateFood_Done (st : State) (rs : list Rand) (st' : State) (rs' : list Rand) :
  generateFood st rs = Done (st', rs') →
  ∃ c, st' = with_food (mkFood (cell_x c) (cell_y c) (foodColor st)) st
       ∧ (c ∉ segments (snakes st)) ∧ c ∈ rounds rs.
Proof.
  unfold generateFood. destruct (sampleFreeCell (snakes st) rs) as [[c rs1]| |] eqn:E;
    simpl; try discriminate.
  intros [= <- <-]. exists c. split; [done|]. by apply sampleFreeCell_Done in E.
Qed.

(** ** The sort and the planner *)

Lemma insertBy_Permutation {A : Type} (cmp : A -> A -> Z) (a : A) (l : list A) :
  insertBy cmp a l ≡ₚ a :: l.
Proof.
  induction l as [|b l IH]; simpl; [done|].
  destruct (cmp a b <=? 0); [done|].
  rewrite IH. apply perm_swap.
Qed.

Lemma sortBy_Permutation {A : Type} (cmp : A -> A -> Z) (l : list A) :
  sortBy cmp l ≡ₚ l.
Proof.
  induction l as [|a l IH]; simpl; [done|].
  by rewrite insertBy_Permutation, IH.
Qed.

(** The first element of the sorted array is the first of the least
    elements of the array. *)
Lemma hd_sortBy {A : Type} (key : A -> Z) (l : list A) :
  l ≠ [] →
  ∃ d before after,
    hd_error (sortBy (fun a b => key a - key b) l) = Some d
    ∧ l = before ++ d :: after
    ∧ (∀ a, a ∈ before → key d < key a)
    ∧ (∀ a, a ∈ after → key d <= key a).
Proof.
  induction l as [|a l IH]; [done|]. intros _.
  destruct l as [|a' l'].
  - exists a, [], []. simpl. repeat split; intros ? Hin; inversion Hin.
  - destruct IH as (d & before & after & Hhd & Hl & Hbefore & Hafter); [done|].
    change (sortBy (fun a b => key a - key b) (a :: a' :: l'))
      with (insertBy (fun a b => key a - key b) a
              (sortBy (fun a b => key a - key b) (a' :: l'))).
    destruct (sortBy (fun a b => key a - key b) (a' :: l')) as [|d0 rest];
      [discriminate|].
    injection Hhd as ->. simpl.
    destruct (key a - key d <=? 0) eqn:E.
    + apply Z.leb_le in E. exists a, [], (a' :: l'). simpl.
      repeat split; [intros ? Hin; inversion Hin|].
      intros c Hc. rewrite Hl in Hc.
      apply elem_of_app in Hc as [Hc|Hc].
      * specialize (Hbefore c Hc). lia.
      * apply elem_of_cons in Hc as [->|Hc]; [lia|].
        specialize (Hafter c Hc). lia.
    + apply Z.leb_gt in E. exists d, (a :: before), after. simpl.
      rewrite Hl. repeat split; [|done].
      intros c Hc. apply elem_of_cons in Hc as [->|Hc]; [lia | auto].
Qed.

Lemma getNextDirection_Some (st : State) (i : nat) (snake : Snake)
    (head : Cell) (rest : list Cell) (d : Cell) :
  body snake = head :: rest →
  getNextDirection st i snake = Done (Some d) →
  d ∈ safeDirections st i snake head.
Proof.
  intros Hb. unfold getNextDirection. rewrite Hb.
  destruct (safeDirections st i snake head) as [|d0 safe] eqn:E; [discriminate|].
  assert (Hperm := sortBy_Permutation
            (fun a b => dist st head a - dist st head b) (d0 :: safe)).
  revert Hperm.
  generalize (sortBy (fun a b => dist st head a - dist st head b) (d0 :: safe)).
  intros [|d1 sorted] Hperm; [discriminate|].
  intros [= ->]. rewrite <- Hperm. left.
Qed.

Lemma getNextDirection_not_TypeError (st : State) (i : nat) (snake : Snake) :
  body snake ≠ [] → getNextDirection st i snake ≠ TypeError.
Proof.
  unfold getNextDirection. destruct (body snake) as [|head rest]; [done|].
  intros _. by destruct (safeDirections st i snake head).
Qed.

(** A safe direction leads to a cell of the grid that is not occupied,
    the snake's own tail cell not counted. *)
Lemma safeDirections_safe (st : State) (i : nat) (snake : Snake) (head d : Cell) :
  d ∈ safeDirections st i snake head →
  let newHead := mkCell (cell_x head + cell_x d) (cell_y head + cell_y d) in
  d ∈ candidates snake
  ∧ 0 <= cell_x newHead < gridWidth ∧ 0 <= cell_y newHead < gridHeight
  ∧ isCellOccupied st (cell_x newHead) (cell_y newHead) (Some i) = false.
Proof.
  unfold safeDirections. rewrite list_elem_of_filter. simpl.
  intros [Hsafe Hin]. split; [done|].
  apply negb_true_iff in Hsafe.
  repeat (apply orb_false_iff in Hsafe as [Hsafe ?]).
  rewrite Z.geb_leb in *.
  rewrite Z.ltb_ge, Z.leb_gt in *. repeat split; try lia. done.
Qed.

(** ** Committing a move *)

Lemma isFood_spec (st : State) (c : Cell) : isFood st c = true ↔ c = foodCell st.
Proof. apply cell_eqb_spec. Qed.

Lemma commitMove_food (i : nat) (h : Cell) (st : State) (rs : list Rand) :
  isFood st h = true →
  commitMove i h st rs = generateFood (updSnake i (unshift h) st) rs.
Proof. unfold commitMove. by intros ->. Qed.

Lemma commitMove_other (i : nat) (h : Cell) (st : State) (rs : list Rand) :
  isFood st h = false →
  commitMove i h st rs = Done (updSnake i pop (updSnake i (unshift h) st), rs).
Proof. unfold commitMove. by intros ->. Qed.

Lemma commitMove_not_TypeError (i : nat) (h : Cell) (st : State) (rs : list Rand) :
  commitMove i h st rs ≠ TypeError.
Proof.
  unfold commitMove, generateFood. destruct (isFood st h); [|done].
  pose proof (sampleFreeCell_not_TypeError (snakes (updSnake i (unshift h) st)) rs).
  by destruct (sampleFreeCell _ rs) as [[c rs1]| |].
Qed.

(** A move to a cell that is free, the mover's tail cell not counted,
    keeps the invariant. *)
Lemma commitMove_Inv (i : nat) (h : Cell) (s : Snake) (st st' : State)
    (rs rs' : list Rand) :
  Inv st → snakes st !! i = Some s →
  isCellOccupied st (cell_x h) (cell_y h) (Some i) = false →
  commitMove i h st rs = Done (st', rs') →
  Inv st'.
Proof.
  intros (Hnd & Hfood & Hbodies) Hs Hfree Hcommit.
  assert (Hh : h ∉ removelast (body s) ++ segments (delete i (snakes st))).
  { rewrite <- (isCellOccupied_ignore st h i s Hs). by rewrite Hfree. }
  assert (Hb : body s ≠ []).
  { rewrite Forall_forall in Hbodies. apply Hbodies.
    by apply list_elem_of_lookup_2 in Hs. }
  rewrite (segments_lookup _ _ _ Hs) in Hnd, Hfood.
  destruct (isFood st h) eqn:Hf.
  - rewrite commitMove_food in Hcommit by done.
    apply generateFood_Done in Hcommit as (c & -> & Hc & _).
    apply isFood_spec in Hf. subst h.
    split; [|split]; simpl.
    + rewrite (segments_alter _ _ _ _ Hs). simpl. by apply NoDup_cons.
    + by destruct c.
    + apply Forall_alter_body; [|done]. intros; by simpl.
  - rewrite commitMove_other in Hcommit by done.
    injection Hcommit as <- <-.
    assert (Hseg : segments (snakes (updSnake i pop (updSnake i (unshift h) st)))
                   ≡ₚ h :: removelast (body s) ++ segments (delete i (snakes st))).
    { simpl. rewrite list_alter_alter_eq.
      rewrite (segments_alter _ _ _ _ Hs).
      change (body ((pop ∘ unshift h) s)) with (removelast (h :: body s)).
      by rewrite removelast_unshift. }
    assert (Hlast : body s = removelast (body s) ++ [List.last (body s) h])
      by (by apply app_removelast_last).
    rewrite Hlast in Hnd, Hfood.
    split; [|split].
    + rewrite Hseg. apply NoDup_cons. split; [done|].
      by apply NoDup_drop_last in Hnd.
    + rewrite Hseg. change (foodCell (updSnake i pop (updSnake i (unshift h) st)))
        with (foodCell st).
      rewrite elem_of_cons. intros [Heq|Hin].
      * symmetry in Heq. apply isFood_spec in Heq. congruence.
      * apply Hfood. rewrite !elem_of_app. rewrite elem_of_app in Hin. tauto.
    + simpl. rewrite list_alter_alter_eq. apply Forall_alter_body; [|done].
      intros s0 Hs0. simpl. by destruct (body s0).
Qed.

Lemma commitMove_frame (i : nat) (h : Cell) (st st' : State) (rs rs' : list Rand) :
  commitMove i h st rs = Done (st', rs') →
  sameControl st st'
  ∧ ∃ f, snakes st' = alter f i (snakes st) ∧ ∀ s, sameIdentity s (f s).
Proof.
  intros Hcommit. destruct (isFood st h) eqn:Hf.
  - rewrite commitMove_food in Hcommit by done.
    apply generateFood_Done in Hcommit as (c & -> & _).
    split; [done|]. by exists (unshift h).
  - rewrite commitMove_other in Hcommit by done.
    injection Hcommit as <- <-. split; [done|].
    exists (pop ∘ unshift h). split; [|done].
    simpl. by rewrite list_alter_alter_eq.
Qed.

(** ** One snake's turn *)

Lemma stepSnake_frame (i : nat) (st st' : State) (m m' : bool) (rs rs' : list Rand) :
  stepSnake i (st, m, rs) = Done (st', m', rs') →
  sameControl st st'
  ∧ ∃ f, snakes st' = alter f i (snakes st) ∧ ∀ s, sameIdentity s (f s).
Proof.
  assert (Hid : sameControl st st ∧
    ∃ f, snakes st = alter f i (snakes st) ∧ ∀ s, sameIdentity s (f s)).
  { split; [done|]. exists (fun s => s). split; [|done].
    symmetry. by apply list_alter_id. }
  unfold stepSnake.
  destruct (snakes st !! i) as [snake|]; [|by intros [= <- <- <-]].
  destruct (body snake) as [|head rest]; [done|].
  destruct (userControlled snake).
  - split_if;
      [by intros [= <- <- <-]|].
    destruct (commitMove i _ st rs) as [[st1 rs1]| |] eqn:Hc; simpl; try done.
    intros [= <- <- <-]. by apply commitMove_frame in Hc.
  - destruct (getNextDirection st i snake) as [[d|]| |]; simpl; try done;
      [|by intros [= <- <- <-]].
    destruct (commitMove i _ st rs) as [[st1 rs1]| |] eqn:Hc; simpl; try done.
    intros [= <- <- <-].
    apply commitMove_frame in Hc as (Hctl & f & Hf & Hfid).
    split; [done|]. exists (with_direction d ∘ f). split.
    + simpl. by rewrite Hf, list_alter_alter_eq.
    + intros s. apply (Hfid s).
Qed.

Lemma stepSnake_Inv (i : nat) (st st' : State) (m m' : bool) (rs rs' : list Rand) :
  Inv st → stepSnake i (st, m, rs) = Done (st', m', rs') → Inv st'.
Proof.
  intros HInv. unfold stepSnake.
  destruct (snakes st !! i) as [snake|] eqn:Hs; [|by intros [= <- <- <-]].
  destruct (body snake) as [|head rest] eqn:Hb; [done|].
  destruct (userControlled snake).
  - split_if_eqn Hblocked;
      [by intros [= <- <- <-]|].
    repeat (apply orb_false_iff in Hblocked as [Hblocked ?]).
    destruct (commitMove i _ st rs) as [[st1 rs1]| |] eqn:Hc; simpl; try done.
    intros [= <- <- <-]. by eapply commitMove_Inv in Hc.
  - destruct (getNextDirection st i snake) as [[d|]| |] eqn:Hd; simpl; try done;
      [|by intros [= <- <- <-]].
    apply (getNextDirection_Some _ _ _ _ _ _ Hb), safeDirections_safe in Hd
      as (_ & _ & _ & Hfree).
    destruct (commitMove i _ st rs) as [[st1 rs1]| |] eqn:Hc; simpl; try done.
    intros [= <- <- <-].
    eapply commitMove_Inv in Hc as (Hnd & Hfood & Hbodies); [|done..].
    split; [|split]; simpl.
    + by rewrite segments_alter_body.
    + change (foodCell (updSnake i (with_direction d) st1)) with (foodCell st1).
      by rewrite segments_alter_body.
    + by apply Forall_alter_body.
Qed.

(** With the invariant, a turn ends or is still drawing food cells; it
    does not throw. *)
Lemma stepSnake_not_TypeError (i : nat) (st : State) (m : bool) (rs : list Rand) :
  Inv st → stepSnake i (st, m, rs) ≠ TypeError.
Proof.
  intros (_ & _ & Hbodies). unfold stepSnake.
  destruct (snakes st !! i) as [snake|] eqn:Hs; [|done].
  assert (Hb : body snake ≠ []).
  { rewrite Forall_forall in Hbodies. apply Hbodies.
    by apply list_elem_of_lookup_2 in Hs. }
  destruct (body snake) as [|head rest] eqn:Hbody; [done|].
  destruct (userControlled snake).
  - split_if; [done|].
    pose proof (commitMove_not_TypeError i
      (mkCell (cell_x head + cell_x (direction snake))
              (cell_y head + cell_y (direction snake))) st rs) as Hc.
    simpl. by destruct (commitMove i _ st rs) as [[st1 rs1]| |].
  - assert (Hg : getNextDirection st i snake ≠ TypeError)
      by (apply getNextDirection_not_TypeError; congruence).
    destruct (getNextDirection st i snake) as [[d|]| |]; simpl; try done.
    pose proof (commitMove_not_TypeError i
      (mkCell (cell_x head + cell_x d) (cell_y head + cell_y d)) st rs) as Hc.
    by destruct (commitMove i _ st rs) as [[st1 rs1]| |].
Qed.

(** ** The loop over the snakes *)

Arguments stepSnake : simpl never.
Arguments commitMove : simpl never.
Arguments gameOverCheck : simpl never.

Lemma forSnakes_app (l1 l2 : list nat) (acc : State * bool * list Rand) :
  forSnakes (l1 ++ l2) acc = forSnakes l1 acc ≫= forSnakes l2.
Proof.
  revert acc. induction l1 as [|i l1 IH]; intros acc; simpl; [done|].
  destruct (stepSnake i acc) as [acc'| |]; simpl; [apply IH|done..].
Qed.

Lemma forSnakes_Inv (idxs : list nat) (st st' : State) (m m' : bool)
    (rs rs' : list Rand) :
  Inv st → forSnakes idxs (st, m, rs) = Done (st', m', rs') → Inv st'.
Proof.
  revert st m rs. induction idxs as [|i idxs IH]; intros st m rs HInv; simpl.
  - by intros [= <- <- <-].
  - destruct (stepSnake i (st, m, rs)) as [[[st1 m1] rs1]| |] eqn:Hstep;
      simpl; try done.
    apply IH. by eapply stepSnake_Inv.
Qed.

Lemma forSnakes_not_TypeError (idxs : list nat) (st : State) (m : bool)
    (rs : list Rand) :
  Inv st → forSnakes idxs (st, m, rs) ≠ TypeError.
Proof.
  revert st m rs. induction idxs as [|i idxs IH]; intros st m rs HInv; simpl; [done|].
  pose proof (stepSnake_not_TypeError i st m rs HInv) as Hne.
  destruct (stepSnake i (st, m, rs)) as [[[st1 m1] rs1]| |] eqn:Hstep;
    simpl; try done.
  apply IH. by eapply stepSnake_Inv.
Qed.

(** The loop leaves the control fields alone, and of the snakes it
    changes only those whose turn it was. *)
Lemma forSnakes_frame (idxs : list nat) (st st' : State) (m m' : bool)
    (rs rs' : list Rand) :
  forSnakes idxs (st, m, rs) = Done (st', m', rs') →
  sameControl st st'
  ∧ length (snakes st') = length (snakes st)
  ∧ (∀ k, k ∉ idxs → snakes st' !! k = snakes st !! k)
  ∧ (∀ k s, snakes st !! k = Some s →
       ∃ s', snakes st' !! k = Some s' ∧ sameIdentity s s').
Proof.
  revert st m rs. induction idxs as [|i idxs IH]; intros st m rs; simpl.
  - intros [= <- <- <-]. repeat split; eauto. intros k s Hk. by exists s.
  - destruct (stepSnake i (st, m, rs)) as [[[st1 m1] rs1]| |] eqn:Hstep;
      simpl; try done.
    intros Hrest.
    apply stepSnake_frame in Hstep as (Hctl1 & f & Hf & Hfid).
    apply IH in Hrest as (Hctl2 & Hlen & Hother & Hident).
    destruct Hctl1 as (? & ? & ? & ? & ?), Hctl2 as (? & ? & ? & ? & ?).
    split; [unfold sameControl; repeat split; congruence|].
    split; [by rewrite Hlen, Hf, length_alter|]. split.
    + intros k Hk. rewrite not_elem_of_cons in Hk. destruct Hk as [Hki Hk].
      rewrite (Hother k Hk), Hf. by apply list_lookup_alter_ne.
    + intros k s Hk.
      assert (Hk1 : ∃ s1, snakes st1 !! k = Some s1 ∧ sameIdentity s s1).
      { rewrite Hf. destruct (decide (i = k)) as [->|Hne].
        - rewrite list_lookup_alter_eq, Hk. simpl. eauto.
        - rewrite list_lookup_alter_ne by done. by exists s. }
      destruct Hk1 as (s1 & Hs1 & Hid1).
      destruct (Hident k s1 Hs1) as (s' & Hs' & Hid').
      exists s'. split; [done|].
      destruct Hid1 as (? & ? & ?), Hid' as (? & ? & ?).
      unfold sameIdentity. repeat split; congruence.
Qed.

(** ** The game-over test and the whole tick *)

Lemma gameOverCheck_segments (st st' : State) (m : bool) :
  gameOverCheck st m = Done st' →
  snakes st' = snakes st ∧ food st' = food st
  ∧ userControlCheck st' = userControlCheck st
  ∧ userSnakeId st' = userSnakeId st.
Proof.
  unfold gameOverCheck. destruct (userControlCheck st) eqn:E.
  - destruct (findUserSnake st) as [[i u]|]; [|by intros [= <-]].
    destruct (body u) as [|head rest]; [done|].
    destruct (safeMoves st i head); [|by intros [= <-]].
    by destruct (_ >=? _); intros [= <-].
  - by destruct (negb m); intros [= <-].
Qed.

Lemma findUserSnake_Some (st : State) (i : nat) (u : Snake) :
  findUserSnake st = Some (i, u) → snakes st !! i = Some u ∧ userControlled u = true.
Proof.
  unfold findUserSnake. rewrite list_find_Some. tauto.
Qed.

Lemma gameOverCheck_not_TypeError (st : State) (m : bool) :
  Inv st → gameOverCheck st m ≠ TypeError.
Proof.
  intros (_ & _ & Hbodies). unfold gameOverCheck. destruct (userControlCheck st).
  - destruct (findUserSnake st) as [[i u]|] eqn:Hu; [|done].
    apply findUserSnake_Some in Hu as [Hu _].
    assert (Hb : body u ≠ []).
    { rewrite Forall_forall in Hbodies. apply Hbodies.
      by apply list_elem_of_lookup_2 in Hu. }
    destruct (body u) as [|head rest]; [done|].
    destruct (safeMoves st i head); [|done].
    by destruct (_ >=? _).
  - by destruct (negb m).
Qed.

Lemma gameLoop_Inv (st st' : State) (rs rs' : list Rand) :
  Inv st → gameLoop st rs = Done (st', rs') → Inv st'.
Proof.
  intros HInv. unfold gameLoop, moveSnakes.
  destruct (forSnakes _ (st, false, rs)) as [[[st1 m1] rs1]| |] eqn:Hloop;
    simpl; try done.
  apply forSnakes_Inv in Hloop; [|done].
  destruct (gameOverCheck st1 m1) as [st2| |] eqn:Hover; simpl; try done.
  intros [= <- <-].
  apply gameOverCheck_segments in Hover as (Hsn & Hfd & _).
  unfold Inv, foodCell. by rewrite Hsn, Hfd.
Qed.

Lemma gameLoop_not_TypeError (st : State) (rs : list Rand) :
  Inv st → gameLoop st rs ≠ TypeError.
Proof.
  intros HInv. unfold gameLoop, moveSnakes.
  pose proof (forSnakes_not_TypeError (seq 0 (length (snakes st))) st false rs HInv).
  destruct (forSnakes _ (st, false, rs)) as [[[st1 m1] rs1]| |] eqn:Hloop;
    simpl; try done.
  apply forSnakes_Inv in Hloop; [|done].
  pose proof (gameOverCheck_not_TypeError st1 m1 Hloop).
  by destruct (gameOverCheck st1 m1).
Qed.

(** ** The listeners and the start *)

Lemma Inv_updSnake (i : nat) (f : Snake -> Snake) (st : State) :
  (∀ s, body (f s) = body s) → Inv st → Inv (updSnake i f st).
Proof.
  intros Hf (Hnd & Hfood & Hbodies). split; [|split]; simpl.
  - by rewrite segments_alter_body.
  - change (foodCell (updSnake i f st)) with (foodCell st).
    by rewrite segments_alter_body.
  - apply Forall_alter_body; [|done]. intros s. by rewrite Hf.
Qed.

Lemma setDirection_Inv (newDir : Cell) (st : State) :
  Inv st → Inv (setDirection newDir st).
Proof.
  intros HInv. unfold setDirection.
  destruct (findUserSnake st) as [[i u]|]; [|done].
  split_if; [done|].
  by apply Inv_updSnake.
Qed.

Lemma keydown_Inv (key : string) (st : State) : Inv st → Inv (keydown key st).
Proof.
  intros HInv. unfold keydown.
  destruct (findUserSnake st); [|done].
  destruct (keyDirection key); [|done].
  by apply setDirection_Inv.
Qed.

Lemma change_Inv (checked : bool) (st : State) : Inv st → Inv (change checked st).
Proof.
  intros HInv. unfold change. destruct checked.
  - destruct (findDesignated _) as [[i s]|].
    + by apply (Inv_updSnake i (with_userControlled true) (with_check true st)).
    + destruct (snakes (with_check true st)) as [|first l]; [done|].
      by apply (Inv_updSnake 0 (with_userControlled true) (with_check true st)).
  - destruct (findDesignated _) as [[i s]|]; [|done].
    by apply (Inv_updSnake i (with_userControlled false) (with_check false st)).
Qed.

Lemma segments_snoc (l : list Snake) (s : Snake) :
  segments (l ++ [s]) = segments l ++ body s.
Proof. unfold segments. by rewrite bind_app, bind_singleton. Qed.

(** A round of the creation loop appends one snake of one block, on a
    cell no earlier snake is on. *)
Lemma createSnake_Done (i : nat) (st st' : State) (rs rs' : list Rand) :
  createSnake i st rs = Done (st', rs') →
  ∃ s pos, snakes st' = snakes st ++ [s] ∧ body s = [pos]
           ∧ (pos ∉ segments (snakes st))
           ∧ food st' = food st.
Proof.
  unfold createSnake.
  destruct (match presetColors !! i with
            | Some c => Done (c, rs)
            | None => randomColor (snakes st) rs
            end) as [[c rs1]| |]; simpl; try done.
  destruct (bool_decide (i = 0%nat) && userControlCheck st); simpl.
  - destruct (sampleFreeCell (snakes st) rs1) as [[pos rs2]| |] eqn:Hpos;
      simpl; try done.
    destruct rs2 as [|r rs3]; [done|]. intros [= <- <-].
    apply sampleFreeCell_Done in Hpos as [Hpos _]. eauto 10.
  - destruct (sampleFreeCell (snakes st) rs1) as [[pos rs2]| |] eqn:Hpos;
      simpl; try done.
    destruct rs2 as [|r rs3]; [done|]. intros [= <- <-].
    apply sampleFreeCell_Done in Hpos as [Hpos _]. eauto 10.
Qed.

Lemma createSnakes_loop_Done (n i : nat) (st st' : State) (rs rs' : list Rand) :
  createSnakes_loop n i st rs = Done (st', rs') →
  NoDup (segments (snakes st)) → Forall (fun s => body s ≠ []) (snakes st) →
  NoDup (segments (snakes st')) ∧ Forall (fun s => body s ≠ []) (snakes st')
  ∧ length (snakes st') = (length (snakes st) + n)%nat
  ∧ food st' = food st.
Proof.
  revert i st rs. induction n as [|n IH]; intros i st rs; simpl.
  - intros [= <- <-]. intros. repeat split; auto.
  - destruct (createSnake i st rs) as [[st1 rs1]| |] eqn:Hone; simpl; try done.
    intros Hrest Hnd Hbodies.
    apply createSnake_Done in Hone as (s & pos & Hsn & Hb & Hpos & Hfd).
    apply IH in Hrest as (Hnd' & Hbodies' & Hlen & Hfd').
    + repeat split; auto; [|congruence].
      rewrite Hlen, Hsn, length_app. simpl. lia.
    + rewrite Hsn, segments_snoc, Hb. apply NoDup_app.
      split; [done|]. split; [|apply NoDup_singleton].
      intros c Hc Hin. apply list_elem_of_singleton in Hin. by subst c.
    + rewrite Hsn. apply Forall_app. split; [done|].
      constructor; [|done]. by rewrite Hb.
Qed.

Lemma startClick_Inv (parsed : option Z) (st st' : State) (rs rs' : list Rand) :
  startClick parsed st rs = Done (st', rs') → Inv st'.
Proof.
  unfold startClick, createSnakes.
  destruct (createSnakes_loop _ 0 _ rs) as [[st1 rs1]| |] eqn:Hcreate;
    simpl; try done.
  apply createSnakes_loop_Done in Hcreate as (Hnd & Hbodies & _);
    [|apply NoDup_nil_2|constructor].
  destruct (generateFood _ rs1) as [[st2 rs2]| |] eqn:Hfood; simpl; try done.
  intros [= <- <-].
  apply generateFood_Done in Hfood as (c & -> & Hc & _).
  split; [done|]. split; [|done]. by destruct c.
Qed.

(** Every state at rest has the invariant. *)
Lemma reachable_Inv (st : State) : reachable st → Inv st.
Proof.
  induction 1 as [checked|st ev rs st' rs' Hreach IH Hev].
  - split; [apply NoDup_nil_2|]. split; [inversion 1|constructor].
  - destruct ev as [|key|checked|parsed]; simpl in Hev.
    + destruct (gameInterval st).
      * by eapply gameLoop_Inv.
      * by injection Hev as <- <-.
    + injection Hev as <- <-. by apply keydown_Inv.
    + injection Hev as <- <-. by apply change_Inv.
    + by eapply startClick_Inv.
Qed.

(** ** The claims on the layout *)

Lemma segments_elem_of (l : list Snake) (j : nat) (s : Snake) (b : nat) (c : Cell) :
  l !! j = Some s → body s !! b = Some c → c ∈ segments l.
Proof.
  intros Hs Hc. unfold segments. apply list_elem_of_bind. exists s.
  split; [exact (list_elem_of_lookup_2 _ _ _ Hc) | exact (list_elem_of_lookup_2 _ _ _ Hs)].
Qed.

Lemma NoDup_segments_distinct (l : list Snake) :
  NoDup (segments l) → distinctSegments l.
Proof.
  induction l as [|s l IH]; intros Hnd i j a b si sj c Hi Hj Ha Hb; [done|].
  change (segments (s :: l)) with (body s ++ segments l) in Hnd.
  apply NoDup_app in Hnd as (Hs & Hdis & Hl).
  destruct i as [|i], j as [|j]; simpl in Hi, Hj.
  - injection Hi as <-. injection Hj as <-. split; [done|].
    exact (NoDup_lookup _ _ _ _ Hs Ha Hb).
  - injection Hi as <-. exfalso. apply (Hdis c).
    + exact (list_elem_of_lookup_2 _ _ _ Ha).
    + exact (segments_elem_of _ _ _ _ _ Hj Hb).
  - injection Hj as <-. exfalso. apply (Hdis c).
    + exact (list_elem_of_lookup_2 _ _ _ Hb).
    + exact (segments_elem_of _ _ _ _ _ Hi Ha).
  - destruct (IH Hl i j a b si sj c); auto.
Qed.

(** C1.  In every state at rest of the simulation, and so after the
    moves of every tick are committed, no two body segments, of one
    snake or of two, are on the same cell. *)
Theorem segments_never_overlap (st : State) :
  reachable st →
  distinctSegments (snakes st)
  ∧ ∀ rs st' rs', gameLoop st rs = Done (st', rs') → distinctSegments (snakes st').
Proof.
  intros Hreach. apply reachable_Inv in Hreach. split.
  - apply NoDup_segments_distinct, Hreach.
  - intros rs st' rs' Htick. apply NoDup_segments_distinct.
    by apply (gameLoop_Inv st st' rs rs' Hreach).
Qed.

(** C10.  In every state at rest, at the start and at the end of every
    tick, no body segment of any snake is on the food cell: the
    occupancy test finds the food cell free. *)
Theorem food_never_under_a_snake (st : State) :
  reachable st →
  isCellOccupied st (food_x (food st)) (food_y (food st)) None = false
  ∧ (∀ i s, snakes st !! i = Some s → foodCell st ∉ body s)
  ∧ ∀ rs st' rs', gameLoop st rs = Done (st', rs') →
      ∀ i s, snakes st' !! i = Some s → foodCell st' ∉ body s.
Proof.
  intros Hreach. apply reachable_Inv in Hreach.
  assert (Hfree : ∀ st0, Inv st0 →
            ∀ i s, snakes st0 !! i = Some s → foodCell st0 ∉ body s).
  { intros st0 (_ & Hfood & _) i s Hs Hin. apply Hfood.
    apply list_elem_of_bind. exists s. split; [done|].
    by eapply list_elem_of_lookup_2. }
  split; [|split].
  - destruct Hreach as (_ & Hfood & _).
    apply not_true_is_false. intros Hocc. apply Hfood.
    by apply (isCellOccupied_all st (foodCell st)).
  - by apply Hfree.
  - intros rs st' rs' Htick. apply Hfree.
    by apply (gameLoop_Inv st st' rs rs' Hreach).
Qed.

(** C3.  Committing a move of a snake to a prospective head puts that
    head in front of the body.  When the head is not on the food cell
    the last segment is removed, the length of the body stays and
    nothing is drawn; when it is on the food cell no segment is removed,
    the body is longer by exactly one, and the food goes to a cell that
    no segment of any snake is on, as soon as the random supply draws
    such a cell.  No other snake is touched. *)
Theorem commit_prepends_and_grows_on_food (i : nat) (h : Cell) (s : Snake)
    (st : State) (rs : list Rand) :
  snakes st !! i = Some s →
  (h ≠ foodCell st →
     ∃ st', commitMove i h st rs = Done (st', rs)
       ∧ snakes st' !! i = Some (with_body (removelast (h :: body s)) s)
       ∧ (body s ≠ [] → removelast (h :: body s) = h :: removelast (body s))
       ∧ length (removelast (h :: body s)) = length (body s)
       ∧ food st' = food st
       ∧ ∀ k, k ≠ i → snakes st' !! k = snakes st !! k)
  ∧ (h = foodCell st →
     (∀ st' rs', commitMove i h st rs = Done (st', rs') →
        snakes st' !! i = Some (with_body (h :: body s) s)
        ∧ length (h :: body s) = S (length (body s))
        ∧ (foodCell st' ∉ segments (snakes st'))
        ∧ ∀ k, k ≠ i → snakes st' !! k = snakes st !! k)
     ∧ ((∃ c, c ∈ rounds rs ∧ c ≠ h ∧ c ∉ segments (snakes st)) →
        ∃ st' rs', commitMove i h st rs = Done (st', rs'))).
Proof.
  intros Hs. split.
  - intros Hne.
    assert (Hf : isFood st h = false).
    { apply not_true_is_false. by rewrite isFood_spec. }
    eexists. split; [by apply commitMove_other|]. simpl.
    rewrite list_alter_alter_eq. repeat split.
    + by rewrite list_lookup_alter_eq, Hs.
    + apply removelast_unshift.
    + apply length_removelast_unshift.
    + intros k Hk. by apply list_lookup_alter_ne.
  - intros Hh.
    assert (Hf : isFood st h = true) by (by apply isFood_spec).
    rewrite (commitMove_food i h st rs Hf). split.
    + intros st' rs' Hgen.
      apply generateFood_Done in Hgen as (c & -> & Hc & _). simpl.
      repeat split.
      * by rewrite list_lookup_alter_eq, Hs.
      * by destruct c.
      * intros k Hk. by apply list_lookup_alter_ne.
    + intros (c & Hround & Hch & Hc). unfold generateFood.
      destruct (sampleFreeCell_total (snakes (updSnake i (unshift h) st)) rs)
        as (c' & rs' & ->); [|simpl; eauto].
      exists c. split; [done|]. simpl.
      rewrite (segments_alter _ _ _ _ Hs). rewrite (segments_lookup _ _ _ Hs) in Hc.
      simpl. rewrite not_elem_of_cons. done.
Qed.

(** ** The claim on the planner *)

Lemma dist_manhattan (st : State) (head dir : Cell) :
  dist st head dir = manhattan (prospective head dir) (foodCell st).
Proof. reflexivity. Qed.

Lemma isReverse_spec (dir currentDir : Cell) :
  isReverse dir currentDir = true ↔ dir = reverse currentDir.
Proof. apply cell_eqb_spec. Qed.

Lemma candidates_sublist (snake : Snake) :
  candidates snake `sublist_of` possibleDirections.
Proof.
  unfold candidates. destruct (1 <? length (body snake))%nat; [|done].
  apply sublist_filter.
Qed.

(** C4.  When at least one candidate direction of a snake survives the
    filters, the planner returns the survivor whose prospective head is
    nearest to the food in Manhattan distance, and of several nearest
    ones the first in the order (1,0), (-1,0), (0,1), (0,-1) that the
    survivors keep: every survivor before the one returned is strictly
    farther, every one after it is not nearer. *)
Theorem planner_returns_first_nearest (st : State) (i : nat) (snake : Snake)
    (head : Cell) (rest : list Cell) :
  body snake = head :: rest →
  safeDirections st i snake head ≠ [] →
  ∃ d before after,
    getNextDirection st i snake = Done (Some d)
    ∧ safeDirections st i snake head = before ++ d :: after
    ∧ (∀ a, a ∈ before →
         manhattan (prospective head d) (foodCell st)
         < manhattan (prospective head a) (foodCell st))
    ∧ (∀ a, a ∈ after →
         manhattan (prospective head d) (foodCell st)
         <= manhattan (prospective head a) (foodCell st))
    ∧ safeDirections st i snake head
        `sublist_of` [mkCell 1 0; mkCell (-1) 0; mkCell 0 1; mkCell 0 (-1)].
Proof.
  intros Hb Hsafe.
  destruct (hd_sortBy (dist st head) (safeDirections st i snake head) Hsafe)
    as (d & before & after & Hhd & Hl & Hbefore & Hafter).
  exists d, before, after. repeat split; try done.
  - unfold getNextDirection. rewrite Hb.
    destruct (safeDirections st i snake head) as [|d0 safe]; [done|].
    by rewrite Hhd.
  - etrans; [apply sublist_filter | apply candidates_sublist].
Qed.

(** ** The claims on the end of the game *)

Lemma moveSnakes_frame (st st1 : State) (m : bool) (rs rs1 : list Rand) :
  moveSnakes st rs = Done (st1, m, rs1) → sameControl st st1.
Proof. intros H. by apply forSnakes_frame in H as [? _]. Qed.

Lemma gameLoop_unfold (st st1 : State) (m : bool) (rs rs1 : list Rand) :
  moveSnakes st rs = Done (st1, m, rs1) →
  gameLoop st rs = st2 ← gameOverCheck st1 m; Done (st2, rs1).
Proof. intros H. unfold gameLoop. by rewrite H. Qed.

(** The game-over test with the checkbox on and a user-controlled
    snake present. *)
Lemma gameOverCheck_human (st : State) (m : bool) (i : nat) (u : Snake)
    (head : Cell) (rest : list Cell) :
  userControlCheck st = true → findUserSnake st = Some (i, u) →
  body u = head :: rest →
  (safeMoves st i head = [] →
     gameOverCheck st m =
       Done (if userBlockedCounter st + 1 >=? USER_BLOCKED_THRESHOLD
             then with_interval false (with_counter (userBlockedCounter st + 1) st)
             else with_counter (userBlockedCounter st + 1) st))
  ∧ (safeMoves st i head ≠ [] → gameOverCheck st m = Done (with_counter 0 st)).
Proof.
  intros Hcheck Hu Hb. unfold gameOverCheck. rewrite Hcheck, Hu, Hb. split.
  - intros ->. simpl. by destruct (_ >=? _).
  - intros Hsafe. by destruct (safeMoves st i head).
Qed.

(** The game-over test draws no random number. *)
Lemma gameOverCheck_not_Pending (st : State) (m : bool) :
  gameOverCheck st m ≠ Pending.
Proof.
  unfold gameOverCheck. destruct (userControlCheck st).
  - destruct (findUserSnake st) as [[i u]|]; [|done].
    destruct (body u) as [|head rest]; [done|].
    destruct (safeMoves st i head); [|done].
    by destruct (_ >=? _).
  - by destruct (negb m).
Qed.

Lemma gameOverCheck_counter (st st' : State) (m : bool) :
  gameOverCheck st m = Done st' →
  0 <= userBlockedCounter st →
  (gameInterval st = true → userBlockedCounter st < 3) →
  0 <= userBlockedCounter st'
  ∧ (gameInterval st' = true → userBlockedCounter st' < 3).
Proof.
  unfold gameOverCheck. destruct (userControlCheck st).
  - destruct (findUserSnake st) as [[i u]|]; [|by intros [= <-]].
    destruct (body u) as [|head rest]; [done|].
    destruct (safeMoves st i head).
    + simpl. unfold USER_BLOCKED_THRESHOLD.
      destruct (userBlockedCounter st + 1 >=? 3) eqn:E; intros [= <-]; simpl;
        intros; split; try lia; try done.
    + intros [= <-]. simpl. intros. split; lia.
  - destruct (negb m); intros [= <-]; simpl; intros; split; auto; done.
Qed.

Lemma createSnake_control (i : nat) (st st' : State) (rs rs' : list Rand) :
  createSnake i st rs = Done (st', rs') →
  userBlockedCounter st' = userBlockedCounter st
  ∧ userControlCheck st' = userControlCheck st
  ∧ gameInterval st' = gameInterval st.
Proof.
  unfold createSnake.
  destruct (match presetColors !! i with
            | Some c => Done (c, rs)
            | None => randomColor (snakes st) rs
            end) as [[c rs1]| |]; simpl; try done.
  destruct (bool_decide (i = 0%nat) && userControlCheck st); simpl.
  - destruct (sampleFreeCell (snakes st) rs1) as [[pos rs2]| |]; simpl; try done.
    destruct rs2 as [|r rs3]; [done|]. by intros [= <- <-].
  - destruct (sampleFreeCell (snakes st) rs1) as [[pos rs2]| |]; simpl; try done.
    destruct rs2 as [|r rs3]; [done|]. by intros [= <- <-].
Qed.

Lemma createSnakes_loop_control (n i : nat) (st st' : State) (rs rs' : list Rand) :
  createSnakes_loop n i st rs = Done (st', rs') →
  userBlockedCounter st' = userBlockedCounter st
  ∧ userControlCheck st' = userControlCheck st
  ∧ gameInterval st' = gameInterval st.
Proof.
  revert i st rs. induction n as [|n IH]; intros i st rs; simpl.
  - by intros [= <- <-].
  - destruct (createSnake i st rs) as [[st1 rs1]| |] eqn:Hone; simpl; try done.
    intros Hrest. apply createSnake_control in Hone as (? & ? & ?).
    apply IH in Hrest as (? & ? & ?). repeat split; congruence.
Qed.

Lemma startClick_control (parsed : option Z) (st st' : State) (rs rs' : list Rand) :
  startClick parsed st rs = Done (st', rs') →
  userBlockedCounter st' = 0 ∧ gameInterval st' = true
  ∧ userControlCheck st' = userControlCheck st.
Proof.
  unfold startClick, createSnakes.
  destruct (createSnakes_loop _ 0 _ rs) as [[st1 rs1]| |] eqn:Hcreate;
    simpl; try done.
  apply createSnakes_loop_control in Hcreate as (Hc & Hk & _). simpl in Hc, Hk.
  destruct (generateFood _ rs1) as [[st2 rs2]| |] eqn:Hfood; simpl; try done.
  intros [= <- <-].
  apply generateFood_Done in Hfood as (c & -> & _). by simpl.
Qed.

(** While the timer runs the counter is 0, 1 or 2. *)
Lemma reachable_counter (st : State) :
  reachable st →
  0 <= userBlockedCounter st
  ∧ (gameInterval st = true → userBlockedCounter st < 3).
Proof.
  induction 1 as [checked|st ev rs st' rs' Hreach IH Hev].
  - simpl. split; [lia|done].
  - destruct ev as [|key|checked|parsed]; simpl in Hev.
    + destruct (gameInterval st) eqn:Hrun;
        [|injection Hev as <- <-; split; [apply IH | by rewrite Hrun]].
      unfold gameLoop in Hev.
      destruct (moveSnakes st rs) as [[[st1 m1] rs1]| |] eqn:Hmove;
        simpl in Hev; try done.
      destruct (gameOverCheck st1 m1) as [st2| |] eqn:Hover; simpl in Hev; try done.
      injection Hev as <- <-.
      apply moveSnakes_frame in Hmove as (_ & Hi & _ & Hc & _).
      apply (gameOverCheck_counter _ _ _ Hover); rewrite ?Hc, ?Hi; tauto.
    + injection Hev as <- <-.
      assert (Hsame : userBlockedCounter (keydown key st) = userBlockedCounter st
                      ∧ gameInterval (keydown key st) = gameInterval st).
      { unfold keydown, setDirection.
        destruct (findUserSnake st) as [[i u]|]; [|done].
        destruct (keyDirection key); [|done].
        by split_if. }
      destruct Hsame as [-> ->]. done.
    + injection Hev as <- <-.
      assert (Hsame : userBlockedCounter (change checked st) = userBlockedCounter st
                      ∧ gameInterval (change checked st) = gameInterval st).
      { unfold change. destruct checked.
        - destruct (findDesignated _) as [[i s]|]; [done|].
          by destruct (snakes (with_check true st)).
        - by destruct (findDesignated _) as [[i s]|]. }
      destruct Hsame as [-> ->]. done.
    + apply startClick_control in Hev as (-> & _). split; [lia|]. intros; lia.
Qed.

Lemma stepSnake_flag (i : nat) (st st' : State) (m m' : bool) (rs rs' : list Rand) :
  stepSnake i (st, m, rs) = Done (st', m', rs') →
  m' = true ∨ (m' = m ∧ st' = st ∧ rs' = rs).
Proof.
  unfold stepSnake.
  destruct (snakes st !! i) as [snake|]; [|intros [= <- <- <-]; auto].
  destruct (body snake) as [|head rest]; [done|].
  destruct (userControlled snake).
  - split_if;
      [intros [= <- <- <-]; auto|].
    destruct (commitMove i _ st rs) as [[st1 rs1]| |]; simpl; try done.
    intros [= <- <- <-]. auto.
  - destruct (getNextDirection st i snake) as [[d|]| |]; simpl; try done;
      [|intros [= <- <- <-]; auto].
    destruct (commitMove i _ st rs) as [[st1 rs1]| |]; simpl; try done.
    intros [= <- <- <-]. auto.
Qed.

(** When the loop ends with [anyMoved] still false, it has changed
    nothing. *)
Lemma forSnakes_unmoved (idxs : list nat) (st st' : State) (rs rs' : list Rand) :
  forSnakes idxs (st, false, rs) = Done (st', false, rs') → st' = st ∧ rs' = rs.
Proof.
  assert (Htrue : ∀ idxs st rs st' m' rs',
            forSnakes idxs (st, true, rs) = Done (st', m', rs') → m' = true).
  { clear. intros idxs. induction idxs as [|i idxs IH]; intros st rs st' m' rs'; simpl.
    - by intros [= <- <- <-].
    - destruct (stepSnake i (st, true, rs)) as [[[st1 m1] rs1]| |] eqn:Hstep;
        simpl; try done.
      apply stepSnake_flag in Hstep as [->|(-> & _)]; apply IH. }
  revert st rs. induction idxs as [|i idxs IH]; intros st rs; simpl.
  - by intros [= <- <-].
  - destruct (stepSnake i (st, false, rs)) as [[[st1 m1] rs1]| |] eqn:Hstep;
      simpl; try done.
    apply stepSnake_flag in Hstep as [->|(-> & -> & ->)].
    + intros H. by apply Htrue in H.
    + apply IH.
Qed.

Lemma tick_human (st mid st' : State) (rs rs' : list Rand) :
  userControlCheck st = true → tick st rs mid st' rs' →
  userControlCheck st' = true ∧ snakes st' = snakes mid
  ∧ (testFindsNone mid →
       userBlockedCounter st' = userBlockedCounter st + 1
       ∧ gameInterval st' = (if userBlockedCounter st + 1 >=? 3 then false
                             else gameInterval st))
  ∧ (testFindsSome mid →
       userBlockedCounter st' = 0 ∧ gameInterval st' = gameInterval st).
Proof.
  intros Hcheck (m & Hmove & Hloop).
  rewrite (gameLoop_unfold _ _ _ _ _ Hmove) in Hloop.
  destruct (gameOverCheck mid m) as [st2| |] eqn:Hover; simpl in Hloop; try done.
  injection Hloop as <-.
  apply moveSnakes_frame in Hmove as (_ & Hi & _ & Hc & Hk).
  rewrite Hcheck in Hk.
  pose proof (gameOverCheck_segments _ _ _ Hover) as (Hsn & _ & Hk' & _).
  split; [congruence|]. split; [done|]. split.
  - intros (i & u & head & rest & Hu & Hb & Hsafe).
    destruct (gameOverCheck_human mid m i u head rest Hk Hu Hb) as [Hblocked _].
    rewrite (Hblocked Hsafe) in Hover. injection Hover as <-.
    unfold USER_BLOCKED_THRESHOLD. rewrite Hc.
    by destruct (userBlockedCounter st + 1 >=? 3); simpl; rewrite ?Hi.
  - intros (i & u & head & rest & Hu & Hb & Hsafe).
    destruct (gameOverCheck_human mid m i u head rest Hk Hu Hb) as [_ Hfree].
    rewrite (Hfree Hsafe) in Hover. injection Hover as <-. by simpl.
Qed.

(** ** The layout the occupancy test reads *)

Lemma moveSnakes_split (st : State) (rs : list Rand) (i : nat) :
  (i < length (snakes st))%nat →
  moveSnakes st rs
  = acc ← forSnakes (seq 0 i) (st, false, rs);
    acc' ← stepSnake i acc;
    forSnakes (seq (S i) (length (snakes st) - S i)) acc'.
Proof.
  intros Hi. unfold moveSnakes.
  replace (length (snakes st)) with (i + S (length (snakes st) - S i))%nat at 1 by lia.
  rewrite seq_app, forSnakes_app. simpl.
  by destruct (forSnakes (seq 0 i) (st, false, rs)).
Qed.

(** C2, as the code has it.  The occupancy test that validates the move
    of the snake of index [i] in a tick is evaluated on the state the
    turns of the snakes before it have left: those snakes are already
    where the tick will leave them, and only the snakes from [i] on are
    still where they rested at the end of the previous tick. *)
Theorem occupancy_reads_layout_in_progress (st mid : State) (anyMoved : bool)
    (rs rs' : list Rand) (i : nat) :
  (i < length (snakes st))%nat →
  forSnakes (seq 0 i) (st, false, rs) = Done (mid, anyMoved, rs') →
  moveSnakes st rs
  = (acc' ← stepSnake i (mid, anyMoved, rs');
     forSnakes (seq (S i) (length (snakes st) - S i)) acc')
  ∧ drop i (snakes mid) = drop i (snakes st)
  ∧ ∀ st' m' rs'', moveSnakes st rs = Done (st', m', rs'') →
      take i (snakes st') = take i (snakes mid).
Proof.
  intros Hi Hbefore.
  pose proof (moveSnakes_split st rs i Hi) as Hsplit.
  rewrite Hbefore in Hsplit. simpl in Hsplit.
  split; [exact Hsplit|]. split.
  - apply forSnakes_frame in Hbefore as (_ & _ & Hother & _).
    apply list_eq. intros k. rewrite !lookup_drop. apply Hother.
    rewrite elem_of_seq. lia.
  - intros st' m' rs'' Hall. rewrite Hall in Hsplit. symmetry in Hsplit.
    destruct (stepSnake i (mid, anyMoved, rs')) as [[[st1 m1] rs1]| |] eqn:Hstep;
      simpl in Hsplit; try done.
    apply stepSnake_frame in Hstep as (_ & f & Hf & _).
    apply forSnakes_frame in Hsplit as (_ & _ & Hother & _).
    apply list_eq. intros k. rewrite !lookup_take.
    case_decide as Hk; [|done].
    rewrite Hother by (rewrite elem_of_seq; lia).
    rewrite Hf. apply list_lookup_alter_ne. lia.
Qed.

(** ** The number of snakes a start creates *)

Lemma generateFood_snakes (st st' : State) (rs rs' : list Rand) :
  generateFood st rs = Done (st', rs') → snakes st' = snakes st.
Proof. intros H. by apply generateFood_Done in H as (c & -> & _). Qed.

(** A start that comes to its end has created as many snakes as the
    count says, one for a count that is 0 or not a number. *)
Lemma startClick_count (parsed : option Z) (st st' : State) (rs rs' : list Rand) :
  startClick parsed st rs = Done (st', rs') →
  length (snakes st')
  = Z.to_nat (match parsed with
              | Some n => if n =? 0 then 1 else n
              | None => 1
              end).
Proof.
  unfold startClick, createSnakes.
  destruct (createSnakes_loop _ 0 _ rs) as [[st1 rs1]| |] eqn:Hcreate;
    simpl; try done.
  apply createSnakes_loop_Done in Hcreate as (_ & _ & Hlen & _);
    [|apply NoDup_nil_2|constructor].
  destruct (generateFood _ rs1) as [[st2 rs2]| |] eqn:Hfood; simpl; try done.
  intros [= <- <-]. apply generateFood_snakes in Hfood. simpl in *.
  by rewrite Hfood.
Qed.

(** C8, what the code does.  A negative count is kept by
    [parseInt(...) || 1], the creation loop does not run once, and the
    start that follows leaves the board without any snake. *)
Theorem negative_count_creates_no_snake (n : Z) (st : State) (rs : list Rand) :
  n < 0 →
  createSnakes n st rs = Done (with_counter 0 (with_snakes [] st), rs)
  ∧ ∀ st' rs', startClick (Some n) st rs = Done (st', rs') → snakes st' = [].
Proof.
  intros Hn.
  assert (Hzero : Z.to_nat n = 0%nat) by lia.
  split.
  - unfold createSnakes. by rewrite Hzero.
  - intros st' rs' Hstart. apply startClick_count in Hstart.
    destruct (n =? 0) eqn:E; [apply Z.eqb_eq in E; lia|].
    rewrite Hzero in Hstart. by apply nil_length_inv.
Qed.

(** ** Directions and the user-controlled snake across events *)

Lemma commitMove_direction (i : nat) (h : Cell) (st st' : State) (rs rs' : list Rand) :
  commitMove i h st rs = Done (st', rs') →
  ∃ f, snakes st' = alter f i (snakes st) ∧ ∀ s, direction (f s) = direction s.
Proof.
  intros Hcommit. destruct (isFood st h) eqn:Hf.
  - rewrite commitMove_food in Hcommit by done.
    apply generateFood_Done in Hcommit as (c & -> & _). by exists (unshift h).
  - rewrite commitMove_other in Hcommit by done.
    injection Hcommit as <- <-. exists (pop ∘ unshift h). split; [|done].
    simpl. by rewrite list_alter_alter_eq.
Qed.

(** After its turn a snake has the direction it had, or, when it is
    autonomous, one of its candidates. *)
Lemma stepSnake_direction (i : nat) (st st' : State) (m m' : bool)
    (rs rs' : list Rand) (s : Snake) :
  stepSnake i (st, m, rs) = Done (st', m', rs') → snakes st !! i = Some s →
  ∃ s', snakes st' !! i = Some s'
        ∧ (direction s' = direction s ∨ direction s' ∈ candidates s).
Proof.
  intros Hstep Hs. unfold stepSnake in Hstep. rewrite Hs in Hstep.
  destruct (body s) as [|head rest] eqn:Hb; [done|].
  destruct (userControlled s).
  - match type of Hstep with context [if ?b then _ else _] => destruct b end.
    + injection Hstep as <- <- <-. eauto.
    + destruct (commitMove i _ st rs) as [[st1 rs1]| |] eqn:Hc; simpl in Hstep;
        try done.
      injection Hstep as <- <- <-.
      apply commitMove_direction in Hc as (f & -> & Hdir).
      exists (f s). rewrite list_lookup_alter_eq, Hs. split; [done|]. by left.
  - destruct (getNextDirection st i s) as [[d|]| |] eqn:Hd; simpl in Hstep; try done.
    + apply (getNextDirection_Some _ _ _ _ _ _ Hb), safeDirections_safe in Hd
        as (Hin & _).
      destruct (commitMove i _ st rs) as [[st1 rs1]| |] eqn:Hc; simpl in Hstep;
        try done.
      injection Hstep as <- <- <-.
      apply commitMove_direction in Hc as (f & Hf & Hdir).
      exists (with_direction d (f s)). simpl.
      rewrite Hf, list_alter_alter_eq, list_lookup_alter_eq, Hs. split; [done|].
      by right.
    + injection Hstep as <- <- <-. eauto.
Qed.

Lemma forSnakes_direction (idxs : list nat) (st st' : State) (m m' : bool)
    (rs rs' : list Rand) :
  NoDup idxs → forSnakes idxs (st, m, rs) = Done (st', m', rs') →
  ∀ k s, snakes st !! k = Some s →
    ∃ s', snakes st' !! k = Some s'
          ∧ (direction s' = direction s ∨ direction s' ∈ candidates s).
Proof.
  intros Hnd. revert st m rs.
  induction Hnd as [|i idxs Hi Hnd IH]; intros st m rs; simpl.
  - intros [= <- <- <-] k s Hk. eauto.
  - destruct (stepSnake i (st, m, rs)) as [[[st1 m1] rs1]| |] eqn:Hstep;
      simpl; try done.
    intros Hrest k s Hk. destruct (decide (k = i)) as [->|Hne].
    + destruct (stepSnake_direction _ _ _ _ _ _ _ _ Hstep Hk) as (s1 & Hs1 & Hdir).
      apply forSnakes_frame in Hrest as (_ & _ & Hother & _).
      exists s1. by rewrite (Hother i Hi).
    + apply stepSnake_frame in Hstep as (_ & f & Hf & _).
      apply (IH _ _ _ Hrest). rewrite Hf. by rewrite list_lookup_alter_ne.
Qed.

(** What a tick leaves of every snake. *)
Lemma gameLoop_snakes (st st' : State) (rs rs' : list Rand) :
  gameLoop st rs = Done (st', rs') →
  length (snakes st') = length (snakes st)
  ∧ userSnakeId st' = userSnakeId st ∧ userControlCheck st' = userControlCheck st
  ∧ ∀ k s, snakes st !! k = Some s →
      ∃ s', snakes st' !! k = Some s' ∧ sameIdentity s s'
            ∧ (direction s' = direction s ∨ direction s' ∈ candidates s).
Proof.
  unfold gameLoop.
  destruct (moveSnakes st rs) as [[[st1 m1] rs1]| |] eqn:Hmove; simpl; try done.
  destruct (gameOverCheck st1 m1) as [st2| |] eqn:Hover; simpl; try done.
  intros [= <- <-].
  apply gameOverCheck_segments in Hover as (-> & _ & -> & ->).
  unfold moveSnakes in Hmove.
  pose proof (forSnakes_direction _ _ _ _ _ _ _ (NoDup_seq 0 _) Hmove) as Hdir.
  apply forSnakes_frame in Hmove as ((_ & _ & Hu & _ & Hk) & Hlen & _ & Hident).
  repeat split; try done.
  intros k s Hs. destruct (Hident k s Hs) as (s' & Hs' & Hid).
  destruct (Hdir k s Hs) as (s'' & Hs'' & Hd).
  exists s'. rewrite Hs' in Hs''. injection Hs'' as <-. done.
Qed.

Lemma reverse_not_self (d : Cell) : d ∈ possibleDirections → d ≠ reverse d.
Proof.
  unfold possibleDirections. rewrite !elem_of_cons, elem_of_nil.
  intros [->|[->|[->|[->|[]]]]]; discriminate.
Qed.

Lemma keyDirection_unit (key : string) (d : Cell) :
  keyDirection key = Some d → d ∈ possibleDirections.
Proof.
  unfold keyDirection, possibleDirections.
  repeat split_if;
    intros [= <-]; rewrite !elem_of_cons; auto 10.
Qed.

Lemma randomFloor_bounds (n : Z) (r : Rand) : 0 < n → 0 <= randomFloor n r < n.
Proof.
  intros Hn. unfold randomFloor.
  assert (Hmod : (rnum r mod Npos (rden r) < Npos (rden r))%N)
    by (by apply N.mod_lt).
  assert (Ha : 0 <= Z.of_N (rnum r mod Npos (rden r)) < Zpos (rden r)).
  { split; [apply N2Z.is_nonneg | exact (proj1 (N2Z.inj_lt _ _) Hmod)]. }
  revert Ha. generalize (Z.of_N (rnum r mod Npos (rden r))). intros a Ha.
  split.
  - apply Z.div_pos; lia.
  - apply Z.div_lt_upper_bound; nia.
Qed.

Lemma randomDirection_unit (r : Rand) :
  nth (Z.to_nat (randomFloor 4 r)) possibleDirections (mkCell 0 0)
  ∈ possibleDirections.
Proof.
  pose proof (randomFloor_bounds 4 r ltac:(lia)) as Hb.
  assert (Hk : (Z.to_nat (randomFloor 4 r) < 4)%nat) by lia.
  destruct (Z.to_nat (randomFloor 4 r)) as [|[|[|[|k]]]]; simpl;
    unfold possibleDirections; rewrite !elem_of_cons; auto 10. lia.
Qed.

Lemma modeInv_tick (st st' : State) (rs rs' : list Rand) :
  modeInv st → gameLoop st rs = Done (st', rs') → modeInv st'.
Proof.
  intros (Hdir & Hid & Hflag & Hfirst & Huid) Htick.
  apply gameLoop_snakes in Htick as (Hlen & Hu & Hk & Hall).
  assert (Hback : ∀ k s', snakes st' !! k = Some s' →
            ∃ s, snakes st !! k = Some s ∧ sameIdentity s s'
                 ∧ (direction s' = direction s ∨ direction s' ∈ candidates s)).
  { intros k s' Hs'.
    destruct (lookup_lt_is_Some_2 (snakes st) k) as [s Hs].
    { rewrite <- Hlen. by eapply lookup_lt_Some. }
    destruct (Hall k s Hs) as (s'' & Hs'' & Hrel).
    exists s. split; [done|]. congruence. }
  rewrite Forall_lookup in Hdir.
  split; [|split; [|split; [|split]]].
  - apply Forall_lookup. intros k s' Hs'.
    destruct (Hback k s' Hs') as (s & Hs & _ & [->|Hin]); [by eapply Hdir|].
    by eapply elem_of_sublist; [|apply candidates_sublist].
  - intros k s' Hs'. destruct (Hback k s' Hs') as (s & Hs & (-> & _) & _). eauto.
  - intros k s' Hs' Hf. destruct (Hback k s' Hs') as (s & Hs & (_ & _ & Hfl) & _).
    rewrite Hu, Hk. apply (Hflag k s Hs). congruence.
  - rewrite Hk. intros Hcheck s' Hs'.
    destruct (Hback _ s' Hs') as (s & Hs & (_ & _ & ->) & _). eauto.
  - rewrite Hu. done.
Qed.

(** An update of one snake that touches neither its identifier nor its
    flag, and leaves it a unit direction. *)
Lemma modeInv_updSnake (i : nat) (f : Snake -> Snake) (st : State) :
  (∀ s, snakeId (f s) = snakeId s ∧ userControlled (f s) = userControlled s) →
  (∀ s, direction s ∈ possibleDirections → direction (f s) ∈ possibleDirections) →
  modeInv st → modeInv (updSnake i f st).
Proof.
  intros Hsame Hunit (Hdir & Hid & Hflag & Hfirst & Huid).
  assert (Hback : ∀ k s', alter f i (snakes st) !! k = Some s' →
            ∃ s, snakes st !! k = Some s ∧ snakeId s' = snakeId s
                 ∧ userControlled s' = userControlled s).
  { intros k s'. rewrite list_lookup_alter. case_decide as Hk.
    - subst k. destruct (snakes st !! i) as [s|]; simpl; [|done]. intros [= <-].
      exists s. split; [done|]. apply Hsame.
    - intros Hs'. by exists s'. }
  split; [|split; [|split; [|split]]]; simpl.
  - apply Forall_alter; [done|]. intros s _. apply Hunit.
  - intros k s' Hs'. destruct (Hback k s' Hs') as (s & Hs & -> & _). eauto.
  - intros k s' Hs' Hf. destruct (Hback k s' Hs') as (s & Hs & _ & Hfl).
    apply (Hflag k s Hs). congruence.
  - intros Hcheck s' Hs'. destruct (Hback _ s' Hs') as (s & Hs & _ & ->). eauto.
  - done.
Qed.

Lemma modeInv_keydown (key : string) (st : State) : modeInv st → modeInv (keydown key st).
Proof.
  intros Hmode. unfold keydown.
  destruct (findUserSnake st) as [[i u]|]; [|done].
  destruct (keyDirection key) as [d|] eqn:Hkey; [|done].
  unfold setDirection. destruct (findUserSnake st) as [[j v]|]; [|done].
  split_if; [done|].
  apply modeInv_updSnake; [done| |done]. intros s _. by eapply keyDirection_unit.
Qed.

Lemma findDesignated_first (st : State) (i : nat) (s : Snake) :
  modeInv st → findDesignated st = Some (i, s) →
  i = 0%nat ∧ userSnakeId st = Some 0%nat.
Proof.
  intros (_ & Hid & _ & _ & Huid) Hfind. unfold findDesignated in Hfind.
  apply list_find_Some in Hfind as (Hs & Heq & _).
  specialize (Hid i s Hs). symmetry in Heq.
  specialize (Huid _ Heq). split; [congruence|]. by rewrite Heq, Huid.
Qed.

(** Setting or clearing the flag of the first snake, with the checkbox
    and the designated identifier in step. *)
Lemma modeInv_flag_first (b : bool) (st : State) :
  modeInv st →
  modeInv (with_userSnakeId (Some 0%nat)
             (updSnake 0 (with_userControlled b) (with_check b st))).
Proof.
  intros (Hdir & Hid & Hflag & Hfirst & Huid).
  assert (Hback : ∀ k s', alter (with_userControlled b) 0%nat (snakes st) !! k = Some s' →
            ∃ s, snakes st !! k = Some s ∧ snakeId s' = snakeId s
                 ∧ direction s' = direction s
                 ∧ userControlled s' = (if decide (k = 0%nat) then b else userControlled s)).
  { intros k s'. rewrite list_lookup_alter. destruct k as [|k]; simpl.
    - destruct (snakes st !! 0%nat) as [s|]; simpl; [|done]. intros [= <-]. by exists s.
    - intros Hs'. by exists s'. }
  rewrite Forall_lookup in Hdir.
  split; [|split; [|split; [|split]]]; simpl.
  - apply Forall_lookup. intros k s' Hs'.
    destruct (Hback k s' Hs') as (s & Hs & _ & -> & _). by eapply Hdir.
  - intros k s' Hs'. destruct (Hback k s' Hs') as (s & Hs & -> & _). eauto.
  - intros k s' Hs' Hf. destruct (Hback k s' Hs') as (s & Hs & _ & _ & Hfl).
    destruct k as [|k]; simpl in Hfl; [split; [done|]; split; [done|]; congruence|].
    destruct (Hflag _ s Hs) as [Hk _]; [congruence|lia].
  - intros -> s' Hs'. by destruct (Hback _ s' Hs') as (s & Hs & _ & _ & ->).
  - by intros u [= <-].
Qed.

Lemma modeInv_change (checked : bool) (st : State) :
  modeInv st → modeInv (change checked st).
Proof.
  intros Hmode.
  assert (Hsame : ∀ b i s, findDesignated (with_check b st) = Some (i, s) →
            i = 0%nat ∧ userSnakeId st = Some 0%nat).
  { intros b i s. apply (findDesignated_first st i s Hmode). }
  unfold change. destruct checked.
  - destruct (findDesignated (with_check true st)) as [[i s]|] eqn:Hfind.
    + destruct (Hsame _ _ _ Hfind) as [-> Huid].
      pose proof (modeInv_flag_first true st Hmode) as H.
      unfold with_userSnakeId in H. simpl in H. rewrite <- Huid in H.
      exact H.
    + destruct (snakes (with_check true st)) as [|first l] eqn:Hl.
      * destruct Hmode as (Hdir & Hid & Hflag & Hfirst & Huid). simpl in Hl.
        split; [done|]. split; [done|]. split; [|split; [|done]].
        -- intros k s Hs. simpl in Hs. by rewrite Hl in Hs.
        -- intros _ s Hs. simpl in Hs. by rewrite Hl in Hs.
      * assert (Hzero : snakeId first = 0%nat).
        { destruct Hmode as (_ & Hid & _). apply (Hid 0%nat first).
          simpl in Hl. by rewrite Hl. }
        rewrite Hzero. by apply modeInv_flag_first.
  - destruct (findDesignated (with_check false st)) as [[i s]|] eqn:Hfind.
    + destruct (Hsame _ _ _ Hfind) as [-> Huid].
      pose proof (modeInv_flag_first false st Hmode) as H.
      unfold with_userSnakeId in H. simpl in H. rewrite <- Huid in H.
      exact H.
    + destruct Hmode as (Hdir & Hid & Hflag & Hfirst & Huid).
      split; [done|]. split; [done|]. split; [|split; [done|done]].
      intros k s Hs Hf. exfalso.
      destruct (Hflag k s Hs Hf) as (-> & Hu & _).
      unfold findDesignated in Hfind. apply list_find_None in Hfind.
      rewrite Forall_lookup in Hfind. apply (Hfind 0%nat s Hs). simpl.
      by rewrite (Hid _ _ Hs), Hu.
Qed.

(** What a round of the creation loop appends. *)
Lemma createSnake_spec (i : nat) (st st' : State) (rs rs' : list Rand) :
  createSnake i st rs = Done (st', rs') →
  ∃ c pos d,
    d ∈ possibleDirections
    ∧ snakes st'
      = snakes st ++ [mkSnake i c [pos] d (bool_decide (i = 0%nat) && userControlCheck st)]
    ∧ userSnakeId st'
      = (if bool_decide (i = 0%nat) && userControlCheck st then Some i
         else userSnakeId st)
    ∧ userControlCheck st' = userControlCheck st.
Proof.
  unfold createSnake.
  destruct (match presetColors !! i with
            | Some c => Done (c, rs)
            | None => randomColor (snakes st) rs
            end) as [[c rs1]| |]; simpl; try done.
  destruct (bool_decide (i = 0%nat) && userControlCheck st); simpl.
  - destruct (sampleFreeCell (snakes st) rs1) as [[pos rs2]| |]; simpl; try done.
    destruct rs2 as [|r rs3]; [done|]. intros [= <- <-].
    exists c, pos, (nth (Z.to_nat (randomFloor 4 r)) possibleDirections (mkCell 0 0)).
    split; [apply randomDirection_unit|done].
  - destruct (sampleFreeCell (snakes st) rs1) as [[pos rs2]| |]; simpl; try done.
    destruct rs2 as [|r rs3]; [done|]. intros [= <- <-].
    exists c, pos, (nth (Z.to_nat (randomFloor 4 r)) possibleDirections (mkCell 0 0)).
    split; [apply randomDirection_unit|done].
Qed.

Lemma createSnake_modeInv (i : nat) (st st' : State) (rs rs' : list Rand) :
  createSnake i st rs = Done (st', rs') →
  length (snakes st) = i → modeInv st →
  length (snakes st') = S i ∧ modeInv st'.
Proof.
  intros Hone Hlen (Hdir & Hid & Hflag & Hfirst & Huid).
  apply createSnake_spec in Hone as (c & pos & d & Hd & Hsn & Hu & Hk).
  split; [rewrite Hsn, length_app; simpl; lia|].
  assert (Hback : ∀ k s', snakes st' !! k = Some s' →
            snakes st !! k = Some s'
            ∨ (k = i ∧ s' = mkSnake i c [pos] d
                               (bool_decide (i = 0%nat) && userControlCheck st))).
  { intros k s'. rewrite Hsn. intros Hs'.
    apply lookup_app_Some in Hs' as [Hs'|[Hge Hs']]; [by left|right].
    apply list_lookup_singleton_Some in Hs' as [Hz <-]. split; [lia|done]. }
  split; [|split; [|split; [|split]]].
  - rewrite Hsn. apply Forall_app. split; [done|]. by constructor.
  - intros k s' Hs'. destruct (Hback k s' Hs') as [Hs|[-> ->]]; eauto.
  - intros k s' Hs' Hf. rewrite Hu, Hk.
    destruct (Hback k s' Hs') as [Hs|[-> ->]].
    + destruct (Hflag k s' Hs Hf) as (-> & Hu0 & Hk0). rewrite Hu0.
      split; [done|]. split; [|done].
      destruct (bool_decide (i = 0%nat)) eqn:Hi; simpl; [|done].
      apply bool_decide_eq_true in Hi. rewrite Hi. by destruct (userControlCheck st).
    + simpl in Hf. rewrite Hf. apply andb_true_iff in Hf as [Hi Hc].
      apply bool_decide_eq_true in Hi. by rewrite Hi.
  - rewrite Hk. intros Hcheck s' Hs'.
    destruct (Hback _ s' Hs') as [Hs|[<- ->]]; [by eapply Hfirst|].
    simpl. by rewrite Hcheck.
  - rewrite Hu. intros u.
    destruct (bool_decide (i = 0%nat)) eqn:Hi; simpl; [|apply Huid].
    apply bool_decide_eq_true in Hi. rewrite Hi.
    destruct (userControlCheck st); [by intros [= <-] | apply Huid].
Qed.

Lemma createSnakes_loop_modeInv (n i : nat) (st st' : State) (rs rs' : list Rand) :
  createSnakes_loop n i st rs = Done (st', rs') →
  length (snakes st) = i → modeInv st → modeInv st'.
Proof.
  revert i st rs. induction n as [|n IH]; intros i st rs; simpl.
  - by intros [= <- <-].
  - destruct (createSnake i st rs) as [[st1 rs1]| |] eqn:Hone; simpl; try done.
    intros Hrest Hlen Hmode.
    destruct (createSnake_modeInv _ _ _ _ _ Hone Hlen Hmode) as [Hlen1 Hmode1].
    by apply (IH _ _ _ Hrest Hlen1).
Qed.

Lemma startClick_modeInv (parsed : option Z) (st st' : State) (rs rs' : list Rand) :
  modeInv st → startClick parsed st rs = Done (st', rs') → modeInv st'.
Proof.
  intros (_ & _ & _ & _ & Huid). unfold startClick, createSnakes.
  destruct (createSnakes_loop _ 0 _ rs) as [[st1 rs1]| |] eqn:Hcreate;
    simpl; try done.
  apply createSnakes_loop_modeInv in Hcreate; [|done|].
  - destruct (generateFood _ rs1) as [[st2 rs2]| |] eqn:Hfood; simpl; try done.
    intros [= <- <-].
    by apply generateFood_Done in Hfood as (c & -> & _).
  - split; [constructor|]. by repeat split.
Qed.

(** Every state at rest has unit directions and its user-controlled
    snake in step with the checkbox. *)
Lemma reachable_modeInv (st : State) : reachable st → modeInv st.
Proof.
  induction 1 as [checked|st ev rs st' rs' Hreach IH Hev].
  - split; [constructor|]. by repeat split.
  - destruct ev as [|key|checked|parsed]; simpl in Hev.
    + destruct (gameInterval st).
      * by eapply modeInv_tick.
      * by injection Hev as <- <-.
    + injection Hev as <- <-. by apply modeInv_keydown.
    + injection Hev as <- <-. by apply modeInv_change.
    + by eapply startClick_modeInv.
Qed.

(** A tick from a state at rest does not throw. *)
Lemma reachable_tick_does_not_throw (st : State) (rs : list Rand) :
  reachable st → gameLoop st rs ≠ TypeError.
Proof. intros Hreach. by apply gameLoop_not_TypeError, reachable_Inv. Qed.

(** In a state at rest with a snake on the board, the checkbox is on
    exactly when a snake is user-controlled. *)
Lemma reachable_human_mode (st : State) :
  reachable st → snakes st ≠ [] →
  (userControlCheck st = true ↔ is_Some (findUserSnake st)).
Proof.
  intros Hreach Hne.
  destruct (reachable_modeInv st Hreach) as (_ & _ & Hflag & Hfirst & _).
  split.
  - intros Hcheck.
    assert (Hf0 : ∃ first, snakes st !! 0%nat = Some first).
    { destruct (snakes st) as [|first l]; [done|]. by exists first. }
    destruct Hf0 as [first Hf0]. unfold findUserSnake.
    apply (list_find_elem_of _ _ first).
    + exact (list_elem_of_lookup_2 _ _ _ Hf0).
    + by apply Hfirst.
  - intros [[i u] Hu]. apply findUserSnake_Some in Hu as [Hs Hf].
    by destruct (Hflag i u Hs Hf) as (_ & _ & ?).
Qed.

(** ** The claims that rest on the mode invariant *)

Lemma reverse_not_candidate (snake : Snake) :
  (1 < length (body snake))%nat → reverse (direction snake) ∉ candidates snake.
Proof.
  intros Hlen. unfold candidates.
  rewrite (proj2 (Nat.ltb_lt _ _) Hlen), list_elem_of_filter.
  intros [Hrev _]. apply negb_true_iff in Hrev.
  assert (isReverse (reverse (direction snake)) (direction snake) = true)
    by (by apply isReverse_spec).
  congruence.
Qed.

Lemma keydown_cases (key : string) (st : State) :
  keydown key st = st
  ∨ ∃ i u d, findUserSnake st = Some (i, u) ∧ keyDirection key = Some d
             ∧ ((1 < length (body u))%nat → d ≠ reverse (direction u))
             ∧ keydown key st = updSnake i (with_direction d) st.
Proof.
  unfold keydown. destruct (findUserSnake st) as [[i u]|] eqn:Hu; [|by left].
  destruct (keyDirection key) as [d|] eqn:Hkey; [|by left].
  unfold setDirection. rewrite Hu.
  destruct ((1 <? length (body u))%nat
            && (cell_x (direction u) =? - cell_x d)
            && (cell_y (direction u) =? - cell_y d)) eqn:E; [by left|].
  right. exists i, u, d. repeat split; try done.
  intros Hlen ->. apply (proj2 (Nat.ltb_lt _ _)) in Hlen. rewrite Hlen in E.
  simpl in E. by rewrite !Z.opp_involutive, !Z.eqb_refl in E.
Qed.

Lemma change_directions (checked : bool) (st : State) (k : nat) (s' : Snake) :
  snakes (change checked st) !! k = Some s' →
  ∃ s, snakes st !! k = Some s ∧ direction s' = direction s.
Proof.
  assert (Halter : ∀ b i, alter (with_userControlled b) i (snakes st) !! k = Some s' →
            ∃ s, snakes st !! k = Some s ∧ direction s' = direction s).
  { intros b i. rewrite list_lookup_alter. case_decide as Hk.
    - subst k. destruct (snakes st !! i) as [s|]; simpl; [|done].
      intros [= <-]. by exists s.
    - intros Hs'. by exists s'. }
  unfold change. destruct checked.
  - destruct (findDesignated (with_check true st)) as [[i s]|]; [apply Halter|].
    destruct (snakes (with_check true st)) as [|first l] eqn:Hl; [|apply Halter].
    intros Hs'. by exists s'.
  - destruct (findDesignated (with_check false st)) as [[i s]|]; [apply Halter|].
    intros Hs'. by exists s'.
Qed.

(** No event between two states at rest, a new start apart, turns a
    snake of more than one block to the reverse of its direction. *)
Lemma direction_never_reversed (st st' : State) (ev : Event) (rs rs' : list Rand)
    (k : nat) (s s' : Snake) :
  reachable st → (∀ parsed, ev ≠ Start parsed) →
  handle ev st rs = Done (st', rs') →
  snakes st !! k = Some s → snakes st' !! k = Some s' →
  (1 < length (body s))%nat →
  direction s' ≠ reverse (direction s).
Proof.
  intros Hreach Hev Hhandle Hs Hs' Hlen.
  destruct (reachable_modeInv st Hreach) as (Hdir & _).
  rewrite Forall_lookup in Hdir.
  assert (Hsame : direction s' = direction s → direction s' ≠ reverse (direction s)).
  { intros ->. apply reverse_not_self. by eapply Hdir. }
  destruct ev as [|key|checked|parsed]; simpl in Hhandle.
  - destruct (gameInterval st).
    + apply gameLoop_snakes in Hhandle as (_ & _ & _ & Hall).
      destruct (Hall k s Hs) as (s'' & Hs'' & _ & Hd).
      rewrite Hs' in Hs''. injection Hs'' as <-.
      destruct Hd as [Hd|Hd]; [by apply Hsame|].
      intros Heq. rewrite Heq in Hd. by apply reverse_not_candidate in Hd.
    + injection Hhandle as <- <-. apply Hsame. congruence.
  - injection Hhandle as <- <-.
    destruct (keydown_cases key st) as [Hkd|(i & u & d & Hu & Hkey & Hrev & Hkd)];
      rewrite Hkd in Hs'; [apply Hsame; congruence|].
    simpl in Hs'. rewrite list_lookup_alter in Hs'. case_decide as Hk.
    + subst k. rewrite Hs in Hs'. injection Hs' as <-. simpl.
      apply findUserSnake_Some in Hu as [Hu _]. rewrite Hs in Hu.
      injection Hu as <-. by apply Hrev.
    + apply Hsame. congruence.
  - injection Hhandle as <- <-.
    apply change_directions in Hs' as (s0 & Hs0 & Hd). apply Hsame. congruence.
  - by destruct (Hev parsed).
Qed.

(** C7.  A snake of more than one block is never turned to the exact
    reverse of its direction: no tick, key or checkbox event does it in
    any state at rest; the planner does not return the reverse (it is
    not among the candidates), and a key for the reverse leaves the
    state as it is, any other key setting the direction.  A snake of a
    single block is not restricted: all four directions are candidates,
    and every key sets its direction. *)
Theorem no_reversal_beyond_one_block (st : State) (i : nat) (snake : Snake)
    (key : string) (newDir : Cell) :
  ((1 < length (body snake))%nat →
     (reverse (direction snake) ∉ candidates snake)
     ∧ (∀ d, getNextDirection st i snake = Done (Some d) →
          d ≠ reverse (direction snake))
     ∧ (findUserSnake st = Some (i, snake) → keyDirection key = Some newDir →
          (newDir = reverse (direction snake) → keydown key st = st)
          ∧ (newDir ≠ reverse (direction snake) →
               keydown key st = updSnake i (with_direction newDir) st))
     ∧ (reachable st → snakes st !! i = Some snake →
          ∀ ev rs st' rs' snake',
            (∀ parsed, ev ≠ Start parsed) →
            handle ev st rs = Done (st', rs') → snakes st' !! i = Some snake' →
            direction snake' ≠ reverse (direction snake)))
  ∧ ((length (body snake) <= 1)%nat →
     candidates snake = possibleDirections
     ∧ (findUserSnake st = Some (i, snake) → keyDirection key = Some newDir →
          keydown key st = updSnake i (with_direction newDir) st)).
Proof.
  assert (Hkey : findUserSnake st = Some (i, snake) → keyDirection key = Some newDir →
                 keydown key st = setDirection newDir st).
  { intros Hu Hk. unfold keydown. by rewrite Hu, Hk. }
  split.
  - intros Hlen.
    assert (Hlenb : (1 <? length (body snake))%nat = true) by (by apply Nat.ltb_lt).
    pose proof (reverse_not_candidate snake Hlen) as Hcand.
    split; [done|]. split; [|split].
    + intros d Hd ->.
      destruct (body snake) as [|head rest] eqn:Hb; [simpl in Hlen; lia|].
      apply (getNextDirection_Some _ _ _ _ _ _ Hb), safeDirections_safe in Hd
        as (Hin & _). done.
    + intros Hu Hk. rewrite (Hkey Hu Hk).
      unfold setDirection. rewrite Hu, Hlenb. simpl. split.
      * intros ->. simpl. by rewrite !Z.opp_involutive, !Z.eqb_refl.
      * intros Hne.
        destruct ((cell_x (direction snake) =? - cell_x newDir)
                  && (cell_y (direction snake) =? - cell_y newDir)) eqn:E; [|done].
        exfalso. apply Hne. apply andb_true_iff in E as [Ex Ey].
        apply Z.eqb_eq in Ex, Ey. destruct newDir as [nx ny]. unfold reverse.
        simpl in *. f_equal; lia.
    + intros Hreach Hs ev rs st' rs' snake' Hev Hhandle Hs'.
      by eapply direction_never_reversed.
  - intros Hlen.
    assert (Hlenb : (1 <? length (body snake))%nat = false) by (apply Nat.ltb_ge; lia).
    split.
    + unfold candidates. by rewrite Hlenb.
    + intros Hu Hk. rewrite (Hkey Hu Hk).
      unfold setDirection. by rewrite Hu, Hlenb.
Qed.

(** ** Further properties: the occupancy test, the food loop, the planner *)

Lemma elem_of_segments_delete (l : list Snake) (i : nat) (c : Cell) :
  c ∈ segments (delete i l)
  ↔ ∃ j sj, j ≠ i ∧ l !! j = Some sj ∧ c ∈ body sj.
Proof.
  unfold segments. rewrite list_elem_of_bind. split.
  - intros (sj & Hc & Hsj). apply list_elem_of_lookup in Hsj as [j Hj].
    rewrite list_lookup_delete in Hj. case_decide.
    + exists j, sj. split; [lia|done].
    + exists (S j), sj. split; [lia|done].
  - intros (j & sj & Hne & Hj & Hc). exists sj. split; [done|].
    apply list_elem_of_lookup. destruct (decide (j < i)%nat) as [Hlt|Hge].
    + exists j. by rewrite list_lookup_delete_lt.
    + destruct j as [|j]; [lia|]. exists j.
      rewrite list_lookup_delete_ge by lia. done.
Qed.

(** X1.  [isCellOccupied] without a snake to ignore answers whether any
    segment of any snake is on the cell.  With the snake of index [i]
    to ignore it leaves out exactly the last segment of that snake: the
    other segments of the snake and all segments of the other snakes
    count.  So it never reports a cell that the plain test finds free,
    and naming a snake that is not in the array changes nothing. *)
Theorem occupancy_counts_all_but_own_tail (st : State) (x y : Z) (i : nat) (s : Snake) :
  snakes st !! i = Some s →
  (isCellOccupied st x y (Some i) = true
   ↔ mkCell x y ∈ removelast (body s)
     ∨ ∃ j sj, j ≠ i ∧ snakes st !! j = Some sj ∧ mkCell x y ∈ body sj)
  ∧ (isCellOccupied st x y None = true
     ↔ ∃ j sj, snakes st !! j = Some sj ∧ mkCell x y ∈ body sj)
  ∧ (isCellOccupied st x y (Some i) = true → isCellOccupied st x y None = true)
  ∧ (∀ k, (length (snakes st) <= k)%nat →
       isCellOccupied st x y (Some k) = isCellOccupied st x y None).
Proof.
  intros Hs.
  assert (Hall : isCellOccupied st x y None = true
                 ↔ ∃ j sj, snakes st !! j = Some sj ∧ mkCell x y ∈ body sj).
  { rewrite (isCellOccupied_all st (mkCell x y)). unfold segments.
    rewrite list_elem_of_bind. split.
    - intros (sj & Hc & Hsj). apply list_elem_of_lookup in Hsj as [j Hj]. eauto.
    - intros (j & sj & Hj & Hc). exists sj. split; [done|].
      exact (list_elem_of_lookup_2 _ _ _ Hj). }
  assert (Hign : isCellOccupied st x y (Some i) = true
                 ↔ mkCell x y ∈ removelast (body s)
                   ∨ ∃ j sj, j ≠ i ∧ snakes st !! j = Some sj ∧ mkCell x y ∈ body sj).
  { rewrite (isCellOccupied_ignore st (mkCell x y) i s Hs), elem_of_app.
    by rewrite elem_of_segments_delete. }
  split; [done|]. split; [done|]. split.
  - rewrite Hign, Hall. intros [Hin|(j & sj & _ & Hj & Hc)]; [|eauto].
    exists i, s. split; [done|].
    destruct (body s) as [|c0 b] eqn:Hb; [inversion Hin|].
    rewrite (app_removelast_last c0 (l := c0 :: b)) by done.
    apply elem_of_app. by left.
  - intros k Hk. unfold isCellOccupied.
    destruct (scanSnakes x y None 0 (snakes st)) eqn:E.
    + apply scanSnakes_plain in E; [|done].
      apply scanSnakes_plain; [|done]. intros j Hj [= ->]. lia.
    + apply not_true_iff_false. apply not_true_iff_false in E.
      intros Hk'. apply E. apply scanSnakes_plain; [done|].
      apply scanSnakes_plain in Hk'; [done|]. intros j Hj [= ->]. lia.
Qed.

Lemma sampleFreeCell_first (l : list Snake) (rs : list Rand) (c : Cell)
    (rs' : list Rand) :
  sampleFreeCell l rs = Done (c, rs')
  ↔ ∃ k, rounds rs !! k = Some c ∧ (c ∉ segments l)
         ∧ (∀ j c', (j < k)%nat → rounds rs !! j = Some c' → c' ∈ segments l)
         ∧ rs' = drop (2 * S k) rs.
Proof.
  induction rs as [| |rx ry rs IH] using pairs_ind.
  - simpl. split; [done|]. by intros (k & Hk & _).
  - simpl. split; [done|]. by intros (k & Hk & _).
  - set (c0 := mkCell (randomFloor gridWidth rx) (randomFloor gridHeight ry)).
    assert (Hdrop : ∀ k, drop (2 * S (S k)) (rx :: ry :: rs) = drop (2 * S k) rs).
    { intros k. replace (2 * S (S k))%nat with (S (S (2 * S k))) by lia. done. }
    assert (Hs : sampleFreeCell l (rx :: ry :: rs)
                 = if cellFree l (cell_x c0) (cell_y c0) then Done (c0, rs)
                   else sampleFreeCell l rs) by reflexivity.
    assert (Hr : rounds (rx :: ry :: rs) = c0 :: rounds rs) by reflexivity.
    rewrite Hs, Hr. clear Hs Hr.
    destruct (cellFree l (cell_x c0) (cell_y c0)) eqn:E.
    + apply (cellFree_spec l (cell_x c0) (cell_y c0)) in E. split.
      * intros [= <- <-]. exists 0%nat. split; [done|]. split; [done|].
        split; [intros; lia|done].
      * intros (k & Hk & Hfree & Hbefore & Hrs). destruct k as [|k].
        -- injection Hk as <-. by rewrite Hrs.
        -- exfalso. apply E. apply (Hbefore 0%nat); [lia|done].
    + apply not_true_iff_false in E.
      rewrite (cellFree_spec l (cell_x c0) (cell_y c0)) in E.
      assert (Hocc : c0 ∈ segments l) by (by destruct (decide (c0 ∈ segments l))).
      rewrite IH. split.
      * intros (k & Hk & Hfree & Hbefore & Hrs). exists (S k).
        split; [done|]. split; [done|]. split; [|by rewrite Hdrop].
        intros [|j] c' Hj Hc'.
        -- by injection Hc' as <-.
        -- apply (Hbefore j); [lia|done].
      * intros (k & Hk & Hfree & Hbefore & Hrs). destruct k as [|k].
        -- injection Hk as <-. done.
        -- exists k. split; [done|]. split; [done|].
           split; [|by rewrite <- Hdrop].
           intros j c' Hj Hc'. apply (Hbefore (S j)); [lia|done].
Qed.

Lemma sampleFreeCell_Pending (l : list Snake) (rs : list Rand) :
  sampleFreeCell l rs = Pending ↔ ∀ c, c ∈ rounds rs → c ∈ segments l.
Proof.
  induction rs as [| |rx ry rs IH] using pairs_ind; simpl.
  - split; [|done]. intros _ c Hc. inversion Hc.
  - split; [|done]. intros _ c Hc. inversion Hc.
  - destruct (cellFree l _ _) eqn:E.
    + apply cellFree_spec in E. split; [done|]. intros Hall. exfalso.
      apply E, Hall. left.
    + apply not_true_iff_false in E. rewrite cellFree_spec in E. rewrite IH. split.
      * intros Hall c Hc. apply elem_of_cons in Hc as [->|Hc]; [|by apply Hall].
        by destruct (decide (mkCell (randomFloor gridWidth rx)
                                    (randomFloor gridHeight ry) ∈ segments l)).
      * intros Hall c Hc. apply Hall. by right.
Qed.

(** X2.  [generateFood] puts the food on the first cell drawn that no
    segment is on, in the stored food colour, using up the random
    numbers up to that draw and leaving the snakes as they are.  It is
    still looping when every cell drawn so far was occupied, and it
    never throws. *)
Theorem generateFood_takes_first_free_draw (st : State) (rs : list Rand) :
  (∀ st' rs',
     generateFood st rs = Done (st', rs')
     ↔ ∃ k c, rounds rs !! k = Some c ∧ (c ∉ segments (snakes st))
              ∧ (∀ j c', (j < k)%nat → rounds rs !! j = Some c' →
                   c' ∈ segments (snakes st))
              ∧ rs' = drop (2 * S k) rs
              ∧ st' = with_food (mkFood (cell_x c) (cell_y c) (foodColor st)) st)
  ∧ (generateFood st rs = Pending
     ↔ ∀ c, c ∈ rounds rs → c ∈ segments (snakes st))
  ∧ generateFood st rs ≠ TypeError.
Proof.
  split; [|split].
  - intros st' rs'. unfold generateFood.
    destruct (sampleFreeCell (snakes st) rs) as [[c rs1]| |] eqn:E; simpl.
    + apply sampleFreeCell_first in E as (k & Hk & Hfree & Hbefore & ->). split.
      * intros [= <- <-]. by exists k, c.
      * intros (k' & c' & Hk' & Hfree' & Hbefore' & -> & ->).
        assert (k' = k) as ->.
        { destruct (Nat.lt_trichotomy k' k) as [Hlt|[Heq|Hgt]]; [|done|].
          - destruct Hfree'. by apply (Hbefore k').
          - destruct Hfree. by apply (Hbefore' k). }
        rewrite Hk in Hk'. by injection Hk' as <-.
    + split; [done|].
      intros (k & c & Hk & Hfree & Hbefore & -> & ->).
      pose proof (sampleFreeCell_not_TypeError (snakes st) rs). done.
    + split; [done|].
      intros (k & c & Hk & Hfree & Hbefore & -> & ->).
      destruct Hfree. apply (proj1 (sampleFreeCell_Pending _ _) E).
      exact (list_elem_of_lookup_2 _ _ _ Hk).
  - rewrite <- sampleFreeCell_Pending. unfold generateFood.
    by destruct (sampleFreeCell (snakes st) rs) as [[c rs1]| |].
  - unfold generateFood.
    pose proof (sampleFreeCell_not_TypeError (snakes st) rs).
    by destruct (sampleFreeCell (snakes st) rs) as [[c rs1]| |].
Qed.

Lemma filter_nil_iff {A : Type} (P : A → Prop) `{!∀ x, Decision (P x)} (l : list A) :
  filter P l = [] ↔ ∀ x, x ∈ l → ¬ P x.
Proof.
  induction l as [|a l IH].
  - split; [|done]. intros _ x Hx. inversion Hx.
  - rewrite filter_cons. destruct (decide (P a)) as [Ha|Ha].
    + split; [done|]. intros Hall. destruct (Hall a); [left|done].
    + rewrite IH. split.
      * intros Hall x Hx. apply elem_of_cons in Hx as [->|Hx]; auto.
      * intros Hall x Hx. apply Hall. by right.
Qed.

(** X3.  The direction [getNextDirection] returns is one of the four
    unit vectors and leads the head to a cell of the board that is not
    occupied, the snake's own tail cell not counted.  It returns [null]
    exactly when no candidate direction does so; it draws no random
    number and, for a snake with a head, does not throw. *)
Theorem planner_moves_are_safe (st : State) (i : nat) (snake : Snake)
    (head : Cell) (rest : list Cell) :
  body snake = head :: rest →
  (∀ d, getNextDirection st i snake = Done (Some d) →
     d ∈ possibleDirections ∧ inGrid (prospective head d)
     ∧ isCellOccupied st (cell_x (prospective head d)) (cell_y (prospective head d))
         (Some i) = false)
  ∧ (getNextDirection st i snake = Done None
     ↔ ∀ d, d ∈ candidates snake →
         ¬ inGrid (prospective head d)
         ∨ isCellOccupied st (cell_x (prospective head d))
             (cell_y (prospective head d)) (Some i) = true)
  ∧ getNextDirection st i snake ≠ Pending
  ∧ getNextDirection st i snake ≠ TypeError.
Proof.
  intros Hb. split; [|split; [|split]].
  - intros d Hd.
    apply (getNextDirection_Some _ _ _ _ _ _ Hb), safeDirections_safe in Hd
      as (Hin & Hx & Hy & Hfree).
    split; [|done].
    by eapply elem_of_sublist; [|apply candidates_sublist].
  - assert (Hnil : getNextDirection st i snake = Done None
                   ↔ safeDirections st i snake head = []).
    { unfold getNextDirection. rewrite Hb.
      destruct (safeDirections st i snake head) as [|d0 safe] eqn:E; [done|].
      split; [|done].
      pose proof (sortBy_Permutation
        (fun a b => dist st head a - dist st head b) (d0 :: safe)) as Hperm.
      apply Permutation_length in Hperm. revert Hperm.
      generalize (sortBy (fun a b => dist st head a - dist st head b) (d0 :: safe)).
      by intros [|d1 sorted]. }
    rewrite Hnil. unfold safeDirections. rewrite filter_nil_iff.
    unfold inGrid, prospective. simpl.
    split; intros Hall d Hd; specialize (Hall d Hd).
    + destruct (isCellOccupied st _ _ (Some i)); [by right|left].
      intros [Hx Hy]. apply Hall. apply negb_true_iff.
      rewrite !orb_false_iff, Z.geb_leb, Z.geb_leb, !Z.ltb_ge, !Z.leb_gt. lia.
    + intros Hsafe. apply negb_true_iff in Hsafe.
      rewrite !orb_false_iff, Z.geb_leb, Z.geb_leb, !Z.ltb_ge, !Z.leb_gt in Hsafe.
      destruct Hall as [Hout|Hocc]; [apply Hout; lia|].
      destruct Hsafe as [_ Hfree]. congruence.
  - unfold getNextDirection. rewrite Hb.
    by destruct (safeDirections st i snake head).
  - apply getNextDirection_not_TypeError. by rewrite Hb.
Qed.

(** ** Further properties: how a tick moves the snakes *)

Lemma commitMove_at (i : nat) (h : Cell) (s : Snake) (st st' : State)
    (rs rs' : list Rand) :
  commitMove i h st rs = Done (st', rs') → snakes st !! i = Some s →
  snakes st' !! i = Some (with_body (h :: body s) s)
  ∨ snakes st' !! i = Some (with_body (removelast (h :: body s)) s).
Proof.
  intros Hcommit Hs. destruct (isFood st h) eqn:Hf.
  - rewrite commitMove_food in Hcommit by done.
    apply generateFood_Done in Hcommit as (c & -> & _). left. simpl.
    by rewrite list_lookup_alter_eq, Hs.
  - rewrite commitMove_other in Hcommit by done.
    injection Hcommit as <- <-. right. simpl.
    by rewrite list_alter_alter_eq, list_lookup_alter_eq, Hs.
Qed.

Lemma stepSnake_motion (i : nat) (st st' : State) (m m' : bool)
    (rs rs' : list Rand) (s : Snake) :
  stepSnake i (st, m, rs) = Done (st', m', rs') → snakes st !! i = Some s →
  ∃ s', snakes st' !! i = Some s' ∧ sameIdentity s s'
        ∧ (s' = s
           ∨ (advanced s s'
              ∧ (userControlled s = true → direction s' = direction s)
              ∧ (userControlled s = false → direction s' ∈ candidates s))).
Proof.
  intros Hstep Hs. unfold stepSnake in Hstep. rewrite Hs in Hstep.
  destruct (body s) as [|head rest] eqn:Hb; [done|].
  destruct (userControlled s) eqn:Hu.
  - match type of Hstep with context [if ?b then _ else _] => destruct b eqn:Hout end.
    + injection Hstep as <- <- <-. exists s. by split; [|split; [|left]].
    + destruct (commitMove i _ st rs) as [[st1 rs1]| |] eqn:Hc; simpl in Hstep;
        try done.
      injection Hstep as <- <- <-.
      repeat (apply orb_false_iff in Hout as [Hout ?]).
      assert (Hgrid : inGrid (prospective head (direction s))).
      { unfold inGrid, prospective. simpl in *.
        rewrite Z.geb_leb in *. rewrite Z.ltb_ge, Z.leb_gt in *. lia. }
      destruct (commitMove_at _ _ _ _ _ _ _ Hc Hs) as [Hs'|Hs'];
        eexists; (split; [exact Hs'|]); (split; [done|]); right;
        (split; [|done]); exists head, rest; rewrite Hb; simpl;
        (split; [done|]); (split; [done|]); [by left|by right].
  - destruct (getNextDirection st i s) as [[d|]| |] eqn:Hd; simpl in Hstep; try done.
    + apply (getNextDirection_Some _ _ _ _ _ _ Hb), safeDirections_safe in Hd
        as (Hin & Hx & Hy & _).
      destruct (commitMove i _ st rs) as [[st1 rs1]| |] eqn:Hc; simpl in Hstep;
        try done.
      injection Hstep as <- <- <-.
      destruct (commitMove_at _ _ _ _ _ _ _ Hc Hs) as [Hs'|Hs'];
        eexists; (split; [simpl; rewrite list_lookup_alter_eq, Hs'; done|]);
        (split; [done|]); right; (split; [|done]); exists head, rest;
        rewrite Hb; simpl; (split; [done|]); (split; [done|]); [by left|by right].
    + injection Hstep as <- <- <-. exists s. by split; [|split; [|left]].
Qed.

Lemma forSnakes_motion (idxs : list nat) (st st' : State) (m m' : bool)
    (rs rs' : list Rand) :
  NoDup idxs → forSnakes idxs (st, m, rs) = Done (st', m', rs') →
  ∀ k s, snakes st !! k = Some s →
    ∃ s', snakes st' !! k = Some s' ∧ sameIdentity s s'
          ∧ (s' = s
             ∨ (advanced s s'
                ∧ (userControlled s = true → direction s' = direction s)
                ∧ (userControlled s = false → direction s' ∈ candidates s))).
Proof.
  intros Hnd. revert st m rs.
  induction Hnd as [|i idxs Hi Hnd IH]; intros st m rs; simpl.
  - intros [= <- <- <-] k s Hk. exists s. by split; [|split; [|left]].
  - destruct (stepSnake i (st, m, rs)) as [[[st1 m1] rs1]| |] eqn:Hstep;
      simpl; try done.
    intros Hrest k s Hk. destruct (decide (k = i)) as [->|Hne].
    + destruct (stepSnake_motion _ _ _ _ _ _ _ _ Hstep Hk) as (s1 & Hs1 & Hrel).
      apply forSnakes_frame in Hrest as (_ & _ & Hother & _).
      exists s1. by rewrite (Hother i Hi).
    + apply stepSnake_frame in Hstep as (_ & f & Hf & _).
      apply (IH _ _ _ Hrest). rewrite Hf. by rewrite list_lookup_alter_ne.
Qed.

Lemma elem_of_removelast (b : list Cell) (c : Cell) : c ∈ removelast b → c ∈ b.
Proof.
  destruct b as [|c0 b]; [done|]. intros Hin.
  rewrite (app_removelast_last c0 (l := c0 :: b)) by done.
  apply elem_of_app. by left.
Qed.

Lemma gameLoop_motion (st st' : State) (rs rs' : list Rand) :
  gameLoop st rs = Done (st', rs') →
  length (snakes st') = length (snakes st)
  ∧ ∀ k s, snakes st !! k = Some s →
      ∃ s', snakes st' !! k = Some s' ∧ sameIdentity s s'
            ∧ (s' = s
               ∨ (advanced s s'
                  ∧ (userControlled s = true → direction s' = direction s)
                  ∧ (userControlled s = false → direction s' ∈ candidates s))).
Proof.
  unfold gameLoop.
  destruct (moveSnakes st rs) as [[[st1 m1] rs1]| |] eqn:Hmove; simpl; try done.
  destruct (gameOverCheck st1 m1) as [st2| |] eqn:Hover; simpl; try done.
  intros [= <- <-].
  apply gameOverCheck_segments in Hover as (-> & _).
  unfold moveSnakes in Hmove.
  pose proof (forSnakes_motion _ _ _ _ _ _ _ (NoDup_seq 0 _) Hmove) as Hmotion.
  by apply forSnakes_frame in Hmove as (_ & Hlen & _).
Qed.

(** What the snake at an index was before the tick. *)
Lemma gameLoop_motion_back (st st' : State) (rs rs' : list Rand) (k : nat) (s' : Snake) :
  gameLoop st rs = Done (st', rs') → snakes st' !! k = Some s' →
  ∃ s, snakes st !! k = Some s ∧ sameIdentity s s'
       ∧ (s' = s ∨ advanced s s').
Proof.
  intros Htick Hs'. destruct (gameLoop_motion _ _ _ _ Htick) as [Hlen Hmotion].
  destruct (lookup_lt_is_Some_2 (snakes st) k) as [s Hs].
  { rewrite <- Hlen. by eapply lookup_lt_Some. }
  destruct (Hmotion k s Hs) as (s'' & Hs'' & Hid & Hrel).
  rewrite Hs' in Hs''. injection Hs'' as <-.
  exists s. split; [done|]. split; [done|]. destruct Hrel as [?|[? _]]; auto.
Qed.

(** X4.  A tick keeps the number of snakes and, of every snake, the
    identifier, the colour and the user-control flag.  Each snake is
    either left exactly as it was or advanced by one move: its head
    goes one step in the direction it then has, to a cell of the
    board, and its old blocks follow, so that it keeps its length or,
    having eaten, is longer by one.  A user-controlled snake moves only
    in its stored direction, an autonomous one in one of its
    candidates. *)
Theorem tick_advances_each_snake_by_one_move (st st' : State) (rs rs' : list Rand) :
  gameLoop st rs = Done (st', rs') →
  length (snakes st') = length (snakes st)
  ∧ ∀ k s, snakes st !! k = Some s →
      ∃ s', snakes st' !! k = Some s'
            ∧ snakeId s' = snakeId s ∧ color s' = color s
            ∧ userControlled s' = userControlled s
            ∧ (length (body s) <= length (body s') <= S (length (body s)))%nat
            ∧ (s' = s
               ∨ (advanced s s'
                  ∧ (userControlled s = true → direction s' = direction s)
                  ∧ (userControlled s = false → direction s' ∈ candidates s))).
Proof.
  intros Htick.
  destruct (gameLoop_motion _ _ _ _ Htick) as [Hlen Hmotion].
  split; [done|]. intros k s Hs.
  destruct (Hmotion k s Hs) as (s' & Hs' & (Hid & Hcol & Hfl) & Hrel).
  exists s'. split; [done|]. split; [done|]. split; [done|]. split; [done|].
  split; [|done].
  destruct Hrel as [->|((head & rest & Hb & _ & [Hb'|Hb']) & _)]; [lia|..];
    rewrite Hb'; simpl; [lia|].
  rewrite Hb. pose proof (length_removelast_unshift head rest) as Hl.
  destruct rest; simpl in *; lia.
Qed.

(** ** Further properties: the board and the colours *)

(** Where the food is after a move is committed: where it was, or on a
    cell the food loop drew, in the colour chosen at the start. *)
Lemma commitMove_food_cases (i : nat) (h : Cell) (st st' : State) (rs rs' : list Rand) :
  commitMove i h st rs = Done (st', rs') →
  food st' = food st
  ∨ ∃ c, c ∈ rounds rs ∧ food st' = mkFood (cell_x c) (cell_y c) (foodColor st).
Proof.
  intros Hcommit. destruct (isFood st h) eqn:Hf.
  - rewrite commitMove_food in Hcommit by done.
    apply generateFood_Done in Hcommit as (c & -> & _ & Hc).
    right. by exists c.
  - rewrite commitMove_other in Hcommit by done.
    injection Hcommit as <- <-. by left.
Qed.

Lemma stepSnake_food_cases (i : nat) (st st' : State) (m m' : bool) (rs rs' : list Rand) :
  stepSnake i (st, m, rs) = Done (st', m', rs') →
  food st' = food st
  ∨ ∃ c, c ∈ rounds rs ∧ food st' = mkFood (cell_x c) (cell_y c) (foodColor st).
Proof.
  unfold stepSnake.
  destruct (snakes st !! i) as [snake|]; [|intros [= <- <- <-]; by left].
  destruct (body snake) as [|head rest]; [done|].
  destruct (userControlled snake).
  - split_if; [intros [= <- <- <-]; by left|].
    destruct (commitMove i _ st rs) as [[st1 rs1]| |] eqn:Hc; simpl; try done.
    intros [= <- <- <-]. by apply commitMove_food_cases in Hc.
  - destruct (getNextDirection st i snake) as [[d|]| |]; simpl; try done;
      [|intros [= <- <- <-]; by left].
    destruct (commitMove i _ st rs) as [[st1 rs1]| |] eqn:Hc; simpl; try done.
    intros [= <- <- <-]. by apply commitMove_food_cases in Hc.
Qed.

Lemma forSnakes_food_cases (idxs : list nat) (st st' : State) (m m' : bool)
    (rs rs' : list Rand) :
  forSnakes idxs (st, m, rs) = Done (st', m', rs') →
  food st' = food st
  ∨ ∃ rs0 c, c ∈ rounds rs0 ∧ food st' = mkFood (cell_x c) (cell_y c) (foodColor st).
Proof.
  revert st m rs. induction idxs as [|i idxs IH]; intros st m rs; simpl.
  - intros [= <- <- <-]. by left.
  - destruct (stepSnake i (st, m, rs)) as [[[st1 m1] rs1]| |] eqn:Hstep;
      simpl; try done.
    intros Hrest.
    pose proof (stepSnake_frame _ _ _ _ _ _ _ Hstep) as [(Hcol & _) _].
    apply stepSnake_food_cases in Hstep. apply IH in Hrest.
    destruct Hrest as [->|(rs0 & c & Hc & ->)].
    + destruct Hstep as [->|(c & Hc & ->)]; [by left|]. right. by exists rs, c.
    + right. exists rs0, c. by rewrite Hcol.
Qed.

Lemma gameOverCheck_foodColor (st st' : State) (m : bool) :
  gameOverCheck st m = Done st' → foodColor st' = foodColor st.
Proof.
  unfold gameOverCheck. destruct (userControlCheck st).
  - destruct (findUserSnake st) as [[i u]|]; [|by intros [= <-]].
    destruct (body u) as [|head rest]; [done|].
    destruct (safeMoves st i head); [|by intros [= <-]].
    by destruct (_ >=? _); intros [= <-].
  - by destruct (negb m); intros [= <-].
Qed.

Lemma gameLoop_food_cases (st st' : State) (rs rs' : list Rand) :
  gameLoop st rs = Done (st', rs') →
  foodColor st' = foodColor st
  ∧ (food st' = food st
     ∨ ∃ rs0 c, c ∈ rounds rs0
                ∧ food st' = mkFood (cell_x c) (cell_y c) (foodColor st)).
Proof.
  unfold gameLoop.
  destruct (moveSnakes st rs) as [[[st1 m1] rs1]| |] eqn:Hmove; simpl; try done.
  destruct (gameOverCheck st1 m1) as [st2| |] eqn:Hover; simpl; try done.
  intros [= <- <-].
  pose proof (gameOverCheck_foodColor _ _ _ Hover) as Hcol.
  apply gameOverCheck_segments in Hover as (_ & -> & _).
  unfold moveSnakes in Hmove.
  pose proof (forSnakes_frame _ _ _ _ _ _ _ Hmove) as ((Hcol1 & _) & _).
  apply forSnakes_food_cases in Hmove. split; [congruence|done].
Qed.

(** An assignment to a field of one snake leaves the other fields of
    all the snakes as they are. *)
Lemma map_alter_same {B : Type} (f : Snake → B) (g : Snake → Snake) (i : nat)
    (l : list Snake) :
  (∀ s, f (g s) = f s) → map f (alter g i l) = map f l.
Proof.
  intros Hfg. revert i.
  induction l as [|s l IH]; intros [|i]; simpl; try done; f_equal; auto.
  apply IH.
Qed.

(** The listeners leave the bodies, the colours and the food alone. *)
Lemma keydown_frame (key : string) (st : State) :
  food (keydown key st) = food st ∧ foodColor (keydown key st) = foodColor st
  ∧ map body (snakes (keydown key st)) = map body (snakes st)
  ∧ map color (snakes (keydown key st)) = map color (snakes st).
Proof.
  destruct (keydown_cases key st) as [->|(i & u & d & _ & _ & _ & ->)]; [done|].
  simpl. repeat split; by apply map_alter_same.
Qed.

Lemma change_frame (checked : bool) (st : State) :
  food (change checked st) = food st
  ∧ foodColor (change checked st) = foodColor st
  ∧ gameInterval (change checked st) = gameInterval st
  ∧ userBlockedCounter (change checked st) = userBlockedCounter st
  ∧ userControlCheck (change checked st) = checked
  ∧ map body (snakes (change checked st)) = map body (snakes st)
  ∧ map color (snakes (change checked st)) = map color (snakes st)
  ∧ map direction (snakes (change checked st)) = map direction (snakes st)
  ∧ map snakeId (snakes (change checked st)) = map snakeId (snakes st).
Proof.
  unfold change. destruct checked.
  - destruct (findDesignated _) as [[i s]|].
    + simpl. repeat split; by apply map_alter_same.
    + simpl. destruct (snakes st) as [|first l] eqn:E; simpl; rewrite ?E; done.
  - destruct (findDesignated _) as [[i s]|]; [|done].
    simpl. repeat split; by apply map_alter_same.
Qed.

Lemma segments_bodies (l l' : list Snake) :
  map body l' = map body l → segments l' = segments l.
Proof.
  unfold segments. revert l'. induction l as [|s l IH]; intros [|s' l'];
    try done.
  intros [= Hb Hrest].
  change (body s' ++ (l' ≫= body) = body s ++ (l ≫= body)).
  by rewrite Hb, (IH l').
Qed.

Section Board.

Hypothesis gridWidth_pos : 0 < gridWidth.
Hypothesis gridHeight_pos : 0 < gridHeight.

Lemma rounds_inGrid (rs : list Rand) (c : Cell) : c ∈ rounds rs → inGrid c.
Proof.
  induction rs as [| |rx ry rs IH] using pairs_ind; simpl.
  - by intros ?%elem_of_nil.
  - by intros ?%elem_of_nil.
  - intros [->|Hc]%elem_of_cons; [|by apply IH].
    split; simpl; by apply randomFloor_bounds.
Qed.

Lemma onBoard_tick (st st' : State) (rs rs' : list Rand) :
  onBoard st → gameLoop st rs = Done (st', rs') → onBoard st'.
Proof.
  intros [Hseg Hfood] Htick. split.
  - unfold segments in *. rewrite Forall_bind in *.
    rewrite Forall_lookup in *. intros k s' Hs'.
    destruct (gameLoop_motion_back _ _ _ _ _ _ Htick Hs')
      as (s & Hs & _ & [->|(head & rest & Hb & Hin & Hb')]).
    { by eapply Hseg. }
    pose proof (Hseg k s Hs) as Hold. simpl in *.
    destruct Hb' as [-> | ->]; constructor; try done.
    rewrite Forall_forall in *. intros c Hc. apply Hold.
    by apply elem_of_removelast.
  - apply gameLoop_food_cases in Htick as (_ & [Hsame|(rs0 & c & Hc & Hnew)]).
    + unfold foodCell. by rewrite Hsame.
    + unfold foodCell. rewrite Hnew. simpl.
      apply rounds_inGrid in Hc. by destruct c.
Qed.

Lemma createSnake_onBoard (i : nat) (st st' : State) (rs rs' : list Rand) :
  createSnake i st rs = Done (st', rs') →
  Forall inGrid (segments (snakes st)) → Forall inGrid (segments (snakes st')).
Proof.
  unfold createSnake.
  destruct (match presetColors !! i with
            | Some c => Done (c, rs)
            | None => randomColor (snakes st) rs
            end) as [[c rs1]| |]; simpl; try done.
  destruct (bool_decide (i = 0%nat) && userControlCheck st); simpl.
  - destruct (sampleFreeCell (snakes st) rs1) as [[pos rs2]| |] eqn:Hpos;
      simpl; try done.
    destruct rs2 as [|r rs3]; [done|]. intros [= <- <-] Hseg. simpl.
    rewrite segments_snoc. simpl. apply Forall_app. split; [done|].
    apply sampleFreeCell_Done in Hpos as [_ Hpos]. apply rounds_inGrid in Hpos.
    by apply Forall_singleton.
  - destruct (sampleFreeCell (snakes st) rs1) as [[pos rs2]| |] eqn:Hpos;
      simpl; try done.
    destruct rs2 as [|r rs3]; [done|]. intros [= <- <-] Hseg. simpl.
    rewrite segments_snoc. simpl. apply Forall_app. split; [done|].
    apply sampleFreeCell_Done in Hpos as [_ Hpos]. apply rounds_inGrid in Hpos.
    by apply Forall_singleton.
Qed.

Lemma createSnakes_loop_onBoard (n i : nat) (st st' : State) (rs rs' : list Rand) :
  createSnakes_loop n i st rs = Done (st', rs') →
  Forall inGrid (segments (snakes st)) → Forall inGrid (segments (snakes st')).
Proof.
  revert i st rs. induction n as [|n IH]; intros i st rs; simpl.
  - by intros [= <- <-].
  - destruct (createSnake i st rs) as [[st1 rs1]| |] eqn:Hone; simpl; try done.
    intros Hrest Hseg. eapply IH; [done|]. by eapply createSnake_onBoard.
Qed.

Lemma onBoard_start (parsed : option Z) (st st' : State) (rs rs' : list Rand) :
  startClick parsed st rs = Done (st', rs') → onBoard st'.
Proof.
  unfold startClick, createSnakes.
  destruct (createSnakes_loop _ 0 _ rs) as [[st1 rs1]| |] eqn:Hcreate;
    simpl; try done.
  apply createSnakes_loop_onBoard in Hcreate; [|constructor].
  destruct (generateFood _ rs1) as [[st2 rs2]| |] eqn:Hfood; simpl; try done.
  intros [= <- <-].
  apply generateFood_Done in Hfood as (c & -> & _ & Hc).
  split; [done|]. apply rounds_inGrid in Hc. by destruct c.
Qed.

Lemma reachable_onBoard (st : State) : reachable st → onBoard st.
Proof.
  induction 1 as [checked|st ev rs st' rs' Hreach IH Hev].
  - split; [constructor|]. split; simpl; lia.
  - destruct ev as [|key|checked|parsed]; simpl in Hev.
    + destruct (gameInterval st).
      * by eapply onBoard_tick.
      * by injection Hev as <- <-.
    + injection Hev as <- <-.
      destruct (keydown_frame key st) as (Hf & _ & Hb & _).
      destruct IH as [Hseg Hfood]. split.
      * by rewrite (segments_bodies _ _ Hb).
      * unfold foodCell. by rewrite Hf.
    + injection Hev as <- <-.
      destruct (change_frame checked st) as (Hf & _ & _ & _ & _ & Hb & _).
      destruct IH as [Hseg Hfood]. split.
      * by rewrite (segments_bodies _ _ Hb).
      * unfold foodCell. by rewrite Hf.
    + by eapply onBoard_start.
Qed.

End Board.

(** ** Further properties: creating the snakes *)

Lemma presetColors_NoDup : NoDup presetColors.
Proof. apply (bool_decide_unpack _). by vm_compute. Qed.

Lemma yellow_not_preset : "yellow" ∉ presetColors.
Proof. apply (bool_decide_unpack _). by vm_compute. Qed.

Lemma colourOf_not_yellow (k : nat) (c : string) : colourOf k c → c ≠ "yellow".
Proof.
  unfold colourOf. destruct (presetColors !! k) as [p|] eqn:Hp.
  - intros -> ->. apply yellow_not_preset. by eapply list_elem_of_lookup_2.
  - by intros [r ->].
Qed.

Lemma existsb_color (l : list Snake) (c : string) :
  existsb (fun s => String.eqb (color s) c) l = false → c ∉ map color l.
Proof.
  intros Hnone Hin. apply list_elem_of_In, in_map_iff in Hin as (s & Hs & Hin).
  assert (Htrue : existsb (fun s => String.eqb (color s) c) l = true).
  { apply existsb_exists. exists s. split; [done|]. by apply String.eqb_eq. }
  congruence.
Qed.

Lemma randomColor_Done (l : list Snake) (rs rs' : list Rand) (c : string) :
  randomColor l rs = Done (c, rs') →
  (∃ r, c = ("#" +:+ toString16 (randomFloor 16777215 r))%string)
  ∧ (c ∉ map color l).
Proof.
  induction rs as [|r rs IH]; simpl; [done|].
  destruct (existsb _ l) eqn:E; [done|].
  intros [= <- <-]. split; [by exists r|]. by apply existsb_color.
Qed.

(** One round of the loop of [createSnakes], in full. *)
Lemma createSnake_full (i : nat) (st st' : State) (rs rs' : list Rand) :
  createSnake i st rs = Done (st', rs') →
  ∃ c rs1 pos d,
    match presetColors !! i with
    | Some p => Done (p, rs)
    | None => randomColor (snakes st) rs
    end = Done (c, rs1)
    ∧ pos ∈ rounds rs1 ∧ (pos ∉ segments (snakes st))
    ∧ d ∈ possibleDirections
    ∧ snakes st'
      = snakes st ++ [mkSnake i c [pos] d (bool_decide (i = 0%nat) && userControlCheck st)]
    ∧ userSnakeId st'
      = (if bool_decide (i = 0%nat) && userControlCheck st then Some i
         else userSnakeId st)
    ∧ userControlCheck st' = userControlCheck st
    ∧ userBlockedCounter st' = userBlockedCounter st
    ∧ gameInterval st' = gameInterval st
    ∧ food st' = food st ∧ foodColor st' = foodColor st.
Proof.
  unfold createSnake.
  destruct (match presetColors !! i with
            | Some c => Done (c, rs)
            | None => randomColor (snakes st) rs
            end) as [[c rs1]| |]; simpl; try done.
  destruct (bool_decide (i = 0%nat) && userControlCheck st); simpl.
  - destruct (sampleFreeCell (snakes st) rs1) as [[pos rs2]| |] eqn:Hpos;
      simpl; try done.
    destruct rs2 as [|r rs3]; [done|]. intros [= <- <-].
    apply sampleFreeCell_Done in Hpos as [Hfree Hpos].
    exists c, rs1, pos, (nth (Z.to_nat (randomFloor 4 r)) possibleDirections (mkCell 0 0)).
    split; [done|]. split; [done|]. split; [done|].
    split; [apply randomDirection_unit|done].
  - destruct (sampleFreeCell (snakes st) rs1) as [[pos rs2]| |] eqn:Hpos;
      simpl; try done.
    destruct rs2 as [|r rs3]; [done|]. intros [= <- <-].
    apply sampleFreeCell_Done in Hpos as [Hfree Hpos].
    exists c, rs1, pos, (nth (Z.to_nat (randomFloor 4 r)) possibleDirections (mkCell 0 0)).
    split; [done|]. split; [done|]. split; [done|].
    split; [apply randomDirection_unit|done].
Qed.

Lemma coloursOK_snoc (cs : list string) (c : string) :
  coloursOK cs → c ∉ cs → colourOf (length cs) c → coloursOK (cs ++ [c]).
Proof.
  intros [Hnd Hall] Hnew Hc. split.
  - apply NoDup_app. split; [done|]. split; [|apply NoDup_singleton].
    intros x Hx ->%list_elem_of_singleton. done.
  - intros k x Hk. apply lookup_app_Some in Hk as [Hk|[Hlen Hk]]; [by apply Hall|].
    apply list_lookup_singleton_Some in Hk as [Hk <-].
    by replace k with (length cs) by lia.
Qed.

Lemma createSnake_colours (i : nat) (st st' : State) (rs rs' : list Rand) :
  createSnake i st rs = Done (st', rs') →
  length (snakes st) = i → coloursOK (map color (snakes st)) →
  coloursOK (map color (snakes st')).
Proof.
  intros Hone Hlen Hok.
  apply createSnake_full in Hone as (c & rs1 & pos & d & Hc & _ & _ & _ & -> & _).
  rewrite map_app. simpl. apply coloursOK_snoc; [done|..].
  - destruct (presetColors !! i) as [p|] eqn:Hp.
    + injection Hc as <- <-. intros Hin.
      apply list_elem_of_lookup in Hin as [k Hk].
      pose proof (lookup_lt_Some _ _ _ Hk) as Hlt. rewrite length_map, Hlen in Hlt.
      destruct Hok as [_ Hall]. pose proof (Hall k p Hk) as Hcol.
      unfold colourOf in Hcol.
      destruct (presetColors !! k) as [q|] eqn:Hq.
      * subst q. pose proof (NoDup_lookup _ _ _ _ presetColors_NoDup Hq Hp). lia.
      * apply lookup_ge_None in Hq. apply lookup_lt_Some in Hp. lia.
    + by apply randomColor_Done in Hc as [_ Hc].
  - rewrite length_map, Hlen. unfold colourOf.
    destruct (presetColors !! i) as [p|] eqn:Hp.
    + by injection Hc as <- <-.
    + by apply randomColor_Done in Hc as [Hc _].
Qed.

Lemma createSnakes_loop_colours (n i : nat) (st st' : State) (rs rs' : list Rand) :
  createSnakes_loop n i st rs = Done (st', rs') →
  length (snakes st) = i → coloursOK (map color (snakes st)) →
  coloursOK (map color (snakes st')) ∧ foodColor st' = foodColor st
  ∧ food st' = food st.
Proof.
  revert i st rs. induction n as [|n IH]; intros i st rs; simpl.
  - by intros [= <- <-].
  - destruct (createSnake i st rs) as [[st1 rs1]| |] eqn:Hone; simpl; try done.
    intros Hrest Hlen Hok.
    pose proof (createSnake_colours _ _ _ _ _ Hone Hlen Hok) as Hok1.
    apply createSnake_full in Hone
      as (c & rs0 & pos & d & _ & _ & _ & _ & Hs & _ & _ & _ & _ & Hf & Hfc).
    apply IH in Hrest as (Hok' & Hfc' & Hf'); [|by rewrite Hs, length_app; simpl; lia|done].
    split; [done|]. split; congruence.
Qed.

Lemma not_yellow_existsb (cs : list string) :
  (∀ c, c ∈ cs → c ≠ "yellow") → existsb (String.eqb "yellow") cs = false.
Proof.
  induction cs as [|c cs IH]; intros Hall; [done|].
  change (String.eqb "yellow" c || existsb (String.eqb "yellow") cs = false).
  rewrite IH by (intros x Hx; apply Hall; by right).
  destruct (String.eqb_spec "yellow" c) as [<-|]; [|done].
  exfalso. apply (Hall "yellow"); [by left|done].
Qed.

Lemma startClick_colourInv (parsed : option Z) (st st' : State) (rs rs' : list Rand) :
  startClick parsed st rs = Done (st', rs') → colourInv st'.
Proof.
  unfold startClick, createSnakes.
  destruct (createSnakes_loop _ 0 _ rs) as [[st1 rs1]| |] eqn:Hcreate;
    simpl; try done.
  apply createSnakes_loop_colours in Hcreate as (Hok & _ & _);
    [|done|by split; [apply NoDup_nil_2|]].
  rewrite not_yellow_existsb.
  2:{ intros c Hc. apply list_elem_of_lookup in Hc as [k Hk].
      destruct Hok as [_ Hall]. by eapply colourOf_not_yellow, Hall. }
  simpl.
  destruct (generateFood _ rs1) as [[st2 rs2]| |] eqn:Hfood; simpl; try done.
  intros [= <- <-].
  apply generateFood_Done in Hfood as (c & -> & _). by split.
Qed.

Lemma stepSnake_colours (i : nat) (st st' : State) (m m' : bool) (rs rs' : list Rand) :
  stepSnake i (st, m, rs) = Done (st', m', rs') →
  map color (snakes st') = map color (snakes st).
Proof.
  intros (_ & f & -> & Hf)%stepSnake_frame.
  apply map_alter_same. intros s. by destruct (Hf s) as (_ & ? & _).
Qed.

Lemma forSnakes_colours (idxs : list nat) (st st' : State) (m m' : bool)
    (rs rs' : list Rand) :
  forSnakes idxs (st, m, rs) = Done (st', m', rs') →
  map color (snakes st') = map color (snakes st).
Proof.
  revert st m rs. induction idxs as [|i idxs IH]; intros st m rs; simpl.
  - by intros [= <- <- <-].
  - destruct (stepSnake i (st, m, rs)) as [[[st1 m1] rs1]| |] eqn:Hstep;
      simpl; try done.
    intros Hrest. apply stepSnake_colours in Hstep. apply IH in Hrest. congruence.
Qed.

Lemma gameLoop_colours (st st' : State) (rs rs' : list Rand) :
  gameLoop st rs = Done (st', rs') →
  map color (snakes st') = map color (snakes st).
Proof.
  unfold gameLoop.
  destruct (moveSnakes st rs) as [[[st1 m1] rs1]| |] eqn:Hmove; simpl; try done.
  destruct (gameOverCheck st1 m1) as [st2| |] eqn:Hover; simpl; try done.
  intros [= <- <-].
  apply gameOverCheck_segments in Hover as (-> & _).
  by apply forSnakes_colours in Hmove.
Qed.

Lemma reachable_colourInv (st : State) : reachable st → colourInv st.
Proof.
  induction 1 as [checked|st ev rs st' rs' Hreach IH Hev].
  - split; [done|]. split; [done|]. by split; [apply NoDup_nil_2|].
  - destruct ev as [|key|checked|parsed]; simpl in Hev.
    + destruct (gameInterval st).
      * destruct IH as (Hfc & Hf & Hok).
        pose proof (gameLoop_colours _ _ _ _ Hev) as Hcols.
        apply gameLoop_food_cases in Hev as (Hfc' & Hfood).
        split; [congruence|]. split; [|by rewrite Hcols].
        destruct Hfood as [->|(rs0 & c & _ & ->)]; [done|]. by simpl.
      * by injection Hev as <- <-.
    + injection Hev as <- <-.
      destruct (keydown_frame key st) as (Hf & Hfc & _ & Hcols).
      unfold colourInv. by rewrite Hf, Hfc, Hcols.
    + injection Hev as <- <-.
      destruct (change_frame checked st) as (Hf & Hfc & _ & _ & _ & _ & Hcols & _).
      unfold colourInv. by rewrite Hf, Hfc, Hcols.
    + by eapply startClick_colourInv.
Qed.

Lemma map_lookup {B : Type} (f : Snake → B) (l : list Snake) (k : nat) (s : Snake) :
  l !! k = Some s → map f l !! k = Some (f s).
Proof.
  revert k. induction l as [|x l IH]; intros [|k]; simpl; try done.
  - by intros [= ->].
  - apply IH.
Qed.

(** X5.  On a board with cells, every segment of every snake and the
    food are on cells of the board, in every state at rest: the walls
    are never crossed and nothing is ever placed outside. *)
Theorem snakes_and_food_stay_on_the_board (st : State) :
  0 < gridWidth → 0 < gridHeight → reachable st →
  inGrid (foodCell st)
  ∧ ∀ k s c, snakes st !! k = Some s → c ∈ body s → inGrid c.
Proof.
  intros Hw Hh Hreach.
  destruct (reachable_onBoard Hw Hh st Hreach) as [Hseg Hfood].
  split; [done|]. intros k s c Hs Hc.
  rewrite Forall_forall in Hseg. apply Hseg.
  apply list_elem_of_lookup in Hc as [b Hc]. by eapply segments_elem_of.
Qed.

(** X6.  In every state at rest the food is yellow, whatever the list
    of candidate colours of the start listener: the snake of index [k]
    has the preset colour of index [k] or, past the seventeen presets,
    a drawn colour that starts with "#"; so no snake is yellow, and no
    two snakes have one colour. *)
Theorem food_is_yellow_and_snake_colours_differ (st : State) :
  reachable st →
  foodColor st = "yellow" ∧ food_color (food st) = "yellow"
  ∧ (∀ k s, snakes st !! k = Some s → color s ≠ "yellow" ∧ colourOf k (color s))
  ∧ (∀ j k sj sk, snakes st !! j = Some sj → snakes st !! k = Some sk →
       color sj = color sk → j = k).
Proof.
  intros (Hfc & Hf & Hnd & Hall)%reachable_colourInv.
  split; [done|]. split; [done|]. split.
  - intros k s Hs. apply (map_lookup color) in Hs. apply Hall in Hs.
    split; [by eapply colourOf_not_yellow|done].
  - intros j k sj sk Hj Hk Heq.
    apply (map_lookup color) in Hj, Hk. rewrite Heq in Hj.
    by eapply NoDup_lookup.
Qed.

Lemma createSnakes_loop_fresh (n i : nat) (st st' : State) (rs rs' : list Rand) :
  createSnakes_loop n i st rs = Done (st', rs') →
  length (snakes st) = i → fresh (userControlCheck st) (snakes st) →
  fresh (userControlCheck st) (snakes st')
  ∧ length (snakes st') = (i + n)%nat
  ∧ userControlCheck st' = userControlCheck st
  ∧ userBlockedCounter st' = userBlockedCounter st
  ∧ userSnakeId st'
    = (if bool_decide (i = 0%nat) && negb (bool_decide (n = 0%nat)) && userControlCheck st
       then Some 0%nat else userSnakeId st).
Proof.
  revert i st rs. induction n as [|n IH]; intros i st rs; simpl.
  - intros [= <- <-] Hlen Hfresh. split; [done|]. split; [lia|].
    by rewrite andb_false_r.
  - destruct (createSnake i st rs) as [[st1 rs1]| |] eqn:Hone; simpl; try done.
    intros Hrest Hlen Hfresh.
    apply createSnake_full in Hone
      as (c & rs0 & pos & d & _ & _ & _ & Hd & Hs & Huid & Hcheck & Hctr & _).
    apply IH in Hrest as (Hfresh' & Hlen' & Hcheck' & Hctr' & Huid').
    + rewrite Hcheck in *. split; [done|]. split; [lia|].
      split; [done|]. split; [congruence|].
      rewrite Huid', Huid. rewrite andb_true_r.
      destruct (bool_decide (i = 0%nat)) eqn:Hi; simpl.
      * apply bool_decide_eq_true in Hi. subst i.
        by destruct (userControlCheck st).
      * done.
    + rewrite Hs, length_app. simpl. lia.
    + rewrite Hcheck, Hs. intros k s Hk.
      apply lookup_app_Some in Hk as [Hk|[Hge Hk]]; [by apply Hfresh|].
      apply list_lookup_singleton_Some in Hk as [Hk <-]. simpl.
      assert (k = i) as -> by lia.
      split; [done|]. split; [by exists pos|]. done.
Qed.

(** X7.  What the start button sets up, whatever the board was: as
    many snakes as were asked for (one for an empty field or 0), the
    snake of index [k] with identifier [k], one block long and heading
    in one of the four directions, the first one user-controlled when
    the checkbox is on and no other; the lock-out counter at 0, the
    timer running, and the first snake designated when the checkbox is
    on and a snake was created. *)
Theorem start_sets_up_the_snakes_asked_for (parsed : option Z) (st st' : State)
    (rs rs' : list Rand) :
  startClick parsed st rs = Done (st', rs') →
  length (snakes st')
  = Z.to_nat (match parsed with
              | Some n => if n =? 0 then 1 else n
              | None => 1
              end)
  ∧ gameInterval st' = true ∧ userBlockedCounter st' = 0
  ∧ userControlCheck st' = userControlCheck st
  ∧ userSnakeId st'
    = (if userControlCheck st
       then match snakes st' with [] => userSnakeId st | _ :: _ => Some 0%nat end
       else userSnakeId st)
  ∧ ∀ k s, snakes st' !! k = Some s →
      snakeId s = k ∧ (∃ pos, body s = [pos]) ∧ direction s ∈ possibleDirections
      ∧ userControlled s = bool_decide (k = 0%nat) && userControlCheck st.
Proof.
  unfold startClick, createSnakes.
  destruct (createSnakes_loop _ 0 _ rs) as [[st1 rs1]| |] eqn:Hcreate;
    simpl; try done.
  apply createSnakes_loop_fresh in Hcreate
    as (Hfresh & Hlen & Hcheck & Hctr & Huid); [|done|by intros k s Hk].
  destruct (generateFood _ rs1) as [[st2 rs2]| |] eqn:Hfood; simpl; try done.
  intros [= <- <-].
  apply generateFood_Done in Hfood as (c & -> & _). simpl in *.
  split; [done|]. split; [done|]. split; [done|]. split; [done|].
  split; [|done]. rewrite Huid, <- Hlen.
  destruct (userControlCheck st); [|by rewrite andb_false_r].
  by destruct (snakes st1).
Qed.

(** X8.  In every state at rest the identifier of a snake is its
    index, its direction is one of the four unit vectors, its body is
    not empty, and it is user-controlled exactly when it is the first
    snake and the checkbox is on: the [find] of the user-controlled
    snake returns the first snake or nothing, and the designated
    identifier is 0 or not set. *)
Theorem only_the_first_snake_is_user_controlled (st : State) :
  reachable st →
  (∀ k s, snakes st !! k = Some s →
     snakeId s = k ∧ direction s ∈ possibleDirections ∧ body s ≠ []
     ∧ userControlled s = bool_decide (k = 0%nat) && userControlCheck st)
  ∧ findUserSnake st
    = (if userControlCheck st then (fun s => (0%nat, s)) <$> head (snakes st)
       else None)
  ∧ (userSnakeId st = None ∨ userSnakeId st = Some 0%nat)
  ∧ (userControlCheck st = true → snakes st ≠ [] → userSnakeId st = Some 0%nat).
Proof.
  intros Hreach.
  pose proof (reachable_Inv st Hreach) as (_ & _ & Hbodies).
  pose proof (reachable_modeInv st Hreach) as (Hdirs & Hids & Hflag & Hfirst & Huid).
  assert (Hflags : ∀ k s, snakes st !! k = Some s →
            userControlled s = bool_decide (k = 0%nat) && userControlCheck st).
  { intros k s Hs. destruct (userControlled s) eqn:Hu.
    - destruct (Hflag k s Hs Hu) as (-> & _ & ->). done.
    - symmetry. apply andb_false_iff.
      destruct (decide (k = 0%nat)) as [->|Hk];
        [|left; by apply bool_decide_eq_false_2].
      right. destruct (userControlCheck st) eqn:Hc; [|done].
      pose proof (Hfirst eq_refl s Hs). congruence. }
  split; [|split; [|split]].
  - intros k s Hs. split; [by apply Hids|]. split; [|split; [|by apply Hflags]].
    + rewrite Forall_forall in Hdirs. apply Hdirs. by eapply list_elem_of_lookup_2.
    + rewrite Forall_forall in Hbodies. apply Hbodies. by eapply list_elem_of_lookup_2.
  - unfold findUserSnake. destruct (userControlCheck st) eqn:Hc.
    + destruct (snakes st) as [|s l]; [done|]. simpl.
      rewrite decide_True; [done|]. by apply Hfirst.
    + apply list_find_None, Forall_forall. intros s Hs Hu.
      apply list_elem_of_lookup in Hs as [k Hs].
      rewrite (Hflags k s Hs), andb_false_r in Hu. done.
  - destruct (userSnakeId st) as [u|] eqn:Hu; [|by left].
    right. by rewrite (Huid u).
  - intros Hc Hne. destruct (snakes st) as [|s l]; [done|].
    assert (Hs : (s :: l) !! 0%nat = Some s) by done.
    by destruct (Hflag 0%nat s Hs (Hfirst Hc s Hs)) as (_ & ? & _).
Qed.

(** ** Further properties: the listeners *)

(** A [find] on a field that an assignment to the snake of index [i]
    leaves alone finds the snake it found before. *)
Lemma list_find_alter_keep {A : Type} (P : A → Prop) `{!∀ x, Decision (P x)}
    (f : A → A) (i : nat) (l : list A) (j : nat) (x : A) :
  (∀ y, P (f y) ↔ P y) → list_find P l = Some (j, x) →
  list_find P (alter f i l) = Some (j, if decide (j = i) then f x else x).
Proof.
  intros HP (Hx & HPx & Hmin)%list_find_Some. apply list_find_Some.
  split; [|split].
  - destruct (decide (j = i)) as [->|Hne].
    + by rewrite list_lookup_alter_eq, Hx.
    + by rewrite list_lookup_alter_ne.
  - destruct (decide (j = i)); [by apply HP|done].
  - intros k y Hy Hk. destruct (decide (i = k)) as [->|Hne].
    + rewrite list_lookup_alter_eq in Hy.
      destruct (l !! k) as [y0|] eqn:Hy0; [|done].
      injection Hy as <-. rewrite HP. by eapply Hmin.
    + rewrite list_lookup_alter_ne in Hy by done. by eapply Hmin.
Qed.

Lemma keydown_eq (key : string) (st : State) (i : nat) (u : Snake) (d : Cell) :
  findUserSnake st = Some (i, u) → keyDirection key = Some d →
  keydown key st
  = if (1 <? length (body u))%nat && isReverse (direction u) d then st
    else updSnake i (with_direction d) st.
Proof.
  intros Hu Hk. unfold keydown, setDirection. rewrite Hu, Hk.
  unfold isReverse. by rewrite andb_assoc.
Qed.

Lemma keydown_idle (key : string) (st : State) :
  keyDirection key = None ∨ findUserSnake st = None → keydown key st = st.
Proof.
  unfold keydown. intros [Hk|Hu].
  - rewrite Hk. by destruct (findUserSnake st).
  - by rewrite Hu.
Qed.

Lemma isReverse_self (d : Cell) : d ∈ possibleDirections → isReverse d d = false.
Proof.
  intros Hd. destruct (isReverse d d) eqn:E; [|done].
  apply isReverse_spec in E. by apply reverse_not_self in Hd.
Qed.

Lemma keydown_idem (key : string) (st : State) :
  keydown key (keydown key st) = keydown key st.
Proof.
  destruct (findUserSnake st) as [[i u]|] eqn:Hu;
    [|by rewrite !(keydown_idle key st) by by right].
  destruct (keyDirection key) as [d|] eqn:Hk;
    [|by rewrite !(keydown_idle key st) by by left].
  rewrite (keydown_eq key st i u d Hu Hk).
  destruct ((1 <? length (body u))%nat && isReverse (direction u) d) eqn:G.
  { by rewrite (keydown_eq key st i u d Hu Hk), G. }
  assert (Hu1 : findUserSnake (updSnake i (with_direction d) st)
                = Some (i, with_direction d u)).
  { unfold findUserSnake. simpl.
    pose proof (list_find_alter_keep (fun s => userControlled s = true)
                  (with_direction d) i (snakes st) i u) as H.
    rewrite decide_True in H by done. by apply H. }
  rewrite (keydown_eq key _ i _ d Hu1 Hk). simpl.
  rewrite isReverse_self by by eapply keyDirection_unit.
  rewrite andb_false_r. unfold updSnake, with_snakes. simpl. f_equal.
  rewrite list_alter_alter_eq. by apply list_alter_ext.
Qed.

(** X9.  A key press changes nothing but the direction of the
    user-controlled snake: every other field of the state and of the
    snakes is as before.  With a user-controlled snake and one of the
    twelve keys, the snake has the direction of the key afterwards,
    unless it is two blocks or longer and the key is the reverse of its
    direction, when nothing changes; any other key, or no
    user-controlled snake, changes nothing; pressing the key a second
    time changes nothing more. *)
Theorem keydown_turns_only_the_user_snake (key : string) (st : State) :
  keydown key st = with_snakes (snakes (keydown key st)) st
  ∧ length (snakes (keydown key st)) = length (snakes st)
  ∧ (∀ k s', snakes (keydown key st) !! k = Some s' →
       ∃ s, snakes st !! k = Some s
            ∧ (s' = s
               ∨ ∃ d, keyDirection key = Some d ∧ findUserSnake st = Some (k, s)
                      ∧ s' = with_direction d s))
  ∧ (∀ i u d, findUserSnake st = Some (i, u) → keyDirection key = Some d →
       snakes (keydown key st) !! i
       = Some (if (1 <? length (body u))%nat && bool_decide (d = reverse (direction u))
               then u else with_direction d u))
  ∧ (keyDirection key = None ∨ findUserSnake st = None → keydown key st = st)
  ∧ keydown key (keydown key st) = keydown key st.
Proof.
  split; [|split; [|split; [|split; [|split]]]].
  - destruct (keydown_cases key st) as [->|(i & u & d & _ & _ & _ & ->)];
      by destruct st.
  - destruct (keydown_cases key st) as [->|(i & u & d & _ & _ & _ & ->)]; [done|].
    simpl. apply length_alter.
  - intros k s' Hs'.
    destruct (keydown_cases key st) as [Hst|(i & u & d & Hu & Hk & _ & Hst)];
      rewrite Hst in Hs'; [by exists s'; split; [|left]|].
    simpl in Hs'. destruct (decide (i = k)) as [->|Hne].
    + rewrite list_lookup_alter_eq in Hs'.
      pose proof (findUserSnake_Some _ _ _ Hu) as [Hlook _].
      rewrite Hlook in Hs'. injection Hs' as <-.
      exists u. split; [done|]. right. by exists d.
    + rewrite list_lookup_alter_ne in Hs' by done. exists s'. by split; [|left].
  - intros i u d Hu Hk. rewrite (keydown_eq key st i u d Hu Hk).
    pose proof (findUserSnake_Some _ _ _ Hu) as [Hlook _].
    assert (Hrev : isReverse (direction u) d = bool_decide (d = reverse (direction u))).
    { destruct (isReverse (direction u) d) eqn:E.
      - apply isReverse_spec in E. symmetry. apply bool_decide_eq_true_2.
        rewrite E. unfold reverse. simpl. destruct d as [dx dy]. simpl.
        by rewrite !Z.opp_involutive.
      - symmetry. apply bool_decide_eq_false_2. intros ->.
        assert (isReverse (direction u) (reverse (direction u)) = true); [|congruence].
        apply isReverse_spec. unfold reverse. simpl.
        destruct (direction u) as [dx dy]. simpl. by rewrite !Z.opp_involutive. }
    rewrite Hrev. split_if; [done|].
    simpl. by rewrite list_lookup_alter_eq, Hlook.
  - apply keydown_idle.
  - apply keydown_idem.
Qed.

(** The flag of a snake in a state with the invariant of the mode. *)
Lemma modeInv_flags (st : State) (k : nat) (s : Snake) :
  modeInv st → snakes st !! k = Some s →
  userControlled s = bool_decide (k = 0%nat) && userControlCheck st.
Proof.
  intros (_ & _ & Hflag & Hfirst & _) Hs. destruct (userControlled s) eqn:Hu.
  - by destruct (Hflag k s Hs Hu) as (-> & _ & ->).
  - symmetry. apply andb_false_iff.
    destruct (decide (k = 0%nat)) as [->|Hk];
      [|left; by apply bool_decide_eq_false_2].
    right. destruct (userControlCheck st) eqn:Hc; [|done].
    pose proof (Hfirst eq_refl s Hs). congruence.
Qed.

Lemma map_eq_lookup {B : Type} (f : Snake → B) (l l' : list Snake) (k : nat)
    (s s' : Snake) :
  map f l' = map f l → l !! k = Some s → l' !! k = Some s' → f s' = f s.
Proof.
  intros Heq Hs Hs'. apply (map_lookup f) in Hs, Hs'. rewrite Heq in Hs'. congruence.
Qed.

Lemma state_ext (s t : State) :
  snakes s = snakes t → food s = food t → foodColor s = foodColor t →
  gameInterval s = gameInterval t → userSnakeId s = userSnakeId t →
  userBlockedCounter s = userBlockedCounter t →
  userControlCheck s = userControlCheck t → s = t.
Proof. destruct s, t; simpl; congruence. Qed.

(** What the checkbox listener does to a state at rest. *)
Lemma change_snake (b : bool) (st : State) (k : nat) (s : Snake) :
  modeInv st → snakes st !! k = Some s →
  snakes (change b st) !! k
  = Some (with_userControlled (bool_decide (k = 0%nat) && b) s).
Proof.
  intros Hmode Hs.
  destruct (change_frame b st) as (_ & _ & _ & _ & Hcheck & Hb & Hc & Hd & Hi).
  destruct (lookup_lt_is_Some_2 (snakes (change b st)) k) as [s' Hs'].
  { rewrite <- (length_map body), Hb, length_map. by eapply lookup_lt_Some. }
  pose proof (modeInv_flags _ _ _ (modeInv_change b st Hmode) Hs') as Hflag.
  rewrite Hcheck in Hflag.
  pose proof (map_eq_lookup body _ _ _ _ _ Hb Hs Hs').
  pose proof (map_eq_lookup color _ _ _ _ _ Hc Hs Hs').
  pose proof (map_eq_lookup direction _ _ _ _ _ Hd Hs Hs').
  pose proof (map_eq_lookup snakeId _ _ _ _ _ Hi Hs Hs').
  rewrite Hs'. f_equal. destruct s, s'; simpl in *. unfold with_userControlled.
  simpl. congruence.
Qed.

Lemma change_userSnakeId (b : bool) (st : State) :
  modeInv st →
  userSnakeId (change b st)
  = (if b then match snakes st with [] => userSnakeId st | _ :: _ => Some 0%nat end
     else userSnakeId st).
Proof.
  intros Hmode. unfold change. destruct b.
  - destruct (findDesignated (with_check true st)) as [[i s]|] eqn:Hfind.
    + apply (findDesignated_first st i s Hmode) in Hfind as [-> Huid].
      simpl. destruct (snakes st); [|done].
      done.
    + simpl. destruct (snakes st) as [|first l] eqn:Hl; [done|]. simpl.
      destruct Hmode as (_ & Hid & _). f_equal. apply (Hid 0%nat first).
      by rewrite Hl.
  - by destruct (findDesignated (with_check false st)) as [[i s]|].
Qed.

Lemma change_length (b : bool) (st : State) :
  length (snakes (change b st)) = length (snakes st).
Proof.
  destruct (change_frame b st) as (_ & _ & _ & _ & _ & Hb & _).
  by rewrite <- (length_map body), Hb, length_map.
Qed.

(** X10.  From a state at rest the checkbox listener sets the
    checkbox, flags the first snake as user-controlled when the box is
    ticked and no snake when it is cleared, designates the first snake
    when the box is ticked and a snake is on the board, and changes
    nothing else; a second event with the same value changes nothing
    more, and clearing and ticking the box, or ticking and clearing it,
    gives the snakes back as they were. *)
Theorem change_flags_the_first_snake_only (b : bool) (st : State) :
  reachable st →
  change b st
  = with_userSnakeId
      (if b then match snakes st with [] => userSnakeId st | _ :: _ => Some 0%nat end
       else userSnakeId st)
      (with_snakes (snakes (change b st)) (with_check b st))
  ∧ length (snakes (change b st)) = length (snakes st)
  ∧ (∀ k s, snakes st !! k = Some s →
       snakes (change b st) !! k
       = Some (with_userControlled (bool_decide (k = 0%nat) && b) s))
  ∧ change b (change b st) = change b st
  ∧ snakes (change (userControlCheck st) (change (negb (userControlCheck st)) st))
    = snakes st.
Proof.
  intros Hreach. pose proof (reachable_modeInv st Hreach) as Hmode.
  split; [|split; [apply change_length|split; [intros k s; by apply change_snake|split]]].
  - destruct (change_frame b st) as (Hf & Hfc & Hrun & Hctr & Hcheck & _).
    apply state_ext; simpl; try done. by apply change_userSnakeId.
  - pose proof (modeInv_change b st Hmode) as Hmode1.
    destruct (change_frame b (change b st)) as (Hf & Hfc & Hrun & Hctr & Hcheck & _).
    destruct (change_frame b st) as (_ & _ & _ & _ & Hcheck0 & _).
    apply state_ext; try done; [| |congruence].
    + apply list_eq_same_length with (length (snakes (change b st)));
        [done|apply change_length|].
      intros k s1 s2 _ H1 H2.
      rewrite (change_snake b _ k s2 Hmode1 H2) in H1. injection H1 as <-.
      pose proof (modeInv_flags _ _ _ Hmode1 H2) as Hflag. rewrite Hcheck0 in Hflag.
      rewrite <- Hflag. by destruct s2.
    + rewrite (change_userSnakeId b _ Hmode1), (change_userSnakeId b st Hmode).
      destruct b; [|done].
      pose proof (change_length true st) as Hlen.
      destruct (snakes (change true st)), (snakes st); simpl in Hlen; done.
  - set (c := userControlCheck st).
    pose proof (modeInv_change (negb c) st Hmode) as Hmode1.
    apply list_eq_same_length with (length (snakes st)); [done| |].
    { by rewrite !change_length. }
    intros k s1 s2 _ H1 H2.
    rewrite (change_snake c _ k _ Hmode1 (change_snake (negb c) st k s2 Hmode H2)) in H1.
    injection H1 as <-.
    pose proof (modeInv_flags _ _ _ Hmode H2) as Hflag. fold c in Hflag.
    unfold with_userControlled. simpl. rewrite <- Hflag. by destruct s2.
Qed.

(** ** Further properties: when a tick throws *)

Lemma stepSnake_TypeError (i : nat) (st : State) (m : bool) (rs : list Rand) :
  stepSnake i (st, m, rs) = TypeError →
  ∃ s, snakes st !! i = Some s ∧ body s = [].
Proof.
  unfold stepSnake.
  destruct (snakes st !! i) as [snake|] eqn:Hs; [|done].
  destruct (body snake) as [|head rest] eqn:Hbody; [intros _; by exists snake|].
  destruct (userControlled snake).
  - split_if; [done|].
    pose proof (commitMove_not_TypeError i
      (mkCell (cell_x head + cell_x (direction snake))
              (cell_y head + cell_y (direction snake))) st rs) as Hc.
    simpl. by destruct (commitMove i _ st rs) as [[st1 rs1]| |].
  - assert (Hg : getNextDirection st i snake ≠ TypeError)
      by (apply getNextDirection_not_TypeError; congruence).
    destruct (getNextDirection st i snake) as [[d|]| |]; simpl; try done.
    pose proof (commitMove_not_TypeError i
      (mkCell (cell_x head + cell_x d) (cell_y head + cell_y d)) st rs) as Hc.
    by destruct (commitMove i _ st rs) as [[st1 rs1]| |].
Qed.

Lemma stepSnake_bodies (i : nat) (st st' : State) (m m' : bool) (rs rs' : list Rand) :
  Forall (fun s => body s ≠ []) (snakes st) →
  stepSnake i (st, m, rs) = Done (st', m', rs') →
  Forall (fun s => body s ≠ []) (snakes st').
Proof.
  intros Hbodies Hstep. rewrite Forall_lookup in *. intros k s' Hs'.
  pose proof (stepSnake_frame _ _ _ _ _ _ _ Hstep) as (_ & f & Hf & _).
  destruct (decide (i = k)) as [->|Hne].
  - rewrite Hf, list_lookup_alter_eq in Hs'.
    destruct (snakes st !! k) as [s|] eqn:Hs; [|done].
    destruct (stepSnake_motion _ _ _ _ _ _ _ _ Hstep Hs)
      as (s'' & Hs'' & _ & Hrel).
    rewrite Hf, list_lookup_alter_eq, Hs in Hs''. simpl in Hs', Hs''.
    assert (s'' = s') as -> by congruence.
    destruct Hrel as [->|((head & rest & _ & _ & [Hb|Hb]) & _)];
      [by eapply Hbodies|by rewrite Hb..].
  - rewrite Hf, list_lookup_alter_ne in Hs' by done. by eapply Hbodies.
Qed.

Lemma forSnakes_bodies (idxs : list nat) (st : State) (m : bool) (rs : list Rand) :
  Forall (fun s => body s ≠ []) (snakes st) →
  forSnakes idxs (st, m, rs) ≠ TypeError
  ∧ ∀ st' m' rs', forSnakes idxs (st, m, rs) = Done (st', m', rs') →
      Forall (fun s => body s ≠ []) (snakes st').
Proof.
  revert st m rs. induction idxs as [|i idxs IH]; intros st m rs Hbodies; simpl.
  - split; [done|]. by intros st' m' rs' [= <- <- <-].
  - destruct (stepSnake i (st, m, rs)) as [[[st1 m1] rs1]| |] eqn:Hstep; simpl.
    + apply IH. by eapply stepSnake_bodies.
    + apply stepSnake_TypeError in Hstep as (s & Hs & Hb).
      rewrite Forall_lookup in Hbodies. by destruct (Hbodies i s Hs).
    + by split.
Qed.

(** X11.  A tick throws only on a snake without a block: with a block
    in every body it ends or is still drawing a food cell, as from
    every state at rest; it throws when the first snake has no
    block. *)
Theorem tick_throws_only_on_an_empty_body (st : State) (rs : list Rand) :
  (Forall (fun s => body s ≠ []) (snakes st) → gameLoop st rs ≠ TypeError)
  ∧ (reachable st → gameLoop st rs ≠ TypeError)
  ∧ (∀ s l, snakes st = s :: l → body s = [] → gameLoop st rs = TypeError).
Proof.
  assert (Hbodies : Forall (fun s => body s ≠ []) (snakes st) →
                    gameLoop st rs ≠ TypeError).
  { intros Hb. unfold gameLoop, moveSnakes.
    destruct (forSnakes_bodies (seq 0 (length (snakes st))) st false rs Hb)
      as [Hne Hafter].
    destruct (forSnakes _ (st, false, rs)) as [[[st1 m1] rs1]| |]; simpl; try done.
    specialize (Hafter st1 m1 rs1 eq_refl).
    unfold gameOverCheck. destruct (userControlCheck st1).
    - destruct (findUserSnake st1) as [[i u]|] eqn:Hu; [|done].
      apply findUserSnake_Some in Hu as [Hu _].
      rewrite Forall_lookup in Hafter. pose proof (Hafter i u Hu) as Hb'.
      destruct (body u) as [|head rest]; [done|].
      destruct (safeMoves st1 i head); [|done].
      by destruct (_ >=? _).
    - by destruct (negb m1). }
  split; [done|]. split.
  - intros Hreach. by apply Hbodies, reachable_Inv.
  - intros s l Hl Hb. unfold gameLoop, moveSnakes. rewrite Hl. simpl.
    unfold stepSnake. rewrite Hl. simpl. by rewrite Hb.
Qed.

(** ** Further properties: the first version of the tick *)

Arguments stepSnake_v1 : simpl never.

Lemma stepSnake_v1_eq (i : nat) (st : State) (m : bool) (rs : list Rand) :
  (∀ s, snakes st !! i = Some s → userControlled s = false) →
  stepSnake i (st, m, rs) = stepSnake_v1 i (st, m, rs).
Proof.
  intros Hflag. unfold stepSnake, stepSnake_v1.
  destruct (snakes st !! i) as [snake|] eqn:Hs; [|done].
  rewrite (Hflag snake eq_refl).
  destruct (body snake) as [|head rest] eqn:Hb; [|done].
  unfold getNextDirection. by rewrite Hb.
Qed.

Lemma forSnakes_v1_eq (idxs : list nat) (st : State) (m : bool) (rs : list Rand) :
  Forall (fun s => userControlled s = false) (snakes st) →
  forSnakes idxs (st, m, rs) = forSnakes_v1 idxs (st, m, rs).
Proof.
  revert st m rs. induction idxs as [|i idxs IH]; intros st m rs Hflags; simpl;
    [done|].
  rewrite <- stepSnake_v1_eq.
  2:{ intros s Hs. rewrite Forall_lookup in Hflags. by eapply Hflags. }
  destruct (stepSnake i (st, m, rs)) as [[[st1 m1] rs1]| |] eqn:Hstep; simpl;
    try done.
  apply IH. apply stepSnake_frame in Hstep as (_ & f & -> & Hf).
  apply Forall_alter; [done|]. intros s _ Hu.
  destruct (Hf s) as (_ & _ & ->). done.
Qed.

(** X12.  With the checkbox off and no snake user-controlled, the tick
    is the tick of the first version of the script, which has no user
    control: the same result on every supply of random numbers. *)
Theorem tick_without_user_control_is_the_first_version (st : State) (rs : list Rand) :
  userControlCheck st = false →
  Forall (fun s => userControlled s = false) (snakes st) →
  gameLoop st rs = gameLoop_v1 st rs.
Proof.
  intros Hcheck Hflags. unfold gameLoop, moveSnakes, gameLoop_v1.
  rewrite <- forSnakes_v1_eq by done.
  destruct (forSnakes _ (st, false, rs)) as [[[st1 m1] rs1]| |] eqn:Hloop; simpl;
    try done.
  apply forSnakes_frame in Hloop as ((_ & _ & _ & _ & Hc) & _).
  unfold gameOverCheck. rewrite Hc, Hcheck. by destruct (negb m1).
Qed.

(** ** Further properties: how many blocks fit on the board *)

Lemma length_bind_const {A B : Type} (f : A → list B) (n : nat) (l : list A) :
  (∀ x, length (f x) = n) → length (l ≫= f) = (length l * n)%nat.
Proof.
  intros Hf. induction l as [|x l IH]; [done|].
  rewrite bind_cons, length_app, Hf, IH. simpl. lia.
Qed.

(** Cells of the board that are pairwise different are no more than
    the board has. *)
Lemma cells_bound (l : list Cell) :
  0 <= gridWidth → 0 <= gridHeight → NoDup l → Forall inGrid l →
  Z.of_nat (length l) <= gridWidth * gridHeight.
Proof.
  intros Hw Hh Hnd Hin.
  set (grid := seqZ 0 gridWidth ≫= (fun x => mkCell x <$> seqZ 0 gridHeight)).
  assert (Hsub : l ⊆+ grid).
  { apply NoDup_submseteq; [done|]. intros [x y] Hc.
    rewrite Forall_forall in Hin. destruct (Hin _ Hc) as [Hx Hy]. simpl in *.
    apply list_elem_of_bind. exists x. split; [|apply elem_of_seqZ; lia].
    apply list_elem_of_fmap. exists y. split; [done|apply elem_of_seqZ; lia]. }
  apply submseteq_length in Hsub. unfold grid in Hsub.
  rewrite (length_bind_const _ (Z.to_nat gridHeight)) in Hsub.
  2:{ intros x. by rewrite length_fmap, length_seqZ. }
  rewrite length_seqZ in Hsub. apply Nat2Z.inj_le in Hsub.
  rewrite Nat2Z.inj_mul, !Z2Nat.id in Hsub by lia. done.
Qed.

Lemma length_segments_ge (l : list Snake) :
  Forall (fun s => body s ≠ []) l → (length l <= length (segments l))%nat.
Proof.
  unfold segments. induction 1 as [|s l Hs _ IH]; [done|].
  rewrite bind_cons, length_app. destruct (body s); [done|]. simpl in *. lia.
Qed.

Lemma blocks_bound (st : State) :
  0 < gridWidth → 0 < gridHeight → Inv st → onBoard st →
  Z.of_nat (length (segments (snakes st))) < gridWidth * gridHeight.
Proof.
  intros Hw Hh (Hnd & Hfood & _) [Hseg Hin].
  pose proof (cells_bound (foodCell st :: segments (snakes st))) as Hbound.
  simpl in Hbound. cut (Z.of_nat (S (length (segments (snakes st))))
                        <= gridWidth * gridHeight); [lia|].
  apply Hbound; [lia|lia|by constructor|by constructor].
Qed.

(** X13.  In every state at rest the blocks of the snakes are fewer
    than the cells of the board, the food having a cell of its own, and
    the snakes are no more than their blocks. *)
Theorem blocks_are_fewer_than_cells (st : State) :
  0 < gridWidth → 0 < gridHeight → reachable st →
  Z.of_nat (length (segments (snakes st))) < gridWidth * gridHeight
  ∧ (length (snakes st) <= length (segments (snakes st)))%nat.
Proof.
  intros Hw Hh Hreach. split.
  - apply blocks_bound; [done|done|by apply reachable_Inv|by apply reachable_onBoard].
  - apply length_segments_ge. by apply reachable_Inv.
Qed.

Lemma randomColor_not_TypeError (l : list Snake) (rs : list Rand) :
  randomColor l rs ≠ TypeError.
Proof. induction rs as [|r rs IH]; simpl; [done|]. by split_if. Qed.

Lemma createSnake_not_TypeError (i : nat) (st : State) (rs : list Rand) :
  createSnake i st rs ≠ TypeError.
Proof.
  unfold createSnake.
  assert (Hc : match presetColors !! i with
               | Some c => Done (c, rs)
               | None => randomColor (snakes st) rs
               end ≠ TypeError).
  { destruct (presetColors !! i); [done|apply randomColor_not_TypeError]. }
  destruct (match presetColors !! i with
            | Some c => Done (c, rs)
            | None => randomColor (snakes st) rs
            end) as [[c rs1]| |]; simpl; try done.
  destruct (bool_decide (i = 0%nat) && userControlCheck st); simpl.
  - pose proof (sampleFreeCell_not_TypeError (snakes st) rs1) as Hp.
    destruct (sampleFreeCell (snakes st) rs1) as [[pos rs2]| |]; simpl; try done.
    by destruct rs2.
  - pose proof (sampleFreeCell_not_TypeError (snakes st) rs1) as Hp.
    destruct (sampleFreeCell (snakes st) rs1) as [[pos rs2]| |]; simpl; try done.
    by destruct rs2.
Qed.

Lemma createSnakes_loop_not_TypeError (n i : nat) (st : State) (rs : list Rand) :
  createSnakes_loop n i st rs ≠ TypeError.
Proof.
  revert i st rs. induction n as [|n IH]; intros i st rs; simpl; [done|].
  pose proof (createSnake_not_TypeError i st rs) as Hone.
  destruct (createSnake i st rs) as [[st1 rs1]| |]; simpl; [apply IH|done..].
Qed.

Lemma startClick_not_TypeError (parsed : option Z) (st : State) (rs : list Rand) :
  startClick parsed st rs ≠ TypeError.
Proof.
  unfold startClick, createSnakes.
  pose proof (createSnakes_loop_not_TypeError
    (Z.to_nat match parsed with
              | Some n => if n =? 0 then 1 else n
              | None => 1
              end) 0 (with_counter 0 (with_snakes [] st)) rs) as Hloop.
  destruct (createSnakes_loop _ 0 _ rs) as [[st1 rs1]| |]; simpl; try done.
  unfold generateFood.
  pose proof (sampleFreeCell_not_TypeError
    (snakes (with_foodColor
       match find (fun c => negb (existsb (String.eqb c) (map color (snakes st1))))
               foodCandidates with
       | Some c => c
       | None => "yellow"
       end st1)) rs1) as Hp.
  by destruct (sampleFreeCell _ rs1) as [[c rs2]| |].
Qed.

(** X14.  A start that asks for as many snakes as the board has cells,
    or more, never gets to the end of its placement loops: whatever
    random numbers are drawn, the listener is still looping for a free
    cell. *)
Theorem start_with_a_snake_per_cell_never_ends (n : Z) (st : State) (rs : list Rand) :
  0 < gridWidth → 0 < gridHeight → gridWidth * gridHeight <= n →
  startClick (Some n) st rs = Pending.
Proof.
  intros Hw Hh Hn.
  pose proof (startClick_not_TypeError (Some n) st rs) as Hne.
  destruct (startClick (Some n) st rs) as [[st' rs']| |] eqn:Hstart; try done.
  exfalso.
  pose proof (startClick_Inv _ _ _ _ _ Hstart) as HInv.
  pose proof (onBoard_start Hw Hh _ _ _ _ _ Hstart) as Hboard.
  pose proof (startClick_count _ _ _ _ _ Hstart) as Hcount.
  pose proof (blocks_bound st' Hw Hh HInv Hboard) as Hbound.
  pose proof (length_segments_ge (snakes st') (proj2 (proj2 HInv))) as Hge.
  assert (Hn0 : (n =? 0) = false) by (apply Z.eqb_neq; nia).
  simpl in Hcount. rewrite Hn0 in Hcount. nia.
Qed.

(** ** Legal moves on the board *)

Lemma unitStep_iff (dir : Cell) : unitStep dir ↔ dir ∈ possibleDirections.
Proof.
  unfold unitStep, possibleDirections. destruct dir as [x y]. simpl.
  rewrite !elem_of_cons, elem_of_nil. split.
  - intros Hunit.
    assert (Hcases : (x = 1 ∧ y = 0) ∨ (x = -1 ∧ y = 0) ∨ (x = 0 ∧ y = 1)
                     ∨ (x = 0 ∧ y = -1)) by lia.
    destruct Hcases as [[-> ->]|[[-> ->]|[[-> ->]|[-> ->]]]]; auto.
  - intros [[= -> ->]|[[= -> ->]|[[= -> ->]|[[= -> ->]|[]]]]]; simpl; lia.
Qed.

(** The occupancy test with the snake of index [i] to ignore answers
    whether the cell is open to that snake. *)
Lemma openTo_iff (st : State) (i : nat) (u : Snake) (c : Cell) :
  snakes st !! i = Some u →
  (openTo st i c ↔ isCellOccupied st (cell_x c) (cell_y c) (Some i) = false).
Proof.
  intros Hu. rewrite <- not_true_iff_false, (isCellOccupied_ignore st c i u Hu).
  rewrite elem_of_app, elem_of_segments_delete. unfold openTo. split.
  - intros Hopen [Hown|(j & sj & Hne & Hj & Hc)].
    + apply (Hopen i u Hu). by rewrite decide_True.
    + apply (Hopen j sj Hj). by rewrite decide_False.
  - intros Hfree j s Hj Hc. apply Hfree.
    destruct (decide (j = i)) as [->|Hne].
    + left. congruence.
    + right. by exists j, s.
Qed.

(** The safe moves of the game-over test are the legal moves. *)
Lemma safeMoves_legal (st : State) (i : nat) (u : Snake) (head dir : Cell) :
  snakes st !! i = Some u →
  (dir ∈ safeMoves st i head ↔ legalMove st i head dir).
Proof.
  intros Hu. unfold safeMoves, legalMove.
  rewrite list_elem_of_filter, <- unitStep_iff, (openTo_iff st i u _ Hu).
  unfold prospective. simpl.
  rewrite !andb_true_iff, negb_true_iff, !Z.geb_le, !Z.ltb_lt. tauto.
Qed.

(** The safe directions of the planner are its legal moves. *)
Lemma safeDirections_plannerMove (st : State) (i : nat) (s : Snake) (head dir : Cell) :
  snakes st !! i = Some s →
  (dir ∈ safeDirections st i s head ↔ plannerMove st i s head dir).
Proof.
  intros Hs. unfold safeDirections, plannerMove, legalMove.
  rewrite list_elem_of_filter, (openTo_iff st i s _ Hs).
  unfold prospective. simpl.
  rewrite negb_true_iff, !orb_false_iff, Z.geb_leb, (Z.geb_leb _ gridHeight).
  rewrite !Z.ltb_ge, !Z.leb_gt, unitStep_iff.
  assert (Hcand : dir ∈ candidates s
                  ↔ dir ∈ possibleDirections
                    ∧ ((1 < length (body s))%nat → dir ≠ reverse (direction s))).
  { unfold candidates. destruct (1 <? length (body s))%nat eqn:Hlen.
    - apply Nat.ltb_lt in Hlen. rewrite list_elem_of_filter, negb_true_iff.
      rewrite <- not_true_iff_false, isReverse_spec. tauto.
    - apply Nat.ltb_ge in Hlen. split; [intros ?; split; [done|lia]|tauto]. }
  rewrite Hcand. split.
  - intros ((((Hx0 & Hx1) & Hy0) & Hy1) & Hfree) . tauto.
  - tauto.
Qed.

(** The state the loop over the snakes leaves has the snakes of the
    state it started from, flag by flag. *)
Lemma moveSnakes_back (st mid : State) (m : bool) (rs rs' : list Rand)
    (k : nat) (s' : Snake) :
  moveSnakes st rs = Done (mid, m, rs') → snakes mid !! k = Some s' →
  ∃ s, snakes st !! k = Some s ∧ sameIdentity s s'.
Proof.
  intros Hmove Hs'. unfold moveSnakes in Hmove.
  apply forSnakes_frame in Hmove as (_ & Hlen & _ & Hident).
  destruct (lookup_lt_is_Some_2 (snakes st) k) as [s Hs].
  { rewrite <- Hlen. by eapply lookup_lt_Some. }
  destruct (Hident k s Hs) as (s'' & Hs'' & Hid).
  exists s. split; [done|]. congruence.
Qed.

Lemma moveSnakes_human (st mid : State) (m : bool) (rs rs' : list Rand)
    (k : nat) (s' : Snake) :
  modeInv st → moveSnakes st rs = Done (mid, m, rs') →
  snakes mid !! k = Some s' → userControlled s' = true → k = 0%nat.
Proof.
  intros Hmode Hmove Hs' Hflag.
  destruct (moveSnakes_back _ _ _ _ _ _ _ Hmove Hs') as (s & Hs & _ & _ & Hu).
  destruct Hmode as (_ & _ & Hfirst & _).
  destruct (Hfirst k s Hs) as [-> _]; [congruence|done].
Qed.

(** On a state whose only user-controlled snake can be the first, the
    game-over test finds no safe move exactly when the user-controlled
    snake has no legal move on the board, and finds one exactly when it
    has one. *)
Lemma test_reads_the_board (mid : State) :
  (∀ k s, snakes mid !! k = Some s → userControlled s = true → k = 0%nat) →
  (testFindsNone mid ↔ humanBlockedAt mid)
  ∧ (testFindsSome mid ↔ humanFreeAt mid).
Proof.
  intros Honly.
  assert (Hfind : ∀ i u, snakes mid !! i = Some u → userControlled u = true →
            findUserSnake mid = Some (i, u)).
  { intros i u Hu Hflag. pose proof (Honly i u Hu Hflag) as ->.
    apply list_find_Some. split; [done|]. split; [done|]. intros; lia. }
  split; split.
  - intros (i & u & head & rest & Hu & Hb & Hsafe).
    apply findUserSnake_Some in Hu as [Hu Hflag].
    exists i, u, head, rest. split; [done|]. split; [done|]. split; [done|].
    intros dir Hlegal. apply (safeMoves_legal mid i u head dir Hu) in Hlegal.
    rewrite Hsafe in Hlegal. by apply elem_of_nil in Hlegal.
  - intros (i & u & head & rest & Hu & Hflag & Hb & Hnone).
    exists i, u, head, rest. split; [by apply Hfind|]. split; [done|].
    destruct (safeMoves mid i head) as [|d l] eqn:Hsafe; [done|].
    destruct (Hnone d). apply (safeMoves_legal mid i u head d Hu).
    rewrite Hsafe. left.
  - intros (i & u & head & rest & Hu & Hb & Hsafe).
    apply findUserSnake_Some in Hu as [Hu Hflag].
    destruct (safeMoves mid i head) as [|d l] eqn:Hl; [done|].
    exists i, u, head, rest, d. split; [done|]. split; [done|]. split; [done|].
    apply (safeMoves_legal mid i u head d Hu). rewrite Hl. left.
  - intros (i & u & head & rest & dir & Hu & Hflag & Hb & Hlegal).
    exists i, u, head, rest. split; [by apply Hfind|]. split; [done|].
    apply (safeMoves_legal mid i u head dir Hu) in Hlegal.
    intros Hnil. rewrite Hnil in Hlegal. by apply elem_of_nil in Hlegal.
Qed.

(** A tick with the checkbox on, read on the board. *)
Lemma tick_human_board (st mid st' : State) (rs rs' : list Rand) :
  modeInv st → userControlCheck st = true → tick st rs mid st' rs' →
  modeInv st' ∧ userControlCheck st' = true ∧ snakes st' = snakes mid
  ∧ (humanBlockedAt mid →
       userBlockedCounter st' = userBlockedCounter st + 1
       ∧ gameInterval st' = (if userBlockedCounter st + 1 >=? 3 then false
                             else gameInterval st))
  ∧ (humanFreeAt mid →
       userBlockedCounter st' = 0 ∧ gameInterval st' = gameInterval st).
Proof.
  intros Hmode Hcheck Htick.
  pose proof Htick as (m & Hmove & Hloop).
  destruct (test_reads_the_board mid) as [Hnone Hsome].
  { intros k s. by apply (moveSnakes_human st mid m rs rs'). }
  destruct (tick_human _ _ _ _ _ Hcheck Htick) as (Hk & Hsn & Hblocked & Hfree).
  split; [by eapply modeInv_tick|]. split; [done|]. split; [done|]. split.
  - intros Hb. by apply Hblocked, Hnone.
  - intros Hf. by apply Hfree, Hsome.
Qed.

(** With the checkbox on and a snake on the board, the user-controlled
    snake of the state the loop leaves is blocked or free. *)
Lemma human_blocked_or_free (st mid : State) (m : bool) (rs rs' : list Rand) :
  reachable st → userControlCheck st = true → snakes st ≠ [] →
  moveSnakes st rs = Done (mid, m, rs') →
  humanBlockedAt mid ∨ humanFreeAt mid.
Proof.
  intros Hreach Hcheck Hne Hmove.
  pose proof (reachable_modeInv st Hreach) as Hmode.
  destruct (test_reads_the_board mid) as [Hnone Hsome].
  { intros k s. by apply (moveSnakes_human st mid m rs rs'). }
  assert (HInv : Inv mid).
  { apply (forSnakes_Inv _ _ _ _ _ _ _ (reachable_Inv st Hreach) Hmove). }
  destruct (snakes st) as [|s0 l] eqn:Hl; [done|].
  assert (Hs0 : snakes st !! 0%nat = Some s0) by by rewrite Hl.
  pose proof (modeInv_flags st 0 s0 Hmode Hs0) as Hflag0.
  rewrite Hcheck in Hflag0. simpl in Hflag0.
  pose proof Hmove as Hframe. unfold moveSnakes in Hframe.
  apply forSnakes_frame in Hframe as (_ & _ & _ & Hident).
  destruct (Hident 0%nat s0 Hs0) as (u & Hu & _ & _ & Hflag).
  rewrite Hflag0 in Hflag.
  assert (Hfind : findUserSnake mid = Some (0%nat, u)).
  { apply list_find_Some. split; [done|]. split; [done|]. intros; lia. }
  destruct HInv as (_ & _ & Hbodies). rewrite Forall_lookup in Hbodies.
  pose proof (Hbodies 0%nat u Hu) as Hb.
  destruct (body u) as [|head rest] eqn:Hbody; [done|].
  destruct (safeMoves mid 0 head) as [|d ds] eqn:Hsafe.
  - left. apply Hnone. by exists 0%nat, u, head, rest.
  - right. apply Hsome. exists 0%nat, u, head, rest.
    split; [done|]. split; [done|]. by rewrite Hsafe.
Qed.

(** C5.  With the checkbox on, every tick tests after the moves, from
    the head the user-controlled snake then has, whether that snake has
    a legal move on the board: a step of one cell to a cell inside the
    walls that no block is on, its own last block not counted.  Without
    one the counter goes up by one and the timer is stopped exactly
    when the counter has reached 3; with one the counter is back at 0
    and the game goes on; with a snake on the board one of the two is
    the case.  So from a counter of 0, two ticks without a legal move
    leave the game running, a third tick with a legal move leaves it
    running with the counter at 0, and a third tick without one ends
    it. *)
Theorem human_lockout_ends_at_three (st mid : State) (anyMoved : bool)
    (rs rs' : list Rand) :
  reachable st → gameInterval st = true → userControlCheck st = true →
  moveSnakes st rs = Done (mid, anyMoved, rs') →
  ∃ st', gameLoop st rs = Done (st', rs') ∧ snakes st' = snakes mid
    ∧ (snakes st ≠ [] → humanBlockedAt mid ∨ humanFreeAt mid)
    ∧ (humanBlockedAt mid →
         userBlockedCounter st' = userBlockedCounter st + 1
         ∧ (gameInterval st' = false ↔ userBlockedCounter st' = 3))
    ∧ (humanFreeAt mid →
         userBlockedCounter st' = 0 ∧ gameInterval st' = true)
    ∧ (userBlockedCounter st = 0 → humanBlockedAt mid →
         ∀ rs1 mid2 st2 rs2, tick st' rs1 mid2 st2 rs2 → humanBlockedAt mid2 →
           gameInterval st' = true ∧ gameInterval st2 = true
           ∧ ∀ rs3 mid3 st3 rs4, tick st2 rs3 mid3 st3 rs4 →
               (humanFreeAt mid3 →
                  gameInterval st3 = true ∧ userBlockedCounter st3 = 0)
               ∧ (humanBlockedAt mid3 → gameInterval st3 = false)).
Proof.
  intros Hreach Hrun Hcheck Hmove.
  pose proof (reachable_counter st Hreach) as [Hc0 Hc3]. specialize (Hc3 Hrun).
  pose proof (reachable_modeInv st Hreach) as Hmode.
  assert (HInv : Inv mid).
  { apply (forSnakes_Inv _ _ _ _ _ _ _ (reachable_Inv st Hreach) Hmove). }
  pose proof (gameOverCheck_not_TypeError mid anyMoved HInv) as Hne.
  pose proof (gameLoop_unfold _ _ _ _ _ Hmove) as Hloop.
  destruct (gameOverCheck mid anyMoved) as [st'| |] eqn:Hover; try done.
  - simpl in Hloop. exists st'.
    assert (Htick : tick st rs mid st' rs') by (by exists anyMoved).
    destruct (tick_human_board _ _ _ _ _ Hmode Hcheck Htick)
      as (Hmode1 & Hk1 & Hsn & Hblocked & Hfree).
    split; [done|]. split; [done|]. split; [|split; [|split]].
    + intros Hsome. by eapply human_blocked_or_free.
    + intros Hb. destruct (Hblocked Hb) as [-> ->]. split; [done|].
      destruct (userBlockedCounter st + 1 >=? 3) eqn:E; [split; [lia|done]|].
      rewrite Hrun. split; [done|lia].
    + intros Hf. destruct (Hfree Hf) as [-> ->]. done.
    + intros Hzero Hb rs1 mid2 st2 rs2 Htick2 Hb2.
      destruct (Hblocked Hb) as [Hc1 Hi1]. rewrite Hzero in Hc1, Hi1.
      simpl in Hc1, Hi1. rewrite Hrun in Hi1.
      destruct (tick_human_board _ _ _ _ _ Hmode1 Hk1 Htick2)
        as (Hmode2 & Hk2 & _ & Hblocked2 & _).
      destruct (Hblocked2 Hb2) as [Hc2 Hi2]. rewrite Hc1 in Hc2, Hi2.
      simpl in Hc2, Hi2. rewrite Hi1 in Hi2.
      split; [done|]. split; [done|].
      intros rs3 mid3 st3 rs4 Htick3.
      destruct (tick_human_board _ _ _ _ _ Hmode2 Hk2 Htick3)
        as (_ & _ & _ & Hblocked3 & Hfree3).
      split.
      * intros Hf3. destruct (Hfree3 Hf3) as [-> ->]. done.
      * intros Hb3. destruct (Hblocked3 Hb3) as [_ ->]. by rewrite Hc2.
  - by apply gameOverCheck_not_Pending in Hover.
Qed.

(** C9.  With the checkbox on, a tick after whose moves the
    user-controlled snake has a legal move on the board leaves the
    timer running, whether or not any snake moved in it, the
    autonomous snakes included; a tick can stop the timer only when
    the user-controlled snake has no legal move. *)
Theorem human_with_a_move_keeps_playing (st mid : State) (anyMoved : bool)
    (rs rs' : list Rand) :
  reachable st → userControlCheck st = true → gameInterval st = true →
  moveSnakes st rs = Done (mid, anyMoved, rs') →
  (humanFreeAt mid →
     ∃ st', gameLoop st rs = Done (st', rs') ∧ gameInterval st' = true
            ∧ snakes st' = snakes mid)
  ∧ (∀ st', gameLoop st rs = Done (st', rs') → gameInterval st' = false →
       humanBlockedAt mid).
Proof.
  intros Hreach Hcheck Hrun Hmove.
  pose proof (reachable_modeInv st Hreach) as Hmode.
  destruct (test_reads_the_board mid) as [Hnone Hsome].
  { intros k s. by apply (moveSnakes_human st mid anyMoved rs rs'). }
  pose proof (gameLoop_unfold _ _ _ _ _ Hmove) as Hloop.
  pose proof (moveSnakes_frame _ _ _ _ _ Hmove) as (_ & Hi & _ & _ & Hk).
  rewrite Hcheck in Hk. rewrite Hrun in Hi. split.
  - intros Hf. apply Hsome in Hf as (i & u & head & rest & Hu & Hb & Hsafe).
    destruct (gameOverCheck_human mid anyMoved i u head rest Hk Hu Hb) as [_ Hfree].
    rewrite (Hfree Hsafe) in Hloop. simpl in Hloop. eauto.
  - intros st' Hdone Hend. rewrite Hdone in Hloop. apply Hnone.
    unfold gameOverCheck in Hloop. rewrite Hk in Hloop.
    destruct (findUserSnake mid) as [[i u]|] eqn:Hu.
    + destruct (body u) as [|head rest] eqn:Hb; [done|].
      destruct (safeMoves mid i head) eqn:Hsafe.
      * by exists i, u, head, rest.
      * simpl in Hloop. injection Hloop as ->. simpl in Hend. congruence.
    + simpl in Hloop. injection Hloop as ->. congruence.
Qed.

(** ** The end of the game without a human snake *)

Lemma getNextDirection_None (st : State) (i : nat) (s : Snake)
    (head : Cell) (rest : list Cell) :
  body s = head :: rest →
  (getNextDirection st i s = Done None ↔ safeDirections st i s head = []).
Proof.
  intros Hb. unfold getNextDirection. rewrite Hb.
  destruct (safeDirections st i s head) as [|d0 safe]; [done|].
  assert (Hperm := sortBy_Permutation
            (fun a b => dist st head a - dist st head b) (d0 :: safe)).
  revert Hperm.
  generalize (sortBy (fun a b => dist st head a - dist st head b) (d0 :: safe)).
  intros [|d1 sorted] Hperm; [|done].
  by apply Permutation_nil_cons in Hperm.
Qed.

(** The turn of an autonomous snake: without a safe direction nothing
    changes; with one the snake moves, and its body is another. *)
Lemma stepSnake_autonomous (i : nat) (st : State) (m : bool) (rs : list Rand)
    (s : Snake) (head : Cell) (rest : list Cell) :
  snakes st !! i = Some s → userControlled s = false → body s = head :: rest →
  (safeDirections st i s head = [] ∧ stepSnake i (st, m, rs) = Done (st, m, rs))
  ∨ (safeDirections st i s head ≠ []
     ∧ ∀ st1 m1 rs1, stepSnake i (st, m, rs) = Done (st1, m1, rs1) →
         m1 = true ∧ ∃ s1, snakes st1 !! i = Some s1 ∧ body s1 ≠ body s).
Proof.
  intros Hs Hu Hb. unfold stepSnake. rewrite Hs, Hb, Hu.
  destruct (getNextDirection st i s) as [[d|]| |] eqn:Hd; simpl.
  - right. split.
    { intros Hnil. apply (getNextDirection_None st i s head rest Hb) in Hnil.
      congruence. }
    intros st1 m1 rs1.
    destruct (commitMove i _ st rs) as [[st0 rs0]| |] eqn:Hc; simpl; try done.
    intros [= <- <- <-]. split; [done|].
    apply (getNextDirection_Some _ _ _ _ _ _ Hb), safeDirections_safe in Hd
      as (Hcand & _).
    assert (Hunit : d ∈ possibleDirections).
    { pose proof (candidates_sublist s) as Hsub.
      apply sublist_submseteq in Hsub. by eapply elem_of_submseteq. }
    apply unitStep_iff in Hunit. unfold unitStep in Hunit.
    destruct head as [hx hy]. simpl in *.
    destruct (commitMove_at _ _ _ _ _ _ _ Hc Hs) as [Hs0|Hs0];
      eexists; (split; [simpl; by rewrite list_lookup_alter_eq, Hs0|]);
      simpl; rewrite Hb.
    + intros Heq. apply (f_equal length) in Heq. simpl in Heq. lia.
    + destruct rest as [|r rest']; simpl.
      * intros [= Hx Hy]. lia.
      * intros [= Hx Hy _]. lia.
  - left. split; [by apply (getNextDirection_None st i s head rest Hb)|done].
  - pose proof (getNextDirection_not_TypeError st i s) as Hne.
    exfalso. apply Hne; [by rewrite Hb|done].
  - unfold getNextDirection in Hd. rewrite Hb in Hd.
    by destruct (safeDirections st i s head).
Qed.

Lemma forSnakes_true (idxs : list nat) (st st' : State) (m' : bool)
    (rs rs' : list Rand) :
  forSnakes idxs (st, true, rs) = Done (st', m', rs') → m' = true.
Proof.
  revert st rs. induction idxs as [|i idxs IH]; intros st rs; simpl.
  - by intros [= <- <- <-].
  - destruct (stepSnake i (st, true, rs)) as [[[st1 m1] rs1]| |] eqn:Hstep;
      simpl; try done.
    apply stepSnake_flag in Hstep as [->|(-> & _)]; apply IH.
Qed.

(** The loop over autonomous snakes from a state in which every body
    has a block: either no snake had a safe direction and nothing has
    changed, or a snake has moved and its body is another. *)
Lemma forSnakes_moved_or_blocked (idxs : list nat) (st st' : State) (m' : bool)
    (rs rs' : list Rand) :
  noHuman st → Forall (fun s => body s ≠ []) (snakes st) → NoDup idxs →
  forSnakes idxs (st, false, rs) = Done (st', m', rs') →
  (m' = false ∧ st' = st ∧ rs' = rs
   ∧ ∀ i s head rest, i ∈ idxs → snakes st !! i = Some s → body s = head :: rest →
       safeDirections st i s head = [])
  ∨ (m' = true
     ∧ ∃ k s s', snakes st !! k = Some s ∧ snakes st' !! k = Some s'
                 ∧ body s' ≠ body s).
Proof.
  intros Hnone Hbodies. rewrite Forall_lookup in Hbodies.
  induction idxs as [|i idxs IH]; intros Hnd; simpl.
  - intros [= <- <- <-]. left. repeat split; try done.
    intros i s head rest Hi. by apply elem_of_nil in Hi.
  - apply NoDup_cons in Hnd as [Hi Hnd].
    destruct (snakes st !! i) as [s|] eqn:Hs.
    + pose proof (Hbodies i s Hs) as Hb.
      destruct (body s) as [|head rest] eqn:Hbody; [done|].
      destruct (stepSnake_autonomous i st false rs s head rest Hs (Hnone i s Hs) Hbody)
        as [[Hsafe Hstep]|[Hsafe Hstep]].
      * rewrite Hstep. simpl. intros Hrest.
        destruct (IH Hnd Hrest) as [(-> & -> & -> & Hall)|Hmoved]; [|by right].
        left. repeat split; try done.
        intros j sj hj rj [->|Hj]%elem_of_cons Hsj Hbj; [|by eapply Hall].
        rewrite Hs in Hsj. injection Hsj as <-. rewrite Hbody in Hbj.
        by injection Hbj as <- <-.
      * destruct (stepSnake i (st, false, rs)) as [[[st1 m1] rs1]| |] eqn:Hone;
          simpl; try done.
        destruct (Hstep st1 m1 rs1 eq_refl) as (-> & s1 & Hs1 & Hne).
        intros Hrest. right. split; [by eapply forSnakes_true|].
        apply forSnakes_frame in Hrest as (_ & _ & Hother & _).
        exists i, s, s1. split; [done|]. split; [|done].
        by rewrite (Hother i Hi).
    + unfold stepSnake at 1. rewrite Hs. simpl. intros Hrest.
      destruct (IH Hnd Hrest) as [(-> & -> & -> & Hall)|Hmoved]; [|by right].
      left. repeat split; try done.
      intros j sj hj rj [->|Hj]%elem_of_cons Hsj Hbj; [congruence|by eapply Hall].
Qed.

Lemma forSnakes_blocked (idxs : list nat) (st : State) (m : bool) (rs : list Rand) :
  (∀ i s, snakes st !! i = Some s →
     userControlled s = false
     ∧ ∃ head rest, body s = head :: rest ∧ safeDirections st i s head = []) →
  forSnakes idxs (st, m, rs) = Done (st, m, rs).
Proof.
  intros Hall. induction idxs as [|i idxs IH]; simpl; [done|].
  destruct (snakes st !! i) as [s|] eqn:Hs.
  - destruct (Hall i s Hs) as (Hu & head & rest & Hb & Hsafe).
    destruct (stepSnake_autonomous i st m rs s head rest Hs Hu Hb)
      as [[_ Hstep]|[Hne _]]; [|done].
    rewrite Hstep. simpl. apply IH.
  - unfold stepSnake at 1. rewrite Hs. simpl. apply IH.
Qed.

(** No snake has a legal move exactly when the planner finds no safe
    direction for any snake. *)
Lemma allBlocked_iff (st : State) :
  allBlocked st
  ↔ ∀ i s head rest, snakes st !! i = Some s → body s = head :: rest →
      safeDirections st i s head = [].
Proof.
  unfold allBlocked. split.
  - intros Hall i s head rest Hs Hb.
    destruct (safeDirections st i s head) as [|d l] eqn:Hsafe; [done|].
    destruct (Hall i s head rest d Hs Hb).
    apply (safeDirections_plannerMove st i s head d Hs). rewrite Hsafe. left.
  - intros Hall i s head rest dir Hs Hb Hmove.
    apply (safeDirections_plannerMove st i s head dir Hs) in Hmove.
    rewrite (Hall i s head rest Hs Hb) in Hmove. by apply elem_of_nil in Hmove.
Qed.

(** C6, as the code has it.  The rule of the end without a human snake
    is the rule of the checkbox being off.  In a running game in which
    no snake is user-controlled, with the checkbox off or a snake on
    the board, the checkbox is off, and a tick stops the timer exactly
    when zero snakes moved in it, which is exactly when no snake had a
    legal move on the board the tick started from; the tick then
    changes nothing else, and the counter plays no part.  A board on
    which no snake has a legal move, and so a board of a single snake
    without a legal move, is ended by its next tick, which draws no
    random number. *)
Theorem no_human_ends_when_nobody_moved (st : State) (rs : list Rand) :
  reachable st → gameInterval st = true → noHuman st →
  userControlCheck st = false ∨ snakes st ≠ [] →
  userControlCheck st = false
  ∧ (∀ st' rs', gameLoop st rs = Done (st', rs') →
       (gameInterval st' = false ↔ nobodyMoved st st')
       ∧ (nobodyMoved st st' ↔ allBlocked st)
       ∧ (nobodyMoved st st' → st' = with_interval false st ∧ rs' = rs)
       ∧ userBlockedCounter st' = userBlockedCounter st)
  ∧ (allBlocked st →
       ∃ st', gameLoop st rs = Done (st', rs) ∧ gameInterval st' = false
              ∧ snakes st' = snakes st ∧ food st' = food st)
  ∧ (∀ s head rest, snakes st = [s] → body s = head :: rest →
       (∀ dir, ¬ plannerMove st 0 s head dir) →
       ∃ st', gameLoop st rs = Done (st', rs) ∧ gameInterval st' = false
              ∧ snakes st' = [s]).
Proof.
  intros Hreach Hrun Hnone Hmode.
  assert (Hcheck : userControlCheck st = false).
  { destruct Hmode as [Hoff|Hne]; [done|].
    apply not_true_is_false. intros Hon.
    apply (reachable_human_mode st Hreach Hne) in Hon as [[i u] Hu].
    apply findUserSnake_Some in Hu as [Hu Hflag].
    rewrite (Hnone i u Hu) in Hflag. done. }
  pose proof (reachable_Inv st Hreach) as (_ & _ & Hbodies).
  assert (Hrule : ∀ mid anyMoved rs',
            moveSnakes st rs = Done (mid, anyMoved, rs') →
            gameLoop st rs
            = Done (if anyMoved then mid else with_interval false mid, rs')).
  { intros mid0 m0 rs0 Hmove.
    rewrite (gameLoop_unfold _ _ _ _ _ Hmove).
    pose proof (moveSnakes_frame _ _ _ _ _ Hmove) as (_ & _ & _ & _ & Hk).
    rewrite Hcheck in Hk. unfold gameOverCheck. rewrite Hk. by destruct m0. }
  assert (Hblocked : allBlocked st →
            gameLoop st rs = Done (with_interval false st, rs)).
  { intros Hall. apply (Hrule st false rs). unfold moveSnakes.
    apply forSnakes_blocked. intros i s Hs. split; [by eapply Hnone|].
    rewrite Forall_lookup in Hbodies. pose proof (Hbodies i s Hs) as Hb.
    destruct (body s) as [|head rest] eqn:Hbody; [done|].
    exists head, rest. split; [done|].
    by apply (proj1 (allBlocked_iff st) Hall i s head rest). }
  split; [done|]. split; [|split].
  - intros st' rs' Hloop.
    destruct (moveSnakes st rs) as [[[mid m] rs1]| |] eqn:Hmove;
      [|unfold gameLoop in Hloop; rewrite Hmove in Hloop; done..].
    rewrite (Hrule mid m rs1 eq_refl) in Hloop. injection Hloop as <- <-.
    pose proof (moveSnakes_frame _ _ _ _ _ Hmove) as (_ & Hi & _ & Hc & _).
    unfold moveSnakes in Hmove.
    destruct (forSnakes_moved_or_blocked _ _ _ _ _ _ Hnone Hbodies (NoDup_seq 0 _) Hmove)
      as [(-> & -> & -> & Hall)|(-> & k & s & s' & Hs & Hs' & Hne)].
    + assert (Hstill : nobodyMoved st (with_interval false st)).
      { intros j sj sj' Hj Hj'. simpl in Hj'. congruence. }
      assert (Hallb : allBlocked st).
      { apply allBlocked_iff. intros i s head rest Hs Hb.
        apply (Hall i s head rest); [|done..].
        apply elem_of_seq. apply lookup_lt_Some in Hs. lia. }
      repeat split; try done.
    + assert (Hmoved : ¬ nobodyMoved st mid).
      { intros Hstill. apply Hne. by apply (Hstill k s s'). }
      rewrite Hrun in Hi.
      split; [split; [congruence|done]|]. split; [|split; [done|done]].
      split; [done|]. intros Hall. apply Hblocked in Hall.
      unfold gameLoop, moveSnakes in Hall. rewrite Hmove in Hall. simpl in Hall.
      unfold gameOverCheck in Hall.
      pose proof (forSnakes_frame _ _ _ _ _ _ _ Hmove) as ((_ & _ & _ & _ & Hk) & _).
      rewrite Hk, Hcheck in Hall. simpl in Hall. injection Hall as Hmid.
      rewrite Hmid in Hi. done.
  - intros Hall. exists (with_interval false st). by split; [apply Hblocked|].
  - intros s head rest Hsn Hb Hnomove. exists (with_interval false st).
    split; [|by rewrite <- Hsn]. apply Hblocked.
    intros i s0 head0 rest0 dir Hs0 Hb0. rewrite Hsn in Hs0.
    destruct i as [|i]; [|done]. injection Hs0 as <-.
    rewrite Hb in Hb0. injection Hb0 as <- <-. apply Hnomove.
Qed.

End Engine.

(** ** Runs on small boards *)

Lemma twoSnakes_reachable : reachable 4 4 twoSnakes.
Proof.
  apply (reachable_step 4 4 (initialState false) (Start (Some 2))
           [quarter 0; quarter 0; quarter 1; quarter 0; quarter 0;
            quarter 2; quarter 0; quarter 0; quarter 1; quarter 0]
           twoSnakes []).
  - apply reachable_init.
  - by_run.
Qed.

Lemma twoSnakes_first_turn :
  forSnakes 4 4 (seq 0 1) (twoSnakes, false, [quarter 3; quarter 3])
  = Done (twoSnakes_mid, true, []).
Proof. by_run. Qed.

(** C2, as the claim states it, fails: on the board [twoSnakes] the
    first snake moves onto the cell (1, 0), and the occupancy test of
    the second snake in the same tick finds that cell occupied, which
    it was not when the tick started. *)
Lemma occupancy_not_against_resting_layout : ¬ checksAgainstRestingLayout 4 4.
Proof.
  intros Hclaim.
  specialize (Hclaim twoSnakes [quarter 3; quarter 3] 1%nat twoSnakes_mid true []
                1 0 twoSnakes_reachable eq_refl).
  specialize (Hclaim ltac:(simpl; lia) twoSnakes_first_turn).
  vm_compute in Hclaim. discriminate.
Qed.

Lemma occupancy_reads_layout_in_progress_witness :
  moveSnakes 4 4 twoSnakes [quarter 3; quarter 3]
  = (acc' ← stepSnake 4 4 1 (twoSnakes_mid, true, []);
     forSnakes 4 4 (seq 2 (length (snakes twoSnakes) - 2)) acc')
  ∧ drop 1 (snakes twoSnakes_mid) = drop 1 (snakes twoSnakes)
  ∧ ∀ st' m' rs'', moveSnakes 4 4 twoSnakes [quarter 3; quarter 3] = Done (st', m', rs'') →
      take 1 (snakes st') = take 1 (snakes twoSnakes_mid).
Proof.
  apply (occupancy_reads_layout_in_progress 4 4 twoSnakes twoSnakes_mid true
           [quarter 3; quarter 3] [] 1).
  - simpl. lia.
  - by_run.
Defined.

Lemma segments_never_overlap_witness :
  distinctSegments (snakes twoSnakes)
  ∧ ∀ rs st' rs', gameLoop 4 4 twoSnakes rs = Done (st', rs') →
      distinctSegments (snakes st').
Proof.
  apply (segments_never_overlap 4 4 twoSnakes).
  apply (reachable_step 4 4 (initialState false) (Start (Some 2))
           [quarter 0; quarter 0; quarter 1; quarter 0; quarter 0;
            quarter 2; quarter 0; quarter 0; quarter 1; quarter 0]
           twoSnakes []).
  - apply reachable_init.
  - by_run.
Defined.

Lemma food_never_under_a_snake_witness :
  isCellOccupied twoSnakes (food_x (food twoSnakes)) (food_y (food twoSnakes)) None
  = false
  ∧ (∀ i s, snakes twoSnakes !! i = Some s → foodCell twoSnakes ∉ body s)
  ∧ ∀ rs st' rs', gameLoop 4 4 twoSnakes rs = Done (st', rs') →
      ∀ i s, snakes st' !! i = Some s → foodCell st' ∉ body s.
Proof.
  apply (food_never_under_a_snake 4 4 twoSnakes).
  apply (reachable_step 4 4 (initialState false) (Start (Some 2))
           [quarter 0; quarter 0; quarter 1; quarter 0; quarter 0;
            quarter 2; quarter 0; quarter 0; quarter 1; quarter 0]
           twoSnakes []).
  - apply reachable_init.
  - by_run.
Defined.

(** On [twoSnakes] the first snake steps on the food: it is two blocks
    long afterwards and the food is on a free cell. *)
Lemma commit_prepends_and_grows_on_food_witness :
  ∃ st' rs',
    commitMove 4 4 0 (mkCell 1 0) twoSnakes [quarter 1; quarter 0; quarter 3; quarter 3]
    = Done (st', rs')
    ∧ snakes st' !! 0%nat
      = Some (snakeAt 0 "red" [mkCell 1 0; mkCell 0 0] (mkCell (-1) 0) false)
    ∧ (foodCell st' ∉ segments (snakes st')).
Proof.
  destruct (commit_prepends_and_grows_on_food 4 4 0 (mkCell 1 0)
              (snakeAt 0 "red" [mkCell 0 0] (mkCell (-1) 0) false) twoSnakes
              [quarter 1; quarter 0; quarter 3; quarter 3] eq_refl)
    as [_ Hfood].
  destruct (Hfood eq_refl) as [Hgrown Htotal].
  destruct Htotal as (st' & rs' & Hcommit).
  - exists (mkCell 3 3). split; [apply list_elem_of_In; vm_compute; tauto|].
    split; [discriminate|].
    intros Hin. apply list_elem_of_In in Hin. vm_compute in Hin.
    destruct Hin as [Hin|[Hin|[]]]; discriminate Hin.
  - exists st', rs'. destruct (Hgrown st' rs' Hcommit) as (Hs & _ & Hfree & _).
    repeat split; assumption.
Defined.

Example crossroads_goes_right :
  safeDirections 4 4 crossroads 0
    (snakeAt 0 "red" [mkCell 1 1] (mkCell 0 (-1)) false) (mkCell 1 1)
  = [mkCell 1 0; mkCell (-1) 0; mkCell 0 1; mkCell 0 (-1)]
  ∧ getNextDirection 4 4 crossroads 0
      (snakeAt 0 "red" [mkCell 1 1] (mkCell 0 (-1)) false)
    = Done (Some (mkCell 1 0)).
Proof. split; by_run. Qed.

Lemma planner_returns_first_nearest_witness :
  ∃ d before after,
    getNextDirection 4 4 crossroads 0
      (snakeAt 0 "red" [mkCell 1 1] (mkCell 0 (-1)) false) = Done (Some d)
    ∧ safeDirections 4 4 crossroads 0
        (snakeAt 0 "red" [mkCell 1 1] (mkCell 0 (-1)) false) (mkCell 1 1)
      = before ++ d :: after
    ∧ (∀ a, a ∈ before →
         manhattan (prospective (mkCell 1 1) d) (foodCell crossroads)
         < manhattan (prospective (mkCell 1 1) a) (foodCell crossroads))
    ∧ (∀ a, a ∈ after →
         manhattan (prospective (mkCell 1 1) d) (foodCell crossroads)
         <= manhattan (prospective (mkCell 1 1) a) (foodCell crossroads))
    ∧ safeDirections 4 4 crossroads 0
        (snakeAt 0 "red" [mkCell 1 1] (mkCell 0 (-1)) false) (mkCell 1 1)
        `sublist_of` [mkCell 1 0; mkCell (-1) 0; mkCell 0 1; mkCell 0 (-1)].
Proof.
  apply (planner_returns_first_nearest 4 4 crossroads 0
           (snakeAt 0 "red" [mkCell 1 1] (mkCell 0 (-1)) false) (mkCell 1 1) []).
  - reflexivity.
  - vm_compute. discriminate.
Defined.

(** A snake of one block is turned round by the planner; a snake of
    two blocks whose only way is back does not move. *)
Example one_block_reverses :
  getNextDirection 3 1
    (board [snakeAt 0 "red" [mkCell 1 0] (mkCell 1 0) false] (mkCell 0 0) true None 0 false)
    0 (snakeAt 0 "red" [mkCell 1 0] (mkCell 1 0) false)
  = Done (Some (reverse (mkCell 1 0))).
Proof. by_run. Qed.

Example two_blocks_do_not_reverse :
  getNextDirection 3 1
    (board [snakeAt 0 "red" [mkCell 0 0; mkCell 1 0] (mkCell (-1) 0) false]
           (mkCell 2 0) true None 0 false)
    0 (snakeAt 0 "red" [mkCell 0 0; mkCell 1 0] (mkCell (-1) 0) false)
  = Done None.
Proof. by_run. Qed.

Lemma corridor_two_blocked_reachable :
  reachable 4 1 (corridor shutIn (mkCell 3 0) true 2).
Proof.
  apply (reachable_step 4 1 (corridor shutIn (mkCell 3 0) true 1) Tick []
           (corridor shutIn (mkCell 3 0) true 2) []); [|by_run].
  apply (reachable_step 4 1 (corridor [mkCell 1 0; mkCell 2 0] (mkCell 0 0) true 0)
           Tick [quarter 3; quarter 0]
           (corridor shutIn (mkCell 3 0) true 1) []); [|by_run].
  apply (reachable_step 4 1 (corridor [mkCell 2 0] (mkCell 1 0) true 0)
           Tick [quarter 0; quarter 0]
           (corridor [mkCell 1 0; mkCell 2 0] (mkCell 0 0) true 0) []);
    [|by_run].
  apply (reachable_step 4 1 (initialState true) (Start (Some 1))
           [quarter 2; quarter 0; quarter 1; quarter 1; quarter 0]
           (corridor [mkCell 2 0] (mkCell 1 0) true 0) []); [|by_run].
  apply reachable_init.
Qed.

(** Shut in for the third tick in a row, the timer stops. *)
Example corridor_third_blocked_tick_ends :
  gameLoop 4 1 (corridor shutIn (mkCell 3 0) true 2) []
  = Done (corridor shutIn (mkCell 3 0) false 3, []).
Proof. by_run. Qed.

(** Shut in by its neighbour for two ticks and free at the third, the
    user-controlled snake of the lane plays on with the counter back
    at 0. *)
Example blocked_twice_then_freed :
  startClick 7 1 (Some 4) (initialState true)
    [seventh 0; seventh 0; quarter 1; seventh 1; seventh 0; quarter 0;
     seventh 2; seventh 0; quarter 0; seventh 3; seventh 0; quarter 0;
     seventh 6; seventh 0]
  = Done (lane [mkCell 1 0] [mkCell 2 0] [mkCell 3 0] (mkCell 6 0) 0, [])
  ∧ gameLoop 7 1 (lane [mkCell 1 0] [mkCell 2 0] [mkCell 3 0] (mkCell 6 0) 0) []
    = Done (lane [mkCell 1 0] [mkCell 2 0] [mkCell 4 0] (mkCell 6 0) 1, [])
  ∧ gameLoop 7 1 (lane [mkCell 1 0] [mkCell 2 0] [mkCell 4 0] (mkCell 6 0) 1) []
    = Done (lane [mkCell 1 0] [mkCell 3 0] [mkCell 5 0] (mkCell 6 0) 2, [])
  ∧ gameLoop 7 1 (lane [mkCell 1 0] [mkCell 3 0] [mkCell 5 0] (mkCell 6 0) 2)
      [seventh 3; seventh 0]
    = Done (lane [mkCell 2 0] [mkCell 4 0] [mkCell 6 0; mkCell 5 0] (mkCell 3 0) 0, []).
Proof. repeat split; by_run. Qed.

Lemma trapped_reachable : reachable 3 1 trapped.
Proof.
  apply (reachable_step 3 1
           (board [snakeAt 0 "red" [mkCell 1 0] (mkCell 1 0) false]
                  (mkCell 0 0) true None 0 false)
           Tick [third 2; third 0] trapped []); [|by_run].
  apply (reachable_step 3 1 (initialState false) (Start None)
           [third 1; third 0; quarter 0; third 0; third 0]
           (board [snakeAt 0 "red" [mkCell 1 0] (mkCell 1 0) false]
                  (mkCell 0 0) true None 0 false) []); [|by_run].
  apply reachable_init.
Qed.

Example trapped_ends_on_next_tick :
  moveSnakes 3 1 trapped [] = Done (trapped, false, [])
  ∧ gameLoop 3 1 trapped [] = Done (with_interval false trapped, []).
Proof. split; by_run. Qed.

(** A count of -1: no snake at all, and the timer runs. *)
Example start_with_minus_one :
  startClick 4 4 (Some (-1)) (initialState false) [quarter 1; quarter 1]
  = Done (board [] (mkCell 1 1) true None 0 false, []).
Proof. by_run. Qed.

Lemma negative_count_creates_no_snake_witness :
  createSnakes 4 4 (-1) (initialState false) [quarter 1; quarter 1]
  = Done (with_counter 0 (with_snakes [] (initialState false)), [quarter 1; quarter 1])
  ∧ ∀ st' rs',
      startClick 4 4 (Some (-1)) (initialState false) [quarter 1; quarter 1]
      = Done (st', rs') →
      snakes st' = [].
Proof.
  apply (negative_count_creates_no_snake 4 4 (-1) (initialState false)
           [quarter 1; quarter 1]).
  lia.
Defined.

Lemma no_reversal_beyond_one_block_witness :
  (reverse (mkCell (-1) 0)
   ∉ candidates (snakeAt 0 "red" [mkCell 0 0; mkCell 1 0] (mkCell (-1) 0) false))
  ∧ ∀ ev rs st' rs' snake',
      (∀ parsed, ev ≠ Start parsed) →
      handle 3 1 ev trapped rs = Done (st', rs') → snakes st' !! 0%nat = Some snake' →
      direction snake' ≠ reverse (mkCell (-1) 0).
Proof.
  destruct (no_reversal_beyond_one_block 3 1 trapped 0
              (snakeAt 0 "red" [mkCell 0 0; mkCell 1 0] (mkCell (-1) 0) false)
              "ArrowRight" (mkCell 1 0)) as [Hlong _].
  destruct Hlong as (Hcand & _ & _ & Hevents); [simpl; lia|].
  split; [exact Hcand|].
  apply Hevents; [|reflexivity].
  apply (reachable_step 3 1
           (board [snakeAt 0 "red" [mkCell 1 0] (mkCell 1 0) false]
                  (mkCell 0 0) true None 0 false)
           Tick [third 2; third 0] trapped []); [|by_run].
  apply (reachable_step 3 1 (initialState false) (Start None)
           [third 1; third 0; quarter 0; third 0; third 0]
           (board [snakeAt 0 "red" [mkCell 1 0] (mkCell 1 0) false]
                  (mkCell 0 0) true None 0 false) []); [|by_run].
  apply reachable_init.
Defined.

(** ** Runs for the further properties *)

(** On [twoSnakes_mid] the cell (0, 0) is the tail cell of the first
    snake: it counts in the plain test and not in the test of that
    snake. *)
Lemma occupancy_counts_all_but_own_tail_witness :
  (isCellOccupied twoSnakes_mid 0 0 (Some 0%nat) = true
   ↔ mkCell 0 0 ∈ removelast [mkCell 1 0; mkCell 0 0]
     ∨ ∃ j sj, j ≠ 0%nat ∧ snakes twoSnakes_mid !! j = Some sj ∧ mkCell 0 0 ∈ body sj)
  ∧ (isCellOccupied twoSnakes_mid 0 0 None = true
     ↔ ∃ j sj, snakes twoSnakes_mid !! j = Some sj ∧ mkCell 0 0 ∈ body sj)
  ∧ (isCellOccupied twoSnakes_mid 0 0 (Some 0%nat) = true
     → isCellOccupied twoSnakes_mid 0 0 None = true)
  ∧ (∀ k, (length (snakes twoSnakes_mid) <= k)%nat →
       isCellOccupied twoSnakes_mid 0 0 (Some k)
       = isCellOccupied twoSnakes_mid 0 0 None).
Proof.
  apply (occupancy_counts_all_but_own_tail twoSnakes_mid 0 0 0
           (snakeAt 0 "red" [mkCell 1 0; mkCell 0 0] (mkCell 1 0) false)).
  reflexivity.
Defined.

Example own_tail_cell_is_left_out :
  isCellOccupied twoSnakes_mid 0 0 (Some 0%nat) = false
  ∧ isCellOccupied twoSnakes_mid 0 0 (Some 1%nat) = true
  ∧ isCellOccupied twoSnakes_mid 0 0 None = true.
Proof. repeat split; by_run. Qed.

Lemma planner_moves_are_safe_witness :
  (∀ d, getNextDirection 4 4 crossroads 0
          (snakeAt 0 "red" [mkCell 1 1] (mkCell 0 (-1)) false) = Done (Some d) →
     d ∈ possibleDirections ∧ inGrid 4 4 (prospective (mkCell 1 1) d)
     ∧ isCellOccupied crossroads (cell_x (prospective (mkCell 1 1) d))
         (cell_y (prospective (mkCell 1 1) d)) (Some 0%nat) = false)
  ∧ (getNextDirection 4 4 crossroads 0
       (snakeAt 0 "red" [mkCell 1 1] (mkCell 0 (-1)) false) = Done None
     ↔ ∀ d, d ∈ candidates (snakeAt 0 "red" [mkCell 1 1] (mkCell 0 (-1)) false) →
         ¬ inGrid 4 4 (prospective (mkCell 1 1) d)
         ∨ isCellOccupied crossroads (cell_x (prospective (mkCell 1 1) d))
             (cell_y (prospective (mkCell 1 1) d)) (Some 0%nat) = true)
  ∧ getNextDirection 4 4 crossroads 0
      (snakeAt 0 "red" [mkCell 1 1] (mkCell 0 (-1)) false) ≠ Pending
  ∧ getNextDirection 4 4 crossroads 0
      (snakeAt 0 "red" [mkCell 1 1] (mkCell 0 (-1)) false) ≠ TypeError.
Proof.
  apply (planner_moves_are_safe 4 4 crossroads 0
           (snakeAt 0 "red" [mkCell 1 1] (mkCell 0 (-1)) false) (mkCell 1 1) []).
  reflexivity.
Defined.

(** A tick of [twoSnakes]: the first snake eats and is two blocks
    long, the second steps to the right. *)
Example twoSnakes_tick :
  gameLoop 4 4 twoSnakes [quarter 3; quarter 3]
  = Done (board [snakeAt 0 "red" [mkCell 1 0; mkCell 0 0] (mkCell 1 0) false;
                 snakeAt 1 "blue" [mkCell 3 0] (mkCell 1 0) false]
                (mkCell 3 3) true None 0 false, []).
Proof. by_run. Qed.

Lemma tick_advances_each_snake_by_one_move_witness :
  ∃ st' rs',
    gameLoop 4 4 twoSnakes [quarter 3; quarter 3] = Done (st', rs')
    ∧ length (snakes st') = length (snakes twoSnakes)
    ∧ ∀ k s, snakes twoSnakes !! k = Some s →
        ∃ s', snakes st' !! k = Some s'
              ∧ snakeId s' = snakeId s ∧ color s' = color s
              ∧ userControlled s' = userControlled s
              ∧ (length (body s) <= length (body s') <= S (length (body s)))%nat
              ∧ (s' = s
                 ∨ (advanced 4 4 s s'
                    ∧ (userControlled s = true → direction s' = direction s)
                    ∧ (userControlled s = false → direction s' ∈ candidates s))).
Proof.
  eexists _, _. split; [by_run|].
  refine (tick_advances_each_snake_by_one_move 4 4 twoSnakes _
            [quarter 3; quarter 3] _ _).
  by_run.
Defined.

Lemma snakes_and_food_stay_on_the_board_witness :
  inGrid 4 4 (foodCell twoSnakes)
  ∧ ∀ k s c, snakes twoSnakes !! k = Some s → c ∈ body s → inGrid 4 4 c.
Proof.
  apply (snakes_and_food_stay_on_the_board 4 4 twoSnakes); [lia|lia|].
  apply (reachable_step 4 4 (initialState false) (Start (Some 2))
           [quarter 0; quarter 0; quarter 1; quarter 0; quarter 0;
            quarter 2; quarter 0; quarter 0; quarter 1; quarter 0]
           twoSnakes []).
  - apply reachable_init.
  - by_run.
Defined.

Lemma food_is_yellow_and_snake_colours_differ_witness :
  foodColor twoSnakes = "yellow" ∧ food_color (food twoSnakes) = "yellow"
  ∧ (∀ k s, snakes twoSnakes !! k = Some s →
       color s ≠ "yellow" ∧ colourOf k (color s))
  ∧ (∀ j k sj sk, snakes twoSnakes !! j = Some sj → snakes twoSnakes !! k = Some sk →
       color sj = color sk → j = k).
Proof.
  apply (food_is_yellow_and_snake_colours_differ 4 4 twoSnakes).
  apply (reachable_step 4 4 (initialState false) (Start (Some 2))
           [quarter 0; quarter 0; quarter 1; quarter 0; quarter 0;
            quarter 2; quarter 0; quarter 0; quarter 1; quarter 0]
           twoSnakes []).
  - apply reachable_init.
  - by_run.
Defined.

(** A start with the checkbox on and 2 in the count field: the second
    snake draws the cell of the first, then a free one. *)
Lemma start_sets_up_the_snakes_asked_for_witness :
  ∃ st' rs',
    startClick 4 4 (Some 2) (initialState true)
      [quarter 0; quarter 0; quarter 1; quarter 0; quarter 0;
       quarter 2; quarter 0; quarter 0; quarter 1; quarter 0]
    = Done (st', rs')
    ∧ length (snakes st') = 2%nat
    ∧ gameInterval st' = true ∧ userBlockedCounter st' = 0
    ∧ userControlCheck st' = true
    ∧ userSnakeId st'
      = match snakes st' with [] => None | _ :: _ => Some 0%nat end
    ∧ ∀ k s, snakes st' !! k = Some s →
        snakeId s = k ∧ (∃ pos, body s = [pos]) ∧ direction s ∈ possibleDirections
        ∧ userControlled s = bool_decide (k = 0%nat) && true.
Proof.
  eexists _, _. split; [by_run|].
  refine (start_sets_up_the_snakes_asked_for 4 4 (Some 2) (initialState true) _
            [quarter 0; quarter 0; quarter 1; quarter 0; quarter 0;
             quarter 2; quarter 0; quarter 0; quarter 1; quarter 0] _ _).
  by_run.
Defined.

Lemma only_the_first_snake_is_user_controlled_witness :
  (∀ k s, snakes humanCorner !! k = Some s →
     snakeId s = k ∧ direction s ∈ possibleDirections ∧ body s ≠ []
     ∧ userControlled s = bool_decide (k = 0%nat) && userControlCheck humanCorner)
  ∧ findUserSnake humanCorner
    = (if userControlCheck humanCorner
       then (fun s => (0%nat, s)) <$> head (snakes humanCorner)
       else None)
  ∧ (userSnakeId humanCorner = None ∨ userSnakeId humanCorner = Some 0%nat)
  ∧ (userControlCheck humanCorner = true → snakes humanCorner ≠ [] →
     userSnakeId humanCorner = Some 0%nat).
Proof.
  apply (only_the_first_snake_is_user_controlled 4 4 humanCorner).
  apply (reachable_step 4 4 (initialState true) (Start (Some 1))
           [quarter 0; quarter 0; quarter 1; quarter 2; quarter 2]
           humanCorner []).
  - apply reachable_init.
  - by_run.
Defined.

(** The keys on [humanCorner], whose snake of one block heads left:
    "d" turns it right, a reversal a snake of one block may make, and
    "q" is no key of the listener. *)
Example humanCorner_keys :
  snakes (keydown "d" humanCorner)
  = [snakeAt 0 "red" [mkCell 0 0] (mkCell 1 0) true]
  ∧ keydown "q" humanCorner = humanCorner
  ∧ keydown "d" twoSnakes = twoSnakes.
Proof. repeat split; by_run. Qed.

Lemma change_flags_the_first_snake_only_witness :
  change true twoSnakes
  = with_userSnakeId
      (match snakes twoSnakes with [] => userSnakeId twoSnakes | _ :: _ => Some 0%nat end)
      (with_snakes (snakes (change true twoSnakes)) (with_check true twoSnakes))
  ∧ length (snakes (change true twoSnakes)) = length (snakes twoSnakes)
  ∧ (∀ k s, snakes twoSnakes !! k = Some s →
       snakes (change true twoSnakes) !! k
       = Some (with_userControlled (bool_decide (k = 0%nat) && true) s))
  ∧ change true (change true twoSnakes) = change true twoSnakes
  ∧ snakes (change (userControlCheck twoSnakes)
              (change (negb (userControlCheck twoSnakes)) twoSnakes))
    = snakes twoSnakes.
Proof.
  apply (change_flags_the_first_snake_only 4 4 true twoSnakes).
  apply (reachable_step 4 4 (initialState false) (Start (Some 2))
           [quarter 0; quarter 0; quarter 1; quarter 0; quarter 0;
            quarter 2; quarter 0; quarter 0; quarter 1; quarter 0]
           twoSnakes []).
  - apply reachable_init.
  - by_run.
Defined.

(** A board whose only snake has no block: the tick throws. *)
Example headless_tick_throws :
  gameLoop 4 4 (board [snakeAt 0 "red" [] (mkCell 1 0) false] (mkCell 1 1)
                  true None 0 false) []
  = TypeError.
Proof. by_run. Qed.

Lemma tick_without_user_control_is_the_first_version_witness :
  gameLoop 4 4 twoSnakes [quarter 3; quarter 3]
  = gameLoop_v1 4 4 twoSnakes [quarter 3; quarter 3].
Proof.
  apply (tick_without_user_control_is_the_first_version 4 4 twoSnakes
           [quarter 3; quarter 3]).
  - reflexivity.
  - repeat constructor.
Defined.

Lemma blocks_are_fewer_than_cells_witness :
  Z.of_nat (length (segments (snakes twoSnakes))) < 4 * 4
  ∧ (length (snakes twoSnakes) <= length (segments (snakes twoSnakes)))%nat.
Proof.
  apply (blocks_are_fewer_than_cells 4 4 twoSnakes); [lia|lia|].
  apply (reachable_step 4 4 (initialState false) (Start (Some 2))
           [quarter 0; quarter 0; quarter 1; quarter 0; quarter 0;
            quarter 2; quarter 0; quarter 0; quarter 1; quarter 0]
           twoSnakes []).
  - apply reachable_init.
  - by_run.
Defined.

(** Two snakes asked for on a board of two cells: both are placed and
    no cell is left for the food. *)
Lemma start_with_a_snake_per_cell_never_ends_witness :
  startClick 2 1 (Some 2) (initialState false)
    [quarter 0; quarter 0; quarter 1; quarter 2; quarter 0; quarter 0;
     quarter 0; quarter 0; quarter 2; quarter 0]
  = Pending.
Proof.
  apply (start_with_a_snake_per_cell_never_ends 2 1 2 (initialState false)); lia.
Defined.

(** ** Runs for the end of the game *)

Lemma lane_reachable :
  reachable 7 1 (lane [mkCell 1 0] [mkCell 2 0] [mkCell 3 0] (mkCell 6 0) 0).
Proof.
  apply (reachable_step 7 1 (initialState true) (Start (Some 4))
           [seventh 0; seventh 0; quarter 1; seventh 1; seventh 0; quarter 0;
            seventh 2; seventh 0; quarter 0; seventh 3; seventh 0; quarter 0;
            seventh 6; seventh 0]
           (lane [mkCell 1 0] [mkCell 2 0] [mkCell 3 0] (mkCell 6 0) 0) []);
    [|by_run].
  apply reachable_init.
Qed.

Lemma corridor_eating_reachable :
  reachable 4 1 (corridor [mkCell 1 0; mkCell 2 0] (mkCell 0 0) true 0).
Proof.
  apply (reachable_step 4 1 (corridor [mkCell 2 0] (mkCell 1 0) true 0)
           Tick [quarter 0; quarter 0]
           (corridor [mkCell 1 0; mkCell 2 0] (mkCell 0 0) true 0) []);
    [|by_run].
  apply (reachable_step 4 1 (initialState true) (Start (Some 1))
           [quarter 2; quarter 0; quarter 1; quarter 1; quarter 0]
           (corridor [mkCell 2 0] (mkCell 1 0) true 0) []); [|by_run].
  apply reachable_init.
Qed.

(** In the lane the user-controlled snake, at the left wall, has no
    legal move while its neighbour is on (1, 0). *)
Lemma lane_blocked (b2 b3 : list Cell) (f : Cell) (counter : Z) :
  humanBlockedAt 7 1 (lane [mkCell 1 0] b2 b3 f counter).
Proof.
  exists 0%nat, (snakeAt 0 "red" [mkCell 0 0] (mkCell (-1) 0) true), (mkCell 0 0), [].
  split; [reflexivity|]. split; [reflexivity|]. split; [reflexivity|].
  intros [dx dy] (Hunit & Hx & Hy & Hopen).
  unfold unitStep in Hunit. simpl in *.
  assert (dx = 1 ∧ dy = 0) as [-> ->] by lia.
  apply (Hopen 1%nat (snakeAt 1 "blue" [mkCell 1 0] (mkCell 1 0) false) eq_refl).
  cell_in.
Qed.

(** Shut in at the left wall by its own body, the user-controlled snake
    of the corridor has no legal move. *)
Lemma corridor_blocked (f : Cell) (run : bool) (counter : Z) :
  humanBlockedAt 4 1 (corridor shutIn f run counter).
Proof.
  exists 0%nat, (snakeAt 0 "red" shutIn (mkCell (-1) 0) true), (mkCell 0 0),
    [mkCell 1 0; mkCell 2 0].
  split; [reflexivity|]. split; [reflexivity|]. split; [reflexivity|].
  intros [dx dy] (Hunit & Hx & Hy & Hopen).
  unfold unitStep in Hunit. simpl in *.
  assert (dx = 1 ∧ dy = 0) as [-> ->] by lia.
  apply (Hopen 0%nat (snakeAt 0 "red" shutIn (mkCell (-1) 0) true) eq_refl).
  cell_in.
Qed.

(** Two ticks without a legal move and a third with one: the game goes
    on with the counter back at 0.  Three ticks without a legal move:
    the third ends the game. *)
Lemma human_lockout_ends_at_three_witness :
  (∃ st1 st2 st3,
     gameLoop 7 1 (lane [mkCell 1 0] [mkCell 2 0] [mkCell 3 0] (mkCell 6 0) 0) []
     = Done (st1, [])
     ∧ gameLoop 7 1 st1 [] = Done (st2, [])
     ∧ gameLoop 7 1 st2 [seventh 3; seventh 0] = Done (st3, [])
     ∧ userBlockedCounter st1 = 1 ∧ gameInterval st1 = true
     ∧ gameInterval st2 = true
     ∧ gameInterval st3 = true ∧ userBlockedCounter st3 = 0)
  ∧ (∃ st1 st2 st3,
       gameLoop 4 1 (corridor [mkCell 1 0; mkCell 2 0] (mkCell 0 0) true 0)
         [quarter 3; quarter 0]
       = Done (st1, [])
       ∧ gameLoop 4 1 st1 [] = Done (st2, [])
       ∧ gameLoop 4 1 st2 [] = Done (st3, [])
       ∧ userBlockedCounter st1 = 1 ∧ gameInterval st1 = true
       ∧ gameInterval st2 = true
       ∧ gameInterval st3 = false).
Proof.
  split.
  - destruct (human_lockout_ends_at_three 7 1
                (lane [mkCell 1 0] [mkCell 2 0] [mkCell 3 0] (mkCell 6 0) 0)
                (lane [mkCell 1 0] [mkCell 2 0] [mkCell 4 0] (mkCell 6 0) 0)
                true [] [] lane_reachable eq_refl eq_refl)
      as (st1 & Hloop1 & _ & _ & Hblocked & _ & Hscenario); [by_run|].
    destruct (Hblocked (lane_blocked _ _ _ _)) as [Hc1 _].
    assert (Hst1 : gameLoop 7 1
                     (lane [mkCell 1 0] [mkCell 2 0] [mkCell 3 0] (mkCell 6 0) 0) []
                   = Done (lane [mkCell 1 0] [mkCell 2 0] [mkCell 4 0] (mkCell 6 0) 1, []))
      by by_run.
    rewrite Hst1 in Hloop1. injection Hloop1 as <-.
    destruct (Hscenario eq_refl (lane_blocked _ _ _ _) []
                (lane [mkCell 1 0] [mkCell 3 0] [mkCell 5 0] (mkCell 6 0) 1)
                (lane [mkCell 1 0] [mkCell 3 0] [mkCell 5 0] (mkCell 6 0) 2) [])
      as (Hi1 & Hi2 & Hthird).
    { exists true. split; by_run. }
    { apply lane_blocked. }
    destruct (Hthird [seventh 3; seventh 0]
                (lane [mkCell 2 0] [mkCell 4 0] [mkCell 6 0; mkCell 5 0] (mkCell 3 0) 2)
                (lane [mkCell 2 0] [mkCell 4 0] [mkCell 6 0; mkCell 5 0] (mkCell 3 0) 0)
                []) as [Hfree _].
    { exists true. split; by_run. }
    destruct Hfree as [Hi3 Hc3].
    { exists 0%nat, (snakeAt 0 "red" [mkCell 0 0] (mkCell (-1) 0) true),
        (mkCell 0 0), [], (mkCell 1 0).
      split; [reflexivity|]. split; [reflexivity|]. split; [reflexivity|].
      split; [unfold unitStep; simpl; lia|]. split; [simpl; lia|].
      split; [simpl; lia|].
      intros j s Hs Hin.
      destruct j as [|[|[|[|j]]]]; simpl in Hs; try discriminate;
        injection Hs as <-; cell_not_in Hin. }
    eexists _, _, _. split; [exact Hst1|]. split; [by_run|]. split; [by_run|].
    repeat split; assumption.
  - destruct (human_lockout_ends_at_three 4 1
                (corridor [mkCell 1 0; mkCell 2 0] (mkCell 0 0) true 0)
                (corridor shutIn (mkCell 3 0) true 0)
                true [quarter 3; quarter 0] [] corridor_eating_reachable
                eq_refl eq_refl)
      as (st1 & Hloop1 & _ & _ & Hblocked & _ & Hscenario); [by_run|].
    destruct (Hblocked (corridor_blocked _ _ _)) as [Hc1 _].
    assert (Hst1 : gameLoop 4 1
                     (corridor [mkCell 1 0; mkCell 2 0] (mkCell 0 0) true 0)
                     [quarter 3; quarter 0]
                   = Done (corridor shutIn (mkCell 3 0) true 1, []))
      by by_run.
    rewrite Hst1 in Hloop1. injection Hloop1 as <-.
    destruct (Hscenario eq_refl (corridor_blocked _ _ _) []
                (corridor shutIn (mkCell 3 0) true 1)
                (corridor shutIn (mkCell 3 0) true 2) [])
      as (Hi1 & Hi2 & Hthird).
    { exists false. split; by_run. }
    { apply corridor_blocked. }
    destruct (Hthird [] (corridor shutIn (mkCell 3 0) true 2)
                (corridor shutIn (mkCell 3 0) false 3) []) as [_ Hend].
    { exists false. split; by_run. }
    specialize (Hend (corridor_blocked _ _ _)).
    eexists _, _, _. split; [exact Hst1|]. split; [by_run|]. split; [by_run|].
    repeat split; assumption.
Defined.

Lemma standstill_reachable : reachable 4 1 standstill.
Proof.
  apply (reachable_step 4 1
           (board [snakeAt 0 "red" [mkCell 0 0] (mkCell (-1) 0) true;
                   snakeAt 1 "blue" [mkCell 2 0] (mkCell 1 0) false]
                  (mkCell 3 0) true (Some 0%nat) 0 true)
           Tick [quarter 1; quarter 0] standstill []); [|by_run].
  apply (reachable_step 4 1 (initialState true) (Start (Some 2))
           [quarter 0; quarter 0; quarter 1; quarter 2; quarter 0; quarter 0;
            quarter 3; quarter 0]
           (board [snakeAt 0 "red" [mkCell 0 0] (mkCell (-1) 0) true;
                   snakeAt 1 "blue" [mkCell 2 0] (mkCell 1 0) false]
                  (mkCell 3 0) true (Some 0%nat) 0 true) []); [|by_run].
  apply reachable_init.
Qed.

(** On [standstill] no snake moves in the tick, the autonomous snake
    having no legal move and the user-controlled one facing the wall;
    the user-controlled snake has a legal move, to (1, 0), and the
    game goes on. *)
Lemma human_with_a_move_keeps_playing_witness :
  moveSnakes 4 1 standstill [] = Done (standstill, false, [])
  ∧ ∃ st', gameLoop 4 1 standstill [] = Done (st', []) ∧ gameInterval st' = true
           ∧ snakes st' = snakes standstill.
Proof.
  split; [by_run|].
  apply (human_with_a_move_keeps_playing 4 1 standstill standstill false [] []
           standstill_reachable eq_refl eq_refl); [by_run|].
  exists 0%nat, (snakeAt 0 "red" [mkCell 0 0] (mkCell (-1) 0) true),
    (mkCell 0 0), [], (mkCell 1 0).
  split; [reflexivity|]. split; [reflexivity|]. split; [reflexivity|].
  split; [unfold unitStep; simpl; lia|]. split; [simpl; lia|].
  split; [simpl; lia|].
  intros j s Hs Hin.
  destruct j as [|[|j]]; simpl in Hs; try discriminate;
    injection Hs as <-; cell_not_in Hin.
Defined.

Example standstill_tick :
  gameLoop 4 1 standstill [] = Done (standstill, []).
Proof. by_run. Qed.

(** C6, as the claim states it, fails: a count of -1 with the checkbox
    ticked starts a game without a snake; no snake is user-controlled
    and none moves, and the tick leaves the timer running. *)
Lemma empty_board_with_checkbox_plays_on : ¬ endsWhenNobodyMoved 4 4.
Proof.
  intros Hclaim.
  assert (Hreach : reachable 4 4 (board [] (mkCell 1 1) true None 0 true)).
  { apply (reachable_step 4 4 (initialState true) (Start (Some (-1)))
             [quarter 1; quarter 1] (board [] (mkCell 1 1) true None 0 true) []);
      [apply reachable_init|by_run]. }
  specialize (Hclaim (board [] (mkCell 1 1) true None 0 true) []
                (board [] (mkCell 1 1) true None 0 true) [] Hreach eq_refl).
  discriminate Hclaim.
  - intros k s Hs. simpl in Hs. by rewrite lookup_nil in Hs.
  - by_run.
  - intros k s s' Hs. simpl in Hs. by rewrite lookup_nil in Hs.
Qed.

(** On [trapped] the single snake has no legal move: the wall is on
    three sides, and the step to the right is the reverse of the
    direction of a snake of two blocks.  The next tick ends the
    game. *)
Lemma no_human_ends_when_nobody_moved_witness :
  ∃ st', gameLoop 3 1 trapped [] = Done (st', []) ∧ gameInterval st' = false
         ∧ snakes st' = snakes trapped ∧ food st' = food trapped.
Proof.
  destruct (no_human_ends_when_nobody_moved 3 1 trapped [] trapped_reachable eq_refl)
    as (_ & _ & Hall & _).
  - intros k s Hs. destruct k as [|k]; [by injection Hs as <-|done].
  - left. reflexivity.
  - apply Hall.
    intros i s head rest [dx dy] Hs Hb ((Hunit & Hx & Hy & Hopen) & Hrev).
    destruct i as [|i]; [|done]. injection Hs as <-. injection Hb as <- <-.
    unfold unitStep in Hunit. simpl in *.
    assert (dx = 1 ∧ dy = 0) as [-> ->] by lia.
    apply Hrev; [lia|reflexivity].
Defined.
